(** * Pump.fun migration alert bot: ingestion-and-detection pipeline

    A shallow embedding of the detection pipeline of the bot:
    - [JsString]: the string primitives the code calls ([includes],
      [endsWith], [toLowerCase], [join]);
    - [Detector]: [MigrationDetector] (detection and token mint extraction);
    - [Orchestrator]: the stream callback, the fetch queue and
      [fetchAndProcessTransaction] of the entry point;
    - [Client]: the reconnect logic of [HeliusWebSocketClient].

    JavaScript strings are modelled as [string] over the code units 0..255;
    absent (null / undefined) members as [None]. *)

From Stdlib Require Import Bool Arith ZArith List Ascii String Lia.
From Stdlib Require Import DecimalString.
Import ListNotations.

Open Scope string_scope.
Open Scope nat_scope.

(* ================================================================== *)
(** ** String primitives *)

Module JsString.

(** [s.includes(needle)] *)
Fixpoint includes (s needle : string) : bool :=
  prefix needle s ||
  match s with
  | EmptyString => false
  | String _ s' => includes s' needle
  end.

(** [s.endsWith(suffix)] *)
Definition endsWith (s suffix : string) : bool :=
  let n := String.length s in
  let m := String.length suffix in
  (m <=? n) && String.eqb (substring (n - m) m s) suffix.

(** Lower-case mapping of one code unit in the range 0..255:
    A-Z, and the capital letters of the Latin-1 block (U+00C0..U+00DE
    without the multiplication sign U+00D7), move up by 32. *)
Definition lowerChar (c : ascii) : ascii :=
  let n := nat_of_ascii c in
  if ((65 <=? n) && (n <=? 90)) ||
     ((192 <=? n) && (n <=? 222) && negb (n =? 215))
  then ascii_of_nat (n + 32)
  else c.

(** [s.toLowerCase()] *)
Fixpoint toLowerCase (s : string) : string :=
  match s with
  | EmptyString => EmptyString
  | String c s' => String (lowerChar c) (toLowerCase s')
  end.

(** [parts.join(sep)] *)
Fixpoint join (parts : list string) (sep : string) : string :=
  match parts with
  | [] => ""
  | [x] => x
  | x :: rest => x ++ sep ++ join rest sep
  end.

(** JavaScript truthiness of an optional string: absent and [''] are
    falsy. *)
Definition truthyStr (o : option string) : bool :=
  match o with
  | Some s => negb (String.eqb s "")
  | None => false
  end.

(** [a || b] on optional strings. *)
Definition orStr (a b : option string) : option string :=
  if truthyStr a then a else b.

(** [o === lit] for an optional string and a string. *)
Definition strictEq (o : option string) (lit : string) : bool :=
  match o with
  | Some s => String.eqb s lit
  | None => false
  end.

End JsString.

(* ================================================================== *)
(** ** Completion of a JavaScript computation *)

(** The value of [error.message], when the thrown value has one. *)
Record JsError := mkError { errorMessage : option string }.

(** What reading a member of [undefined] throws. *)
Definition typeError : JsError :=
  mkError (Some "Cannot read properties of undefined").

Inductive completion (A : Type) : Type :=
| Normal (a : A)
| Throw (e : JsError).
Arguments Normal {A} a.
Arguments Throw {A} e.

(* ================================================================== *)
(** ** MigrationDetector *)

Module Detector.
Import JsString.

Record Config := mkConfig {
  pumpFunProgramId : string;
  pumpFunAmmProgramId : string
}.

(** A member that holds either a string or an object (a [PublicKey], a
    transaction error object). *)
Inductive JsRef :=
| RefStr (s : string)
| RefObj.

Definition truthyRef (o : option JsRef) : bool :=
  match o with
  | Some (RefStr s) => negb (String.eqb s "")
  | Some RefObj => true
  | None => false
  end.

(** [r === lit] where [lit] is a string: an object is never equal. *)
Definition refEq (o : option JsRef) (lit : string) : bool :=
  match o with
  | Some (RefStr s) => String.eqb s lit
  | _ => false
  end.

Record ParsedInfo := mkInfo {
  mint : option string;
  tokenMint : option string
}.

Record Parsed := mkParsed {
  type : option string;
  info : option ParsedInfo
}.

(** One top-level instruction.  [accounts] is [None] when the member is
    absent or not an array; an entry is the number the code computes from
    it ([accountIndex] itself or [parseInt(accountIndex.toString())]),
    [None] when that number is [NaN] or not an integer (no array element
    is stored at such an index). *)
Record Instruction := mkIx {
  programId : option JsRef;
  program : option JsRef;
  data : option string;
  parsed : option Parsed;
  accounts : option (list (option Z))
}.

(** An entry of [accountKeys]: a string, or an object with the result of
    [key.pubkey?.toString()] and of [key.toString()]. *)
Inductive AccountKey :=
| KeyStr (s : string)
| KeyObj (pubkey : option string) (str : string).

Record Message := mkMessage {
  instructions : option (list Instruction);
  accountKeys : option (list AccountKey)
}.

Record Transaction := mkTransaction {
  message : option Message
}.

Record Meta := mkMeta {
  err : option JsRef;
  logMessages : option (list string)
}.

Record TxRecord := mkTx {
  transaction : option Transaction;
  meta : option Meta
}.

Record MigrationDetectionResult := mkResult {
  isMigration : bool;
  resultTokenMint : option string;
  resultSignature : option string
}.

Definition notMigration : MigrationDetectionResult :=
  mkResult false None None.

Definition migrateMarker : string := "Instruction: Migrate".

(** [hasMigrateInstruction(instructions, logMessages)] *)
Definition hasMigrateLog (logMessages : list string) : bool :=
  existsb (fun log => includes log migrateMarker) logMessages.

Definition isMigrateIx (cfg : Config) (ix : Instruction) : bool :=
  let pid := if truthyRef (programId ix) then programId ix else program ix in
  refEq pid (pumpFunProgramId cfg) &&
  (match data ix with
   | Some d => includes d "migrate"
   | None => false
   end
   || strictEq (match parsed ix with Some p => type p | None => None end)
               "migrate").

Definition hasMigrateInstruction (cfg : Config) (ixs : list Instruction)
           (logMessages : list string) : bool :=
  if hasMigrateLog logMessages then true
  else existsb (isMigrateIx cfg) ixs.

(** The [hasCollectFee] test of [detectMigrationFromTransaction]. *)
Definition hasCollectFee (logMessages : list string) : bool :=
  existsb (fun log =>
             includes log "Instruction: CollectCreatorFee" ||
             includes log "Instruction: MigrateBondingCurveCreator" ||
             includes log "Instruction: DistributeCreatorFees")
          logMessages.

(** The test both address loops apply to an account. *)
Definition looksLikeMintAddress (account : string) : bool :=
  endsWith account "pump" && (String.length account =? 44).

Definition keyToString (key : AccountKey) : string :=
  match key with
  | KeyStr s => s
  | KeyObj pk str => if truthyStr pk then match pk with
                                         | Some s => s
                                         | None => str
                                         end
                     else str
  end.

Definition parsedType (ix : Instruction) : option string :=
  match parsed ix with Some p => type p | None => None end.

Definition parsedInfo (ix : Instruction) : option ParsedInfo :=
  match parsed ix with Some p => info p | None => None end.

Definition infoMint (ix : Instruction) : option string :=
  match parsedInfo ix with Some i => mint i | None => None end.

Definition infoTokenMint (ix : Instruction) : option string :=
  match parsedInfo ix with Some i => tokenMint i | None => None end.

(** The two payload tests at the top of the instruction loop body:
    the value returned, if one of them returns. *)
Definition payloadMint (ix : Instruction) : option string :=
  let viaTransfer :=
    if strictEq (parsedType ix) "transfer" ||
       strictEq (parsedType ix) "transferChecked"
    then orStr (infoMint ix) (infoTokenMint ix)
    else None in
  if truthyStr viaTransfer then viaTransfer
  else if truthyStr (infoMint ix) then infoMint ix
  else None.

(** The inner loop over [ix.accounts]. *)
Fixpoint scanAccounts (keys : list string) (idxs : list (option Z))
  : option string :=
  match idxs with
  | [] => None
  | None :: rest => scanAccounts keys rest
  | Some index :: rest =>
      if (0 <=? index)%Z && (index <? Z.of_nat (List.length keys))%Z then
        match nth_error keys (Z.to_nat index) with
        | Some account =>
            if looksLikeMintAddress account then Some account
            else scanAccounts keys rest
        | None => scanAccounts keys rest
        end
      else scanAccounts keys rest
  end.

Definition ixAccounts (keys : list string) (ix : Instruction)
  : option string :=
  match accounts ix with
  | Some idxs => scanAccounts keys idxs
  | None => None
  end.

(** The loop over [instructions]. *)
Fixpoint scanInstructions (keys : list string) (ixs : list Instruction)
  : option string :=
  match ixs with
  | [] => None
  | ix :: rest =>
      match payloadMint ix with
      | Some m => Some m
      | None =>
          match ixAccounts keys ix with
          | Some a => Some a
          | None => scanInstructions keys rest
          end
      end
  end.

Definition knownPrograms : list string :=
  [ "11111111111111111111111111111111";
    "TokenkegQfeZyiNwAJbNbGKPFXCWuBvf9Ss623VQ5DA";
    "TokenzQdBNbLqP5VEhdkAS6EPFLC1PHnBqCXEpPxuEb";
    "ATokenGPvbdGVxr1b2hvZbsiqW5xWH25efTNsLJA8knL" ].

(** The addresses the fallback loop skips. *)
Definition isSkipped (cfg : Config) (account : string) : bool :=
  existsb (String.eqb account) knownPrograms ||
  String.eqb account (pumpFunProgramId cfg) ||
  String.eqb account (pumpFunAmmProgramId cfg).

Definition isFallback (cfg : Config) (account : string) : bool :=
  (String.length account =? 44) && negb (isSkipped cfg account).

Definition accountKeysArray (tx : option Transaction) : list string :=
  match tx with
  | Some t =>
      match message t with
      | Some m =>
          match accountKeys m with
          | Some ks => map keyToString ks
          | None => []
          end
      | None => []
      end
  | None => []
  end.

(** [extractTokenMint(tx, instructions)] *)
Definition extractTokenMint (cfg : Config) (tx : option Transaction)
           (ixs : list Instruction) : option string :=
  let keys := accountKeysArray tx in
  match find looksLikeMintAddress keys with
  | Some account => Some account
  | None =>
      match scanInstructions keys ixs with
      | Some m => Some m
      | None => find (isFallback cfg) keys
      end
  end.

(** [detectMigrationFromTransaction(tx, signature)].  Reading
    [tx.transaction.message.instructions] throws when [transaction] or
    [message] is absent. *)
Definition detectMigrationFromTransaction (cfg : Config)
           (tx : option TxRecord) (signature : string)
  : completion MigrationDetectionResult :=
  match tx with
  | None => Normal notMigration
  | Some t =>
      match meta t with
      | None => Normal notMigration
      | Some m =>
          if truthyRef (err m) then Normal notMigration
          else
            match transaction t with
            | None => Throw typeError
            | Some tr =>
                match message tr with
                | None => Throw typeError
                | Some msg =>
                    let ixs := match instructions msg with
                               | Some l => l
                               | None => []
                               end in
                    let logs := match logMessages m with
                                | Some l => l
                                | None => []
                                end in
                    let isMig := hasMigrateInstruction cfg ixs logs &&
                                 negb (hasCollectFee logs) in
                    if negb isMig then Normal notMigration
                    else Normal (mkResult true
                                   (extractTokenMint cfg (Some tr) ixs)
                                   (Some signature))
                end
            end
      end
  end.

End Detector.

(* ================================================================== *)
(** ** Entry point: stream callback, fetch queue, transaction processing *)

Module Orchestrator.
Import JsString Detector.
Local Open Scope list_scope.

(** [hasMigrationIndicators(logs)]; [None] is a value that is not an
    array. *)
Definition hasMigrationIndicators (logs : option (list string)) : bool :=
  match logs with
  | None => false
  | Some l =>
      let logText := toLowerCase (join l " ") in
      includes logText "migrate" ||
      includes logText "migration" ||
      (includes logText "burn" && includes logText "lp") ||
      includes logText "pump.fun: migration"
  end.

Record QueuedFetch := mkFetch {
  signature : string;
  timestamp : Z
}.

Record MigrationTransaction := mkMigration {
  mSignature : string;
  mTokenMint : string;
  tokenName : option string;
  tokenSymbol : option string;
  mTimestamp : Z;
  transactionUrl : string
}.

Record TokenData := mkTokenData {
  tdMint : string;
  name : string;
  symbol : string;
  decimals : Z
}.

(** The answers of the collaborators awaited while one transaction is
    processed: the RPC connection, [TransactionParser],
    [TokenDataFetcher] and [TelegramBotHandler]. *)
Record World := mkWorld {
  getParsedTransaction : string -> completion (option TxRecord);
  parseMigrationTransactionFromParsed :
    TxRecord -> option string -> string ->
    completion (option MigrationTransaction);
  fetchTokenData : string -> completion (option TokenData);
  sendMigrationAlert : MigrationTransaction -> TokenData -> completion unit
}.

(** What a run does towards the outside. *)
Inductive Effect :=
| Fetched (sig : string)
| Classified (sig : string) (isMigration : bool)
| AlertSent (m : MigrationTransaction) (td : TokenData).

(** The variables of [main] the callbacks close over.  [clock] is the
    value of [Date.now()]; [retryTimers] holds the [setTimeout] callbacks
    of the rate-limit handler that have not run yet, each with the time
    at which it becomes due.  [processedSignatures] is the [Set] in
    insertion order. *)
Record State := mkState {
  processedSignatures : list string;
  pendingFetches : list QueuedFetch;
  retryTimers : list (Z * string);
  lastFetchTime : Z;
  clock : Z
}.

Definition initialState (now : Z) : State := mkState [] [] [] 0 now.

Definition minFetchInterval : Z := 100.

(** [set.has(sig)], [set.add(sig)], [set.delete(sig)] *)
Definition has (sig : string) (set : list string) : bool :=
  existsb (String.eqb sig) set.

Definition add (sig : string) (set : list string) : list string :=
  if has sig set then set else set ++ [sig].

Definition delete (sig : string) (set : list string) : list string :=
  filter (fun s => negb (String.eqb sig s)) set.

(** "Clean up old processed signatures (keep last 1000)" *)
Definition cleanupProcessed (set : list string) : list string :=
  if 1000 <? List.length set then
    let signaturesArray := set in
    let toRemove := firstn (List.length signaturesArray - 1000)
                           signaturesArray in
    fold_left (fun acc sig => delete sig acc) toRemove set
  else set.

Definition setProcessed (st : State) (set : list string) : State :=
  mkState set (pendingFetches st) (retryTimers st) (lastFetchTime st)
          (clock st).

Definition push (item : QueuedFetch) (st : State) : State :=
  mkState (processedSignatures st) (pendingFetches st ++ [item])
          (retryTimers st) (lastFetchTime st) (clock st).

Definition addTimer (timer : Z * string) (st : State) : State :=
  mkState (processedSignatures st) (pendingFetches st)
          (retryTimers st ++ [timer])
          (lastFetchTime st) (clock st).

(** [setTimeout(callback, delay)] for the retry of [sig] *)
Definition setTimeout (delay : Z) (sig : string) (st : State) : State :=
  addTimer ((clock st + delay)%Z, sig) st.

Definition messageIncludes (e : JsError) (needle : string) : bool :=
  match errorMessage e with
  | Some m => includes m needle
  | None => false
  end.

Definition isRateLimit (e : JsError) : bool :=
  messageIncludes e "429" || messageIncludes e "Too Many Requests".

(** The [catch] block of [fetchAndProcessTransaction]. *)
Definition catchHandler (e : JsError) (sig : string) (st : State) : State :=
  if isRateLimit e then setTimeout 2000 sig st else st.

(** The callback the [catch] block hands to [setTimeout]. *)
Definition retryCallback (sig : string) (st : State) : State :=
  if negb (has sig (processedSignatures st))
  then push (mkFetch sig (clock st)) st
  else st.

Definition unknownToken (mint : string) : TokenData :=
  mkTokenData mint "Unknown Token" "UNKNOWN" 9.

(** [tx.transaction.message.instructions.length], read while the
    detection is logged: [None] when the read throws. *)
Definition instructionsLength (tx : TxRecord) : option nat :=
  match transaction tx with
  | Some tr =>
      match Detector.message tr with
      | Some msg =>
          match instructions msg with
          | Some l => Some (List.length l)
          | None => None
          end
      | None => None
      end
  | None => None
  end.

(** The [try] block of [fetchAndProcessTransaction]: the state and the
    effects when it is left, and the error if it is left by a throw. *)
Definition tryBlock (cfg : Config) (w : World) (sig : string) (st : State)
  : State * list Effect * option JsError :=
  if has sig (processedSignatures st) then (st, [], None)
  else
    match getParsedTransaction w sig with
    | Throw e => (st, [Fetched sig], Some e)
    | Normal None => (st, [Fetched sig], None)
    | Normal (Some tx) =>
        match detectMigrationFromTransaction cfg (Some tx) sig with
        | Throw e => (st, [Fetched sig], Some e)
        | Normal detection =>
            if negb (isMigration detection)
            then (st, [Fetched sig; Classified sig false], None)
            else
              let st1 := setProcessed st (add sig (processedSignatures st)) in
              let eff1 := [Fetched sig; Classified sig true] in
              match instructionsLength tx with
              | None => (st1, eff1, Some typeError)
              | Some _ =>
                  match parseMigrationTransactionFromParsed
                          w tx (resultTokenMint detection) sig with
                  | Throw e => (st1, eff1, Some e)
                  | Normal None => (st1, eff1, None)
                  | Normal (Some migration) =>
                      if negb (truthyStr (Some (mTokenMint migration)))
                      then (st1, eff1, None)
                      else
                        match fetchTokenData w (mTokenMint migration) with
                        | Throw e => (st1, eff1, Some e)
                        | Normal None =>
                            let td := unknownToken (mTokenMint migration) in
                            match sendMigrationAlert w migration td with
                            | Throw e => (st1, eff1, Some e)
                            | Normal _ =>
                                (st1, eff1 ++ [AlertSent migration td], None)
                            end
                        | Normal (Some tokenData) =>
                            let migration' :=
                              mkMigration (mSignature migration)
                                          (mTokenMint migration)
                                          (Some (name tokenData))
                                          (Some (symbol tokenData))
                                          (mTimestamp migration)
                                          (transactionUrl migration) in
                            match sendMigrationAlert w migration' tokenData
                            with
                            | Throw e => (st1, eff1, Some e)
                            | Normal _ =>
                                (setProcessed st1
                                   (cleanupProcessed
                                      (processedSignatures st1)),
                                 eff1 ++ [AlertSent migration' tokenData],
                                 None)
                            end
                        end
                  end
              end
        end
    end.

(** [fetchAndProcessTransaction(signature)] *)
Definition fetchAndProcessTransaction (cfg : Config) (w : World)
           (sig : string) (st : State) : State * list Effect :=
  match tryBlock cfg w sig st with
  | (st', eff, None) => (st', eff)
  | (st', eff, Some e) => (catchHandler e sig st', eff)
  end.

(** The time at which the [while] loop of [processFetchQueue] goes on
    after its wait for the rate limit. *)
Definition afterWait (st : State) : Z :=
  let now := clock st in
  let timeSinceLastFetch := (now - lastFetchTime st)%Z in
  if (timeSinceLastFetch <? minFetchInterval)%Z
  then (now + (minFetchInterval - timeSinceLastFetch))%Z
  else now.

(** One iteration of the [while] loop of [processFetchQueue]; the wait
    moves the clock by the time waited. *)
Definition processQueueItem (cfg : Config) (w : World) (st : State)
  : State * list Effect :=
  let now := clock st in
  match pendingFetches st with
  | [] => (st, [])
  | item :: rest =>
      if (30000 <? now - timestamp item)%Z then
        (mkState (processedSignatures st) rest (retryTimers st)
                 (lastFetchTime st) (afterWait st), [])
      else
        fetchAndProcessTransaction cfg w (signature item)
          (mkState (processedSignatures st) rest (retryTimers st)
                   (afterWait st) (afterWait st))
  end.

(** The stream notification handed to the callback. *)
Record LogsValue := mkValue {
  vSignature : option string;
  vLogs : option (list string)
}.

Record NotificationResult := mkNotification {
  value : option LogsValue;
  rSignature : option string;
  rLogs : option (list string);
  (** [result.transaction], and inside it [transaction?.signatures] *)
  rTransaction : option (option (list string))
}.

Record WsMessage := mkMsg {
  method : option string;
  result : option NotificationResult
}.

Definition orEmpty (logs : option (list string)) : list string :=
  match logs with Some l => l | None => [] end.

(** The signature and the logs the callback reads off a message. *)
Definition readMessage (msg : WsMessage) : option string * list string :=
  if strictEq (method msg) "logsNotification" then
    match result msg with
    | None => (None, [])
    | Some r =>
        let valueSig := match value r with
                        | Some v => vSignature v
                        | None => None
                        end in
        if truthyStr valueSig then
          (valueSig, orEmpty (match value r with
                              | Some v => vLogs v
                              | None => None
                              end))
        else if truthyStr (rSignature r) then
          (rSignature r, orEmpty (rLogs r))
        else
          match value r with
          | Some v => (vSignature v, orEmpty (vLogs v))
          | None => (rSignature r, orEmpty (rLogs r))
          end
    end
  else
    match result msg with
    | Some r =>
        match rTransaction r with
        | Some tx => (match tx with
                      | Some (s :: _) => Some s
                      | _ => None
                      end, [])
        | None => (None, [])
        end
    | None => (None, [])
    end.

(** The callback given to [HeliusWebSocketClient]. *)
Definition onMessage (msg : WsMessage) (st : State) : State :=
  let '(sig, logs) := readMessage msg in
  if negb (truthyStr sig) then st
  else
    match sig with
    | None => st
    | Some s =>
        if (0 <? List.length logs) &&
           negb (hasMigrationIndicators (Some logs))
        then st
        else push (mkFetch s (clock st)) st
    end.

(** Time passes: the clock moves and the retry callbacks that are due
    run, in the order they were scheduled. *)
Fixpoint runDue (timers : list (Z * string)) (st : State) : State :=
  match timers with
  | [] => st
  | (due, sig) :: rest =>
      if (due <=? clock st)%Z then runDue rest (retryCallback sig st)
      else runDue rest st
  end.

Definition advance (dt : Z) (st : State) : State :=
  let st' := mkState (processedSignatures st) (pendingFetches st)
                     (filter (fun t => (clock st + dt <? fst t)%Z)
                             (retryTimers st))
                     (lastFetchTime st) (clock st + dt)%Z in
  runDue (retryTimers st) st'.

(** The events of the event loop.  A queue iteration comes with the
    answers the collaborators give during it.  [processFetchQueue] is the
    sequence of [Dequeue] events that empties the queue; the
    [isProcessingQueue] flag only keeps a second loop from starting. *)
Inductive Event :=
| Message (msg : WsMessage)
| Dequeue (w : World)
| Advance (dt : Z).

Definition step (cfg : Config) (ev : Event) (st : State)
  : State * list Effect :=
  match ev with
  | Message msg => (onMessage msg st, [])
  | Dequeue w => processQueueItem cfg w st
  | Advance dt => (advance dt st, [])
  end.

Fixpoint run (cfg : Config) (evs : list Event) (st : State)
  : State * list Effect :=
  match evs with
  | [] => (st, [])
  | ev :: rest =>
      let '(st1, eff1) := step cfg ev st in
      let '(st2, eff2) := run cfg rest st1 in
      (st2, eff1 ++ eff2)
  end.

Definition isFetch (sig : string) (e : Effect) : bool :=
  match e with
  | Fetched s => String.eqb s sig
  | _ => false
  end.

Definition isClassify (sig : string) (e : Effect) : bool :=
  match e with
  | Classified s _ => String.eqb s sig
  | _ => false
  end.

Definition fetchCount (sig : string) (effs : list Effect) : nat :=
  List.length (filter (isFetch sig) effs).

Definition classifyCount (sig : string) (effs : list Effect) : nat :=
  List.length (filter (isClassify sig) effs).

End Orchestrator.

(* ================================================================== *)
(** ** HeliusWebSocketClient: close handling and reconnect *)

Module Client.

(** The fields of the class the close handler and [scheduleReconnect]
    use.  [reconnectInterval] holds the delay of the pending reconnect
    timer; [connectCalls] counts the calls of [connect()]. *)
Record State := mkState {
  reconnectInterval : option Z;
  pingInterval : bool;
  subscriptionId : option Z;
  reconnectAttempts : nat;
  maxReconnectAttempts : nat;
  isReconnecting : bool;
  connectCalls : nat
}.

Definition newClient : State := mkState None false None 0 10 false 0.

(** A client whose maximum is [n]. *)
Definition newClientWithMax (n : nat) : State :=
  mkState None false None 0 n false 0.

(** [connect()] opens a socket. *)
Definition connect (st : State) : State :=
  mkState (reconnectInterval st) (pingInterval st) (subscriptionId st)
          (reconnectAttempts st) (maxReconnectAttempts st)
          (isReconnecting st) (S (connectCalls st)).

(** The ['open'] handler. *)
Definition onOpen (st : State) : State :=
  mkState (reconnectInterval st) true (subscriptionId st)
          0 (maxReconnectAttempts st) (isReconnecting st)
          (connectCalls st).

(** [cleanup()] *)
Definition cleanup (st : State) : State :=
  mkState None false None
          (reconnectAttempts st) (maxReconnectAttempts st)
          (isReconnecting st) (connectCalls st).

(** [scheduleReconnect()] *)
Definition scheduleReconnect (st : State) : State :=
  if isReconnecting st then st
  else if maxReconnectAttempts st <=? reconnectAttempts st then st
  else
    let reconnectDelay := 1000%Z in
    mkState (Some reconnectDelay) (pingInterval st) (subscriptionId st)
            (S (reconnectAttempts st)) (maxReconnectAttempts st)
            true (connectCalls st).

Definition isAuthClose (code : Z) : bool :=
  (code =? 1008)%Z || (code =? 1003)%Z.

(** The ['close'] handler. *)
Definition onClose (code : Z) (st : State) : State :=
  if isAuthClose code then st
  else scheduleReconnect (cleanup st).

(** The callback of the reconnect timer, run when the timer set by
    [scheduleReconnect] expires. *)
Definition onReconnectTimer (st : State) : State :=
  match reconnectInterval st with
  | Some _ =>
      connect (mkState None (pingInterval st) (subscriptionId st)
                       (reconnectAttempts st) (maxReconnectAttempts st)
                       false (connectCalls st))
  | None => st
  end.

Inductive Event :=
| Open
| Close (code : Z)
| TimerExpired.

Definition step (ev : Event) (st : State) : State :=
  match ev with
  | Open => onOpen st
  | Close code => onClose code st
  | TimerExpired => onReconnectTimer st
  end.

Definition run (evs : list Event) (st : State) : State :=
  fold_left (fun s ev => step ev s) evs st.

(** The connection closes with each of [codes] in turn without ever
    opening: after each close the reconnect timer expires. *)
Fixpoint disconnects (codes : list Z) : list Event :=
  match codes with
  | [] => []
  | c :: rest => Close c :: TimerExpired :: disconnects rest
  end.

(** The reconnect attempts made so far: every [connect()] after the
    first. *)
Definition reconnectsMade (st : State) : nat := connectCalls st - 1.

(** The client between two attempts: no reconnect timer is pending. *)
Definition idle (st : State) : Prop :=
  isReconnecting st = false /\ reconnectInterval st = None.

End Client.

(* ================================================================== *)
(** ** Sample inputs *)

Module Examples.
Import Detector.

Definition cfg : Config :=
  mkConfig "6EF8rrecthR5Dkzon8Nwu78hRvfCKubJ14M5uBEwF6P"
           "675kPX9MHTjS2zt1qfr1NYHuzeLXfQM9H24wFSUt1Mp8".

(** A record built from a message and its log lines, without error. *)
Definition record (ixs : list Instruction) (keys : list AccountKey)
           (logs : list string) : TxRecord :=
  mkTx (Some (mkTransaction (Some (mkMessage (Some ixs) (Some keys)))))
       (Some (mkMeta None (Some logs))).

Definition migrateLogs : list string :=
  ["Program log: Instruction: Migrate"].

(** The marker in another letter case. *)
Definition lowerCaseLogs : list string :=
  ["Program log: instruction: migrate"].

(** An instruction of the watched program, given by a string program id,
    whose parsed type is [migrate]. *)
Definition migrateIx : Instruction :=
  mkIx (Some (RefStr "6EF8rrecthR5Dkzon8Nwu78hRvfCKubJ14M5uBEwF6P"))
       None None (Some (mkParsed (Some "migrate") None)) None.

(** No log lines, one [migrate] instruction. *)
Definition instructionOnlyTx : TxRecord := record [migrateIx] [] [].

(** A record with [meta] and no [transaction]. *)
Definition metaOnlyTx : TxRecord :=
  mkTx None (Some (mkMeta None None)).

Definition mintA : string :=
  "AAAAAAAAAAAAAAAAAAAAAAAAAAAAAAAAAAAAAAAApump".

Definition mintB : string :=
  "BBBBBBBBBBBBBBBBBBBBBBBBBBBBBBBBBBBBBBBBpump".

Definition payer : string :=
  "PayerPayerPayerPayerPayerPayerPayerPayerPaye".

(** Two vanity-suffix addresses in the account list; the instruction
    refers to the second one by its index. *)
Definition twoMintsTx : TxRecord :=
  record [mkIx (Some RefObj) None None None (Some [Some 2%Z])]
         [KeyStr payer; KeyStr mintA; KeyStr mintB]
         migrateLogs.


(** A [mintTo] payload that has a [tokenMint] member and no [mint]
    member. *)
Definition otherMint : string :=
  "TMTMTMTMTMTMTMTMTMTMTMTMTMTMTMTMTMTMTMTMTMTM".

Definition mintToIx : Instruction :=
  mkIx (Some RefObj) None None
       (Some (mkParsed (Some "mintTo")
                       (Some (mkInfo None (Some otherMint)))))
       None.

(** A migration whose only payload is the [mintTo] one and whose account
    list holds no vanity-suffix address. *)
Definition mintToTx : TxRecord :=
  record [mintToIx] [KeyStr payer] migrateLogs.

(** Log lines of a fee collection that also carry the migration
    marker. *)
Definition feeLogs : list string :=
  ["Program log: Instruction: Migrate";
   "Program log: Instruction: CollectCreatorFee"].

Definition feeTx : TxRecord := record [] [KeyStr mintA] feeLogs.

Definition migrationTx : TxRecord := record [] [KeyStr mintA] migrateLogs.

(** Collaborators that answer every fetch with [tx] and never fail. *)
Definition worldOf (tx : TxRecord) : Orchestrator.World :=
  Orchestrator.mkWorld
    (fun _ => Normal (Some tx))
    (fun _ mint sig =>
       Normal (match mint with
               | Some m => Some (Orchestrator.mkMigration
                                   sig m None None 0 "https://solscan.io/tx/")
               | None => None
               end))
    (fun mint => Normal (Some (Orchestrator.mkTokenData mint "Token" "TKN" 6)))
    (fun _ _ => Normal tt).

(** Collaborators whose fetch fails with the error [e]. *)
Definition failingWorld (e : JsError) : Orchestrator.World :=
  Orchestrator.mkWorld
    (fun _ => Throw e)
    (fun _ _ _ => Normal None)
    (fun _ => Normal None)
    (fun _ _ => Normal tt).

(** A log notification for [sig]. *)
Definition logsNotification (sig : string) (logs : list string)
  : Orchestrator.WsMessage :=
  Orchestrator.mkMsg
    (Some "logsNotification")
    (Some (Orchestrator.mkNotification
             (Some (Orchestrator.mkValue (Some sig) (Some logs)))
             None None None)).

(** A signature for each number: [SIG] and its decimal digits. *)
Definition sigOf (n : nat) : string :=
  "SIG" ++ NilEmpty.string_of_uint (Nat.to_uint n).

Definition manySigs (n : nat) : list string := map sigOf (seq 0 n).

End Examples.

(* ================================================================== *)
(** ** The detection rules as the specification words them *)

Module Spec.
Import JsString Detector.

(** Some log line contains the migration marker. *)
Definition containsMarker (logs : list string) : Prop :=
  exists log, In log logs /\ includes log migrateMarker = true.

(** Some log line contains one of the exclusion markers. *)
Definition containsExclusion (logs : list string) : Prop :=
  exists log, In log logs /\
    (includes log "Instruction: CollectCreatorFee" = true \/
     includes log "Instruction: MigrateBondingCurveCreator" = true \/
     includes log "Instruction: DistributeCreatorFees" = true).

(** Some top-level instruction is a [migrate] instruction of the watched
    program. *)
Definition containsMigrateIx (cfg : Config) (ixs : list Instruction)
  : Prop :=
  exists ix, In ix ixs /\ isMigrateIx cfg ix = true.

(** First match wins. *)
Fixpoint firstSome {A : Type} (tiers : list (option A)) : option A :=
  match tiers with
  | [] => None
  | Some a :: _ => Some a
  | None :: rest => firstSome rest
  end.

(** (a) the first vanity-suffix address of the top-level account list *)
Definition tierA (keys : list string) : option string :=
  find looksLikeMintAddress keys.

(** The address an account index of an instruction refers to. *)
Definition addressAt (keys : list string) (index : option Z)
  : list string :=
  match index with
  | Some z =>
      if (0 <=? z)%Z then
        match nth_error keys (Z.to_nat z) with
        | Some a => [a]
        | None => []
        end
      else []
  | None => []
  end.

Definition referenced (keys : list string) (ix : Instruction)
  : list string :=
  flat_map (addressAt keys)
           (match accounts ix with Some l => l | None => [] end).

(** (b) the first vanity-suffix address reached through the account
    indices of the top-level instructions *)
Definition tierB (keys : list string) (ixs : list Instruction)
  : option string :=
  find looksLikeMintAddress (flat_map (referenced keys) ixs).

(** A field of a payload that has a value: present and not empty. *)
Definition nonEmpty (field : option string) : option string :=
  match field with
  | Some s => if String.eqb s "" then None else Some s
  | None => None
  end.

(** The mint / token-mint field of a decoded payload: its mint field,
    or else its token-mint field. *)
Definition mintField (ix : Instruction) : option string :=
  firstSome [nonEmpty (infoMint ix); nonEmpty (infoTokenMint ix)].

(** (c) as stated: the mint / token-mint field of the first decoded
    payload that has one *)
Definition tierC (ixs : list Instruction) : option string :=
  firstSome (map mintField ixs).

(** A payload of type [transfer] or [transferChecked]. *)
Definition isTransferPayload (ix : Instruction) : bool :=
  match parsedType ix with
  | Some t => String.eqb t "transfer" || String.eqb t "transferChecked"
  | None => false
  end.

(** The mint field of a decoded payload, or else, in a transfer payload
    only, its token-mint field. *)
Definition mintFieldOfTransfers (ix : Instruction) : option string :=
  firstSome [nonEmpty (infoMint ix);
             if isTransferPayload ix then nonEmpty (infoTokenMint ix)
             else None].

(** (c) amended: the token-mint field counts in transfer payloads only *)
Definition tierCAmended (ixs : list Instruction) : option string :=
  firstSome (map mintFieldOfTransfers ixs).

Definition isKnownProgramOrSystemAddress (cfg : Config) (a : string)
  : bool :=
  existsb (String.eqb a) knownPrograms ||
  String.eqb a (pumpFunAmmProgramId cfg).

(** (d) the first 44-character address that is neither a known program
    nor the watched program *)
Definition tierD (cfg : Config) (keys : list string) : option string :=
  find (fun a => (String.length a =? 44) &&
                 negb (isKnownProgramOrSystemAddress cfg a) &&
                 negb (String.eqb a (pumpFunProgramId cfg)))
       keys.

(** [o || []] *)
Definition listOf {A : Type} (o : option (list A)) : list A :=
  match o with Some l => l | None => [] end.

(** A record the Detector can read: absent, without [meta], with an
    execution error, or carrying its transaction message. *)
Definition carriesMessage (tx : option TxRecord) : Prop :=
  match tx with
  | None => True
  | Some t =>
      match meta t with
      | None => True
      | Some m =>
          truthyRef (err m) = true \/
          exists tr msg, transaction t = Some tr /\ message tr = Some msg
      end
  end.

(** The priority order as stated. *)
Definition extractByPriority (cfg : Config) (keys : list string)
           (ixs : list Instruction) : option string :=
  firstSome [tierA keys; tierB keys ixs; tierC ixs; tierD cfg keys].

(** The priority order with tier (c) amended. *)
Definition extractByPriorityAmended (cfg : Config) (keys : list string)
           (ixs : list Instruction) : option string :=
  firstSome [tierA keys; tierB keys ixs; tierCAmended ixs; tierD cfg keys].

(** The collaborators carry the transaction with signature [sig] all
    the way to a delivered alert: it is fetched, classified as a
    migration, parsed, its token data found and the alert sent. *)
Definition delivers (cfg : Config) (w : Orchestrator.World) (sig : string)
  : Prop :=
  exists tx r migration tokenData,
    Orchestrator.getParsedTransaction w sig = Normal (Some tx) /\
    detectMigrationFromTransaction cfg (Some tx) sig = Normal r /\
    isMigration r = true /\
    Orchestrator.instructionsLength tx <> None /\
    Orchestrator.parseMigrationTransactionFromParsed
      w tx (resultTokenMint r) sig = Normal (Some migration) /\
    truthyStr (Some (Orchestrator.mTokenMint migration)) = true /\
    Orchestrator.fetchTokenData w (Orchestrator.mTokenMint migration)
    = Normal (Some tokenData) /\
    Orchestrator.sendMigrationAlert
      w (Orchestrator.mkMigration
           (Orchestrator.mSignature migration)
           (Orchestrator.mTokenMint migration)
           (Some (Orchestrator.name tokenData))
           (Some (Orchestrator.symbol tokenData))
           (Orchestrator.mTimestamp migration)
           (Orchestrator.transactionUrl migration))
        tokenData
    = Normal tt.

(** The transactions with signatures [sigs] are processed one after the
    other. *)
Definition processAll (cfg : Config) (w : Orchestrator.World)
           (sigs : list string) (st : Orchestrator.State)
  : Orchestrator.State :=
  fold_left
    (fun s sig => fst (Orchestrator.fetchAndProcessTransaction cfg w sig s))
    sigs st.

(** No signature occurs twice. *)
Fixpoint distinct (sigs : list string) : bool :=
  match sigs with
  | [] => true
  | x :: rest => negb (Orchestrator.has x rest) && distinct rest
  end.

End Spec.

(* ================================================================== *)
(** ** The earlier detector ([src/detectors/migration.ts]) *)

Module OldDetector.
Import JsString Detector.

(** [hasMigrateInstruction(instructions, logMessages)]: the log test
    lower-cases each line and looks for two keywords; the instruction test
    is the one of [Detector.isMigrateIx]. *)
Definition hasMigrateInstruction (cfg : Config) (ixs : list Instruction)
           (logMessages : list string) : bool :=
  let migrationLogs :=
    filter (fun log => includes (toLowerCase log) "migrate" ||
                       includes (toLowerCase log) "migration")
           logMessages in
  if 0 <? List.length migrationLogs then true
  else existsb (isMigrateIx cfg) ixs.

Definition isAmmIx (cfg : Config) (ix : Instruction) : bool :=
  let pid := if truthyRef (programId ix) then programId ix else program ix in
  refEq pid (pumpFunAmmProgramId cfg).

(** [hasPoolCreation(instructions, logMessages)] *)
Definition hasPoolCreation (cfg : Config) (ixs : list Instruction)
           (logMessages : list string) : bool :=
  let poolCreationLogs :=
    filter (fun log => includes (toLowerCase log) "create pool" ||
                       includes (toLowerCase log) "createpool" ||
                       includes (toLowerCase log) "pump.fun amm" ||
                       includes (toLowerCase log) "pumpswap")
           logMessages in
  if 0 <? List.length poolCreationLogs then true
  else existsb (isAmmIx cfg) ixs.

(** [hasLpTokenBurn(logMessages)] *)
Definition hasLpTokenBurn (logMessages : list string) : bool :=
  existsb (fun log =>
             let lowerLog := toLowerCase log in
             (includes lowerLog "burn" && includes lowerLog "lp") ||
             (includes lowerLog "burn" && includes lowerLog "token"))
          logMessages.

(** [hasMigrationTransfer(logMessages)] *)
Definition hasMigrationTransfer (logMessages : list string) : bool :=
  existsb (fun log =>
             let lowerLog := toLowerCase log in
             includes lowerLog "pump.fun: migration" ||
             includes lowerLog "migration")
          logMessages.

(** [extractTokenMint(tx, instructions)]: the loop over the instructions
    makes the two payload tests of [Detector.payloadMint]; the loop over
    the account keys has an empty body. *)
Fixpoint extractTokenMint (ixs : list Instruction) : option string :=
  match ixs with
  | [] => None
  | ix :: rest =>
      match payloadMint ix with
      | Some m => Some m
      | None => extractTokenMint rest
      end
  end.

(** [detectMigrationFromTransaction(tx, signature)] *)
Definition detectMigrationFromTransaction (cfg : Config)
           (tx : option TxRecord) (signature : string)
  : completion MigrationDetectionResult :=
  match tx with
  | None => Normal notMigration
  | Some t =>
      match meta t with
      | None => Normal notMigration
      | Some m =>
          if truthyRef (err m) then Normal notMigration
          else
            match transaction t with
            | None => Throw typeError
            | Some tr =>
                match message tr with
                | None => Throw typeError
                | Some msg =>
                    let ixs := match instructions msg with
                               | Some l => l
                               | None => []
                               end in
                    let logs := match logMessages m with
                                | Some l => l
                                | None => []
                                end in
                    let isMig :=
                      hasMigrateInstruction cfg ixs logs ||
                      (hasPoolCreation cfg ixs logs &&
                       hasLpTokenBurn logs &&
                       hasMigrationTransfer logs) in
                    if negb isMig then Normal notMigration
                    else Normal (mkResult true (extractTokenMint ixs)
                                          (Some signature))
                end
            end
      end
  end.

End OldDetector.

(* ================================================================== *)
(** ** Counts over a run *)

Module Queue.
Import JsString Detector Orchestrator.
Local Open Scope list_scope.

Definition isAnyFetch (e : Effect) : bool :=
  match e with Fetched _ => true | _ => false end.

Definition isPositive (e : Effect) : bool :=
  match e with Classified _ true => true | _ => false end.

Definition isAlert (e : Effect) : bool :=
  match e with AlertSent _ _ => true | _ => false end.

(** How many transactions a run fetched, classified as migrations, and
    alerted on. *)
Definition fetches (effs : list Effect) : nat :=
  List.length (filter isAnyFetch effs).

Definition positives (effs : list Effect) : nat :=
  List.length (filter isPositive effs).

Definition alerts (effs : list Effect) : nat :=
  List.length (filter isAlert effs).

(** How the processing of [sig] can turn the ledger [before] into [after]
    and what it does meanwhile: nothing enters the ledger and no alert is
    sent, or the transaction is classified as a migration and [sig]
    enters the ledger (with or without maintenance and alert). *)
Definition outcome (sig : string) (before after : list string)
           (eff : list Effect) : Prop :=
  (after = before /\
   (eff = [] \/ eff = [Fetched sig] \/
    eff = [Fetched sig; Classified sig false])) \/
  (has sig before = false /\
   (after = before ++ [sig] \/ after = cleanupProcessed (before ++ [sig])) /\
   (eff = [Fetched sig; Classified sig true] \/
    exists m td, eff = [Fetched sig; Classified sig true; AlertSent m td])).

(** The collaborators take the transaction of [sig] to an alert with the
    placeholder token data: it is fetched, classified as a migration and
    parsed, and no token data is found for it. *)
Definition unknownTokenPath (cfg : Config) (w : World) (sig : string)
  : Prop :=
  exists tx r migration,
    getParsedTransaction w sig = Normal (Some tx) /\
    detectMigrationFromTransaction cfg (Some tx) sig = Normal r /\
    isMigration r = true /\
    instructionsLength tx <> None /\
    parseMigrationTransactionFromParsed w tx (resultTokenMint r) sig
    = Normal (Some migration) /\
    truthyStr (Some (mTokenMint migration)) = true /\
    fetchTokenData w (mTokenMint migration) = Normal None.

End Queue.

(* ================================================================== *)
(** ** The queue loop among the callbacks of the event loop *)

Module EventLoop.
Import JsString Detector Orchestrator.
Local Open Scope list_scope.

(** Where the running call of [processFetchQueue] is suspended: at the
    timer of the rate limit (line 124; [now] is the time read on line 120
    and [due] the time the timer is set to), or inside
    [fetchAndProcessTransaction] at one of its calls over the network:
    the fetch of the transaction (line 156), of the token data (line 204),
    the sending of the alert (lines 210 and 230; [cleanUp] tells whether
    the ledger maintenance follows).  [Idle]: no call is running.  An
    [await] of a call that returns without waiting for the network goes on
    before any other callback runs, so it is no suspension point. *)
Inductive Phase :=
| Idle
| Waiting (now due : Z)
| AwaitTransaction (sig : string)
| AwaitTokenData (sig : string) (migration : MigrationTransaction)
| AwaitAlert (sig : string) (migration : MigrationTransaction)
             (tokenData : TokenData) (cleanUp : bool).

(** The variables of [main] and the running call.  Between two callbacks
    [isProcessingQueue] is set exactly while a call is suspended. *)
Record Runtime := mkRuntime {
  vars : State;
  phase : Phase
}.

Definition isProcessingQueue (rt : Runtime) : bool :=
  match phase rt with
  | Idle => false
  | _ => true
  end.

Definition setQueue (queue : list QueuedFetch) (st : State) : State :=
  mkState (processedSignatures st) queue (retryTimers st)
          (lastFetchTime st) (clock st).

Definition setLastFetchTime (t : Z) (st : State) : State :=
  mkState (processedSignatures st) (pendingFetches st) (retryTimers st)
          t (clock st).

(** The loop body after the [shift] (lines 130-136) for the item taken
    off the queue; [continue] is the loop going on with its test.
    [fetchAndProcessTransaction] returns at once for a signature of the
    ledger, and sends the request for the transaction otherwise. *)
Definition loopBody (now : Z) (item : QueuedFetch)
           (continue : State -> Runtime * list Effect) (st : State)
  : Runtime * list Effect :=
  if (30000 <? now - timestamp item)%Z then continue st
  else
    let st1 := setLastFetchTime (clock st) st in
    if has (signature item) (processedSignatures st1) then continue st1
    else (mkRuntime st1 (AwaitTransaction (signature item)),
          [Fetched (signature item)]).

(** The [while] loop from its test on (line 119), until the call is
    suspended or the loop is left (line 139). *)
Fixpoint whileLoop (queue : list QueuedFetch) (st : State)
  : Runtime * list Effect :=
  match queue with
  | [] => (mkRuntime (setQueue [] st) Idle, [])
  | item :: rest =>
      let now := clock st in
      let timeSinceLastFetch := (now - lastFetchTime st)%Z in
      if (timeSinceLastFetch <? minFetchInterval)%Z then
        (mkRuntime (setQueue queue st)
                   (Waiting now
                            (now + (minFetchInterval - timeSinceLastFetch))),
         [])
      else loopBody now item (whileLoop rest) (setQueue rest st)
  end.

Definition continueLoop (st : State) : Runtime * list Effect :=
  whileLoop (pendingFetches st) st.

(** [processFetchQueue()], up to its first suspension. *)
Definition processFetchQueue (rt : Runtime) : Runtime * list Effect :=
  if isProcessingQueue rt ||
     (List.length (pendingFetches (vars rt)) =? 0)
  then (rt, [])
  else continueLoop (vars rt).

(** The timer of the rate limit fires: the loop goes on with the
    [shift] of line 127. *)
Definition waitOver (rt : Runtime) : Runtime * list Effect :=
  match phase rt with
  | Waiting now due =>
      if (due <=? clock (vars rt))%Z then
        match pendingFetches (vars rt) with
        | [] => (mkRuntime (vars rt) Idle, [])
        | item :: rest =>
            loopBody now item continueLoop (setQueue rest (vars rt))
        end
      else (rt, [])
  | _ => (rt, [])
  end.

(** [fetchAndProcessTransaction] has returned: the loop goes on. *)
Definition finish (st : State) (eff : list Effect)
  : Runtime * list Effect :=
  let '(rt, eff') := continueLoop st in (rt, eff ++ eff').

(** The collaborator call the running [fetchAndProcessTransaction]
    awaits returns with the answer [w] gives: the function goes on to its
    next call over the network, or returns (through its [catch] block
    after a throw). *)
Definition answer (cfg : Config) (w : World) (rt : Runtime)
  : Runtime * list Effect :=
  let st := vars rt in
  match phase rt with
  | AwaitTransaction sig =>
      match getParsedTransaction w sig with
      | Throw e => finish (catchHandler e sig st) []
      | Normal None => finish st []
      | Normal (Some tx) =>
          match detectMigrationFromTransaction cfg (Some tx) sig with
          | Throw e => finish (catchHandler e sig st) []
          | Normal detection =>
              if negb (isMigration detection)
              then finish st [Classified sig false]
              else
                let st1 := setProcessed st (add sig (processedSignatures st)) in
                let eff1 := [Classified sig true] in
                match instructionsLength tx with
                | None => finish (catchHandler typeError sig st1) eff1
                | Some _ =>
                    match parseMigrationTransactionFromParsed
                            w tx (resultTokenMint detection) sig with
                    | Throw e => finish (catchHandler e sig st1) eff1
                    | Normal None => finish st1 eff1
                    | Normal (Some migration) =>
                        if negb (truthyStr (Some (mTokenMint migration)))
                        then finish st1 eff1
                        else (mkRuntime st1 (AwaitTokenData sig migration),
                              eff1)
                    end
                end
          end
      end
  | AwaitTokenData sig migration =>
      match fetchTokenData w (mTokenMint migration) with
      | Throw e => finish (catchHandler e sig st) []
      | Normal None =>
          (mkRuntime st (AwaitAlert sig migration
                                    (unknownToken (mTokenMint migration))
                                    false),
           [])
      | Normal (Some tokenData) =>
          let migration' :=
            mkMigration (mSignature migration) (mTokenMint migration)
                        (Some (name tokenData)) (Some (symbol tokenData))
                        (mTimestamp migration) (transactionUrl migration) in
          (mkRuntime st (AwaitAlert sig migration' tokenData true), [])
      end
  | AwaitAlert sig migration tokenData cleanUp =>
      match sendMigrationAlert w migration tokenData with
      | Throw e => finish (catchHandler e sig st) []
      | Normal _ =>
          finish (if cleanUp
                  then setProcessed st
                         (cleanupProcessed (processedSignatures st))
                  else st)
                 [AlertSent migration tokenData]
      end
  | _ => (rt, [])
  end.

(** The signature the stream callback goes on to enqueue, if it does not
    return before (lines 259-296). *)
Definition accepted (msg : WsMessage) : option string :=
  let '(sig, logs) := readMessage msg in
  if negb (truthyStr sig) then None
  else
    match sig with
    | None => None
    | Some s =>
        if (0 <? List.length logs) &&
           negb (hasMigrationIndicators (Some logs))
        then None
        else Some s
    end.

Definition enqueue (sig : string) (rt : Runtime) : Runtime :=
  mkRuntime (push (mkFetch sig (clock (vars rt))) (vars rt)) (phase rt).

(** The callback given to [HeliusWebSocketClient], with its call of
    [processFetchQueue] (lines 299-302). *)
Definition streamCallback (msg : WsMessage) (rt : Runtime)
  : Runtime * list Effect :=
  match accepted msg with
  | None => (rt, [])
  | Some s => processFetchQueue (enqueue s rt)
  end.

(** The callback of the retry timer (lines 242-247). *)
Definition retryTimerCallback (sig : string) (rt : Runtime)
  : Runtime * list Effect :=
  if negb (has sig (processedSignatures (vars rt)))
  then processFetchQueue (enqueue sig rt)
  else (rt, []).

Fixpoint runDueTimers (timers : list (Z * string)) (rt : Runtime)
  : Runtime * list Effect :=
  match timers with
  | [] => (rt, [])
  | (due, sig) :: rest =>
      if (due <=? clock (vars rt))%Z then
        let '(rt1, eff1) := retryTimerCallback sig rt in
        let '(rt2, eff2) := runDueTimers rest rt1 in
        (rt2, eff1 ++ eff2)
      else runDueTimers rest rt
  end.

(** Time passes: the clock moves and the retry timers that are due run
    their callbacks, in the order they were set. *)
Definition passTime (dt : Z) (rt : Runtime) : Runtime * list Effect :=
  let st := vars rt in
  let st' := mkState (processedSignatures st) (pendingFetches st)
                     (filter (fun t => (clock st + dt <? fst t)%Z)
                             (retryTimers st))
                     (lastFetchTime st) (clock st + dt)%Z in
  runDueTimers (retryTimers st) (mkRuntime st' (phase rt)).

(** What the event loop runs next. *)
Inductive Task :=
| StreamMessage (msg : WsMessage)
| CollaboratorAnswer (w : World)
| RateTimerFires
| TimePasses (dt : Z).

Definition runTask (cfg : Config) (task : Task) (rt : Runtime)
  : Runtime * list Effect :=
  match task with
  | StreamMessage msg => streamCallback msg rt
  | CollaboratorAnswer w => answer cfg w rt
  | RateTimerFires => waitOver rt
  | TimePasses dt => passTime dt rt
  end.

Fixpoint runTasks (cfg : Config) (tasks : list Task) (rt : Runtime)
  : Runtime * list Effect :=
  match tasks with
  | [] => (rt, [])
  | task :: rest =>
      let '(rt1, eff1) := runTask cfg task rt in
      let '(rt2, eff2) := runTasks cfg rest rt1 in
      (rt2, eff1 ++ eff2)
  end.

(** No queue entry is left without a running call to take it. *)
Definition settled (rt : Runtime) : Prop :=
  isProcessingQueue rt = false -> pendingFetches (vars rt) = [].

Definition start (now : Z) : Runtime := mkRuntime (initialState now) Idle.

(** What the loop does not touch, and what it leaves behind. *)
Definition loopResult (st : State) (res : Runtime * list Effect) : Prop :=
  processedSignatures (vars (fst res)) = processedSignatures st /\
  retryTimers (vars (fst res)) = retryTimers st /\
  clock (vars (fst res)) = clock st /\
  settled (fst res) /\
  (snd res = [] \/
   exists s, snd res = [Fetched s] /\ phase (fst res) = AwaitTransaction s /\
             has s (processedSignatures st) = false).

End EventLoop.

(* ================================================================== *)
(** ** Message dispatch of the stream client *)

Module Dispatch.
Import JsString.

(** [message.params.result]: a number or an object. *)
Inductive ParamsResult :=
| NumberResult (n : Z)
| ObjectResult (r : Orchestrator.NotificationResult).

(** A parsed stream message: whether it has a truthy [error] member, its
    [id], its [method] and [params.result]. *)
Record Envelope := mkEnvelope {
  hasError : bool;
  id : option Z;
  method : option string;
  result : option ParamsResult
}.

(** The message as the callback of the entry point reads it: a number has
    none of the members the callback looks for. *)
Definition forwarded (env : Envelope) : Orchestrator.WsMessage :=
  Orchestrator.mkMsg
    (method env)
    (match result env with
     | Some (ObjectResult r) => Some r
     | Some (NumberResult _) =>
         Some (Orchestrator.mkNotification None None None None)
     | None => None
     end).

(** The test for a subscription confirmation: a truthy [id] and a truthy
    number as [params.result]. *)
Definition confirmation (env : Envelope) : option Z :=
  match id env, result env with
  | Some i, Some (NumberResult n) =>
      if negb (i =? 0)%Z && negb (n =? 0)%Z then Some n else None
  | _, _ => None
  end.

Definition hasTransaction (env : Envelope) : bool :=
  match result env with
  | Some (ObjectResult r) =>
      match Orchestrator.rTransaction r with
      | Some _ => true
      | None => false
      end
  | _ => false
  end.

Definition setSubscriptionId (n : Z) (st : Client.State) : Client.State :=
  Client.mkState (Client.reconnectInterval st) (Client.pingInterval st)
                 (Some n) (Client.reconnectAttempts st)
                 (Client.maxReconnectAttempts st) (Client.isReconnecting st)
                 (Client.connectCalls st).

(** [handleMessage(message)]: the new state of the client and the message
    handed to [onTransactionCallback], if any. *)
Definition handleMessage (env : Envelope) (st : Client.State)
  : Client.State * option Orchestrator.WsMessage :=
  if hasError env then (st, None)
  else
    match confirmation env with
    | Some n => (setSubscriptionId n st, None)
    | None =>
        if strictEq (method env) "logsNotification"
        then (st, Some (forwarded env))
        else if hasTransaction env then (st, Some (forwarded env))
        else (st, None)
    end.

(** A stream message goes through the client and then through the callback
    of the entry point. *)
Definition deliver (env : Envelope)
           (st : Client.State * Orchestrator.State)
  : Client.State * Orchestrator.State :=
  match handleMessage env (fst st) with
  | (cst, Some msg) => (cst, Orchestrator.onMessage msg (snd st))
  | (cst, None) => (cst, snd st)
  end.

(** The connection opens, closes with each of [codes] in turn, and is
    re-opened by the reconnect timer each time. *)
Fixpoint flaps (codes : list Z) : list Client.Event :=
  match codes with
  | [] => []
  | c :: rest =>
      Client.Open :: Client.Close c :: Client.TimerExpired :: flaps rest
  end.

End Dispatch.

(* ================================================================== *)
(** ** TransactionParser *)

Module Parser.
Import JsString Detector.
Local Open Scope list_scope.

(** An instruction as the parser reads it: the members the Detector reads,
    and the [account] member of the payload's [info]. *)
Record PayloadInstruction := mkPayloadIx {
  instruction : Instruction;
  infoAccount : option string
}.

Record ParserMessage := mkParserMessage {
  pInstructions : option (list PayloadInstruction);
  pAccountKeys : option (list AccountKey)
}.

Record ParserTransaction := mkParserTransaction {
  pMessage : option ParserMessage
}.

Record ParserTx := mkParserTx {
  pTransaction : option ParserTransaction;
  pMeta : option Meta
}.

(** The same record as the Detector reads it. *)
Definition forget (tx : ParserTx) : TxRecord :=
  mkTx (match pTransaction tx with
        | Some tr =>
            Some (mkTransaction
                    (match pMessage tr with
                     | Some msg =>
                         Some (mkMessage
                                 (match pInstructions msg with
                                  | Some l => Some (map instruction l)
                                  | None => None
                                  end)
                                 (pAccountKeys msg))
                     | None => None
                     end))
        | None => None
        end)
       (pMeta tx).

(** The character class [[1-9A-HJ-NP-Za-km-z]]. *)
Definition isBase58 (c : ascii) : bool :=
  let n := nat_of_ascii c in
  ((49 <=? n) && (n <=? 57)) || ((65 <=? n) && (n <=? 72)) ||
  ((74 <=? n) && (n <=? 78)) || ((80 <=? n) && (n <=? 90)) ||
  ((97 <=? n) && (n <=? 107)) || ((109 <=? n) && (n <=? 122)).

(** The longest run of at most [n] characters of the class at the start
    of [s]. *)
Fixpoint base58Run (n : nat) (s : string) : string :=
  match n, s with
  | S k, String c s' =>
      if isBase58 c then String c (base58Run k s') else EmptyString
  | _, _ => EmptyString
  end.

(** The quantifier [{32,44}] at the start of [s]. *)
Definition matchHere (s : string) : option string :=
  let run := base58Run 44 s in
  if 32 <=? String.length run then Some run else None.

(** [log.match(/[1-9A-HJ-NP-Za-km-z]{32,44}/)]: the leftmost match. *)
Fixpoint firstMatch (log : string) : option string :=
  match matchHere log with
  | Some m => Some m
  | None =>
      match log with
      | EmptyString => None
      | String _ rest => firstMatch rest
      end
  end.

(** Every character of [s] is of the class. *)
Fixpoint allBase58 (s : string) : bool :=
  match s with
  | EmptyString => true
  | String c s' => isBase58 c && allBase58 s'
  end.

(** [typeof key === 'string' ? key : key.pubkey.toString()] *)
Definition keyString (key : AccountKey) : completion string :=
  match key with
  | KeyStr s => Normal s
  | KeyObj (Some s) _ => Normal s
  | KeyObj None _ => Throw typeError
  end.

Fixpoint mapKeys (keys : list AccountKey) : completion (list string) :=
  match keys with
  | [] => Normal []
  | key :: rest =>
      match keyString key with
      | Throw e => Throw e
      | Normal s =>
          match mapKeys rest with
          | Throw e => Throw e
          | Normal l => Normal (s :: l)
          end
      end
  end.

(** [tx.transaction.message.accountKeys.map(...)] *)
Definition accountKeyStrings (tx : ParserTx) : completion (list string) :=
  match pTransaction tx with
  | Some tr =>
      match pMessage tr with
      | Some msg =>
          match pAccountKeys msg with
          | Some keys => mapKeys keys
          | None => Throw typeError
          end
      | None => Throw typeError
      end
  | None => Throw typeError
  end.

(** [tx.transaction.message.instructions || []] *)
Definition instructionList (tx : ParserTx)
  : completion (list PayloadInstruction) :=
  match pTransaction tx with
  | Some tr =>
      match pMessage tr with
      | Some msg =>
          Normal (match pInstructions msg with
                  | Some l => l
                  | None => []
                  end)
      | None => Throw typeError
      end
  | None => Throw typeError
  end.

Record ParsedMigration (SolAmount : Type) := mkParsedMigration {
  signature : string;
  tokenMint : string;
  timestamp : Z;
  liquidityPool : option string;
  solAmount : option SolAmount;
  transactionUrl : string
}.
Arguments mkParsedMigration {SolAmount}.
Arguments signature {SolAmount}.
Arguments tokenMint {SolAmount}.
Arguments timestamp {SolAmount}.
Arguments liquidityPool {SolAmount}.
Arguments solAmount {SolAmount}.
Arguments transactionUrl {SolAmount}.

Section WithCollaborators.

(** Whether [new PublicKey(s)] returns. *)
Variable isPublicKey : string -> bool.

(** [extractSolAmount(meta)], a floating-point sum over the balances. *)
Variable SolAmount : Type.
Variable extractSolAmount : Meta -> option SolAmount.

(** The test of the first loop and of the loop over the account indices. *)
Definition isValidMint (account : string) : bool :=
  looksLikeMintAddress account && isPublicKey account.

(** [info?.mint || info?.tokenMint || info?.account] of a parsed
    instruction. *)
Definition payloadField (ix : PayloadInstruction) : option string :=
  match parsed (instruction ix) with
  | Some _ =>
      let mint := orStr (orStr (infoMint (instruction ix))
                               (infoTokenMint (instruction ix)))
                        (infoAccount ix) in
      if truthyStr mint then mint else None
  | None => None
  end.

Fixpoint scanIndices (keys : list string) (idxs : list (option Z))
  : option string :=
  match idxs with
  | [] => None
  | None :: rest => scanIndices keys rest
  | Some index :: rest =>
      if (0 <=? index)%Z && (index <? Z.of_nat (List.length keys))%Z then
        match nth_error keys (Z.to_nat index) with
        | Some account =>
            if negb (String.eqb account "") && isValidMint account
            then Some account
            else scanIndices keys rest
        | None => scanIndices keys rest
        end
      else scanIndices keys rest
  end.

Fixpoint scanPayloads (keys : list string) (ixs : list PayloadInstruction)
  : option string :=
  match ixs with
  | [] => None
  | ix :: rest =>
      match payloadField ix with
      | Some m => Some m
      | None =>
          match match accounts (instruction ix) with
                | Some idxs => scanIndices keys idxs
                | None => None
                end with
          | Some a => Some a
          | None => scanPayloads keys rest
          end
      end
  end.

Definition isParserFallback (account : string) : bool :=
  (String.length account =? 44) &&
  negb (existsb (String.eqb account) knownPrograms) &&
  isPublicKey account.

(** [extractTokenMintFromTransaction(tx)] *)
Definition extractTokenMintFromTransaction (tx : ParserTx)
  : completion (option string) :=
  match instructionList tx with
  | Throw e => Throw e
  | Normal ixs =>
      match accountKeyStrings tx with
      | Throw e => Throw e
      | Normal keys =>
          match find isValidMint keys with
          | Some account => Normal (Some account)
          | None =>
              match scanPayloads keys ixs with
              | Some m => Normal (Some m)
              | None => Normal (find isParserFallback keys)
              end
          end
      end
  end.

(** The loop of [extractLiquidityPool] over the log lines. *)
Fixpoint poolInLogs (logs : list string) : option string :=
  match logs with
  | [] => None
  | log :: rest =>
      match firstMatch log with
      | Some address =>
          if isPublicKey address then Some address else poolInLogs rest
      | None => poolInLogs rest
      end
  end.

(** [extractLiquidityPool(tx)]: without a match in the logs the account
    keys are mapped, which can throw, and nothing is returned. *)
Definition extractLiquidityPool (tx : ParserTx)
  : completion (option string) :=
  let logMessages :=
    match pMeta tx with
    | Some m => match logMessages m with Some l => l | None => [] end
    | None => []
    end in
  match poolInLogs logMessages with
  | Some address => Normal (Some address)
  | None =>
      match accountKeyStrings tx with
      | Throw e => Throw e
      | Normal _ => Normal None
      end
  end.

(** [parseMigrationTransactionFromParsed(tx, tokenMint, signature)];
    [now] is [Date.now()]. *)
Definition parseMigrationTransactionFromParsed
           (tx : option ParserTx) (mintFound : option string)
           (sig : string) (now : Z)
  : completion (option (ParsedMigration SolAmount)) :=
  match tx with
  | None => Normal None
  | Some t =>
      match pMeta t with
      | None => Normal None
      | Some m =>
          match (if truthyStr mintFound then Normal mintFound
                 else extractTokenMintFromTransaction t) with
          | Throw e => Throw e
          | Normal mint =>
              if negb (truthyStr mint) then Normal None
              else
                match mint with
                | None => Normal None
                | Some mintAddress =>
                    match extractLiquidityPool t with
                    | Throw e => Throw e
                    | Normal pool =>
                        Normal (Some (mkParsedMigration
                                        sig mintAddress now pool
                                        (extractSolAmount m)
                                        ("https://solscan.io/tx/" ++ sig)))
                    end
                end
          end
      end
  end.

End WithCollaborators.

End Parser.

(* ================================================================== *)
(** ** Configuration loader ([utils/config.ts]) *)

Module ConfigLoader.
Import JsString.
Local Open Scope list_scope.

(** The variables of [process.env] the loader reads. *)
Record Env := mkEnv {
  HELIUS_API_KEY : option string;
  TELEGRAM_BOT_TOKEN : option string;
  PUMP_FUN_PROGRAM_ID : option string;
  PUMP_FUN_AMM_PROGRAM_ID : option string;
  USER_CHAT_IDS : option string;
  JUPITER_API_KEY : option string
}.

Record Config := mkConfig {
  heliusApiKey : string;
  telegramBotToken : string;
  pumpFunProgramId : string;
  pumpFunAmmProgramId : string;
  userChatIds : list string;
  jupiterApiKey : string
}.

(** The part of the configuration the Detector reads. *)
Definition detectorConfig (c : Config) : Detector.Config :=
  Detector.mkConfig (pumpFunProgramId c) (pumpFunAmmProgramId c).

Definition comma : ascii := ascii_of_nat 44.

(** [s.split(',')] *)
Fixpoint split (s : string) : list string :=
  match s with
  | EmptyString => [EmptyString]
  | String c rest =>
      if Ascii.eqb c comma then EmptyString :: split rest
      else match split rest with
           | first :: others => String c first :: others
           | [] => [String c EmptyString]
           end
  end.

(** White space and line terminators among the code units 0..255. *)
Definition isSpace (c : ascii) : bool :=
  let n := nat_of_ascii c in
  ((9 <=? n) && (n <=? 13)) || (n =? 32) || (n =? 160).

Fixpoint trimStart (s : string) : string :=
  match s with
  | EmptyString => EmptyString
  | String c rest => if isSpace c then trimStart rest else s
  end.

Fixpoint trimEnd (s : string) : string :=
  match s with
  | EmptyString => EmptyString
  | String c rest =>
      match trimEnd rest with
      | EmptyString => if isSpace c then EmptyString
                       else String c EmptyString
      | kept => String c kept
      end
  end.

(** [s.trim()] *)
Definition trim (s : string) : string := trimEnd (trimStart s).

(** [!key || key.includes('your_') || key.includes('here')] *)
Definition isPlaceholder (key : option string) : bool :=
  negb (truthyStr key) ||
  match key with
  | Some k => includes k "your_" || includes k "here"
  | None => false
  end.

Definition newline : string := String (ascii_of_nat 10) EmptyString.

Definition heliusError : JsError :=
  mkError (Some ("HELIUS_API_KEY is required. Please set it in your .env file."
                   ++ newline ++
                 "Get your API key from: https://www.helius.dev/")%string).

Definition telegramError : JsError :=
  mkError (Some ("TELEGRAM_BOT_TOKEN is required. Please set it in your .env file."
                   ++ newline ++
                 "Create a bot at: https://t.me/botfather")%string).

Definition jupiterError : JsError :=
  mkError (Some ("JUPITER_API_KEY is required. Please set it in your .env file."
                   ++ newline ++
                 "Get your API key from: https://station.jup.ag/")%string).

(** [value || fallback] *)
Definition orDefault (value : option string) (fallback : string) : string :=
  match value with
  | Some v => if String.eqb v "" then fallback else v
  | None => fallback
  end.

(** The chat ids read off [USER_CHAT_IDS]. *)
Definition parseChatIds (userChatIdsEnv : string) : list string :=
  filter (fun id => 0 <? String.length id)
         (map trim (split userChatIdsEnv)).

(** [loadConfig()] *)
Definition loadConfig (env : Env) : completion Config :=
  let pumpFun :=
    orDefault (PUMP_FUN_PROGRAM_ID env)
              "6EF8rrecthR5Dkzon8Nwu78hRvfCKubJ14M5uBEwF6P" in
  let pumpFunAmm :=
    orDefault (PUMP_FUN_AMM_PROGRAM_ID env)
              "675kPX9MHTjS2zt1qfr1NYHuzeLXfQM9H24wFSUt1Mp8" in
  let userChatIdsEnv := orDefault (USER_CHAT_IDS env) "" in
  if isPlaceholder (HELIUS_API_KEY env) then Throw heliusError
  else if isPlaceholder (TELEGRAM_BOT_TOKEN env) then Throw telegramError
  else if isPlaceholder (JUPITER_API_KEY env) then Throw jupiterError
  else
    match HELIUS_API_KEY env, TELEGRAM_BOT_TOKEN env, JUPITER_API_KEY env with
    | Some helius, Some telegram, Some jupiter =>
        Normal (mkConfig helius telegram pumpFun pumpFunAmm
                         (parseChatIds userChatIdsEnv) jupiter)
    | _, _, _ => Throw heliusError
    end.

(** A usable key: set, not empty, and without the two placeholder
    words. *)
Definition usable (key : option string) : Prop :=
  exists k, key = Some k /\ k <> "" /\
            includes k "your_" = false /\ includes k "here" = false.

(** No comma in [s]. *)
Fixpoint commaFree (s : string) : bool :=
  match s with
  | EmptyString => true
  | String c rest => negb (Ascii.eqb c comma) && commaFree rest
  end.

(** A chat id as the loader leaves it: not empty, without a comma and
    without white space around it. *)
Definition clean (id : string) : Prop :=
  id <> "" /\ commaFree id = true /\ trim id = id.

End ConfigLoader.

(* ================================================================== *)
(** ** Subscriptions of the Telegram bot ([telegram/bot.ts]) *)

Module Telegram.
Local Open Scope list_scope.

(** [subscribedUsers], the [Set] of chat ids in insertion order. *)
Definition Subscribers := list Z.

Definition has (chatId : Z) (set : Subscribers) : bool :=
  existsb (Z.eqb chatId) set.

Definition add (chatId : Z) (set : Subscribers) : Subscribers :=
  if has chatId set then set else set ++ [chatId].

Definition delete (chatId : Z) (set : Subscribers) : Subscribers :=
  filter (fun c => negb (Z.eqb chatId c)) set.

(** The loop of the constructor over [config.userChatIds]; [parseInt]
    gives [None] for [NaN]. *)
Definition initialSubscribers (parseInt : string -> option Z)
           (userChatIds : list string) : Subscribers :=
  fold_left (fun set id =>
               match parseInt id with
               | Some chatId => add chatId set
               | None => set
               end)
            userChatIds [].

(** The commands the bot handles, with the chat they come from. *)
Inductive Command :=
| Start (chatId : Z)
| Stop (chatId : Z)
| Status (chatId : Z).

Definition chatOf (cmd : Command) : Z :=
  match cmd with
  | Start c | Stop c | Status c => c
  end.

(** The handlers registered by [setupCommands], as far as they change the
    subscribers; each of them also answers the chat. *)
Definition handle (cmd : Command) (set : Subscribers) : Subscribers :=
  match cmd with
  | Start c => add c set
  | Stop c => delete c set
  | Status _ => set
  end.

Definition handleAll (cmds : list Command) (set : Subscribers)
  : Subscribers :=
  fold_left (fun s cmd => handle cmd s) cmds set.

(** The chats [sendMigrationAlert] sends the formatted text to, in this
    order: a failed send is caught for its chat and the others go on.
    The result tells which sends succeeded. *)
Definition sendMigrationAlert (sendMessage : Z -> completion unit)
           (set : Subscribers) : list (Z * bool) :=
  map (fun chatId =>
         (chatId, match sendMessage chatId with
                  | Normal _ => true
                  | Throw _ => false
                  end))
      set.

(** What the last [/start] or [/stop] of chat [c] in [cmds] says, if there
    is one. *)
Fixpoint lastWord (c : Z) (cmds : list Command) : option bool :=
  match cmds with
  | [] => None
  | cmd :: rest =>
      match lastWord c rest with
      | Some b => Some b
      | None =>
          match cmd with
          | Start c' => if Z.eqb c c' then Some true else None
          | Stop c' => if Z.eqb c c' then Some false else None
          | Status _ => None
          end
      end
  end.

End Telegram.

(* ================================================================== *)
(** ** Further sample inputs *)

Module MoreExamples.
Import Detector.

(** Collaborators that answer every fetch with [tx] and find no token
    data. *)
Definition worldWithoutTokenData (tx : TxRecord) : Orchestrator.World :=
  Orchestrator.mkWorld
    (fun _ => Normal (Some tx))
    (fun _ mint sig =>
       Normal (match mint with
               | Some m => Some (Orchestrator.mkMigration
                                   sig m None None 0 "https://solscan.io/tx/")
               | None => None
               end))
    (fun _ => Normal None)
    (fun _ _ => Normal tt).


(** A record whose only account key is the AMM program of [Examples.cfg]:
    no instruction, no log line. *)
Definition ammOnlyTx : Parser.ParserTx :=
  Parser.mkParserTx
    (Some (Parser.mkParserTransaction
             (Some (Parser.mkParserMessage
                      (Some [])
                      (Some [KeyStr
                               "675kPX9MHTjS2zt1qfr1NYHuzeLXfQM9H24wFSUt1Mp8"])))))
    (Some (mkMeta None (Some []))).

(** A record without account keys. *)
Definition keylessTx : Parser.ParserTx :=
  Parser.mkParserTx
    (Some (Parser.mkParserTransaction
             (Some (Parser.mkParserMessage (Some []) None))))
    (Some (mkMeta None (Some Examples.migrateLogs))).

(** A record whose first log line names a program. *)
Definition invokeTx : Parser.ParserTx :=
  Parser.mkParserTx
    (Some (Parser.mkParserTransaction
             (Some (Parser.mkParserMessage
                      (Some [])
                      (Some [KeyStr Examples.mintA])))))
    (Some (mkMeta None
                  (Some ["Program 6EF8rrecthR5Dkzon8Nwu78hRvfCKubJ14M5uBEwF6P invoke [1]";
                         "Program log: Instruction: Migrate"]))).


(** An environment with the three keys and two chat ids. *)
Definition env : ConfigLoader.Env :=
  ConfigLoader.mkEnv (Some "11111111-2222-3333-4444-555555555555")
                     (Some "123456:ABC-DEF")
                     None None
                     (Some "123456789,-1001234567890")
                     (Some "jup-key-1").

Definition loaded : ConfigLoader.Config :=
  ConfigLoader.mkConfig "11111111-2222-3333-4444-555555555555"
                        "123456:ABC-DEF"
                        "6EF8rrecthR5Dkzon8Nwu78hRvfCKubJ14M5uBEwF6P"
                        "675kPX9MHTjS2zt1qfr1NYHuzeLXfQM9H24wFSUt1Mp8"
                        ["123456789"; "-1001234567890"]
                        "jup-key-1".

(** Two stream messages, the second while the first transaction is
    processed; the rate-limit timer; the answers of the collaborators. *)
Definition twoArrivals : list EventLoop.Task :=
  [EventLoop.StreamMessage
     (Examples.logsNotification "SIG1" Examples.migrateLogs);
   EventLoop.CollaboratorAnswer (Examples.worldOf Examples.migrationTx);
   EventLoop.StreamMessage
     (Examples.logsNotification "SIG2" Examples.migrateLogs);
   EventLoop.CollaboratorAnswer (Examples.worldOf Examples.migrationTx);
   EventLoop.CollaboratorAnswer (Examples.worldOf Examples.migrationTx);
   EventLoop.TimePasses 100;
   EventLoop.RateTimerFires;
   EventLoop.CollaboratorAnswer (Examples.worldOf Examples.migrationTx);
   EventLoop.CollaboratorAnswer (Examples.worldOf Examples.migrationTx);
   EventLoop.CollaboratorAnswer (Examples.worldOf Examples.migrationTx)].

End MoreExamples.

(* ================================================================== *)
(** * Properties *)

(** ** Substring search *)

Section StringFacts.
Import JsString.

Lemma prefix_split (p s : string) :
  prefix p s = true <-> exists b, s = p ++ b.
Proof.
  revert s; induction p as [|c p IH]; intros s; simpl.
  - split; [intros _; now exists s | intros _; now destruct s].
  - destruct s as [|d s].
    + split; [discriminate | intros [b Hb]; discriminate].
    + cbn [prefix]. destruct (ascii_dec c d) as [->|Hne].
      * rewrite IH. split; intros [b Hb]; exists b.
        -- now rewrite Hb.
        -- now inversion Hb.
      * split; [discriminate | intros [b Hb]; congruence].
Qed.

Lemma append_assoc (a b c : string) : (a ++ b) ++ c = a ++ (b ++ c).
Proof. induction a as [|x a IH]; simpl; [reflexivity | now rewrite IH]. Qed.

Lemma includes_split (s needle : string) :
  includes s needle = true <-> exists a b, s = a ++ needle ++ b.
Proof.
  induction s as [|c s IH].
  - cbn [includes]. rewrite orb_false_r, prefix_split. split.
    + intros [b Hb]. now exists "", b.
    + intros [[|x a] [b Hb]]; [now exists b | discriminate].
  - cbn [includes]. rewrite orb_true_iff, prefix_split, IH. split.
    + intros [[b Hb] | (a & b & Hab)].
      * now exists "", b.
      * exists (String c a), b. simpl. now rewrite Hab.
    + intros ([|x a] & b & Hab).
      * left. now exists b.
      * right. exists a, b. now inversion Hab.
Qed.

Lemma includes_trans (s m n : string) :
  includes s m = true -> includes m n = true -> includes s n = true.
Proof.
  rewrite !includes_split. intros (a & b & ->) (a' & b' & ->).
  exists (a ++ a'), (b' ++ b). now rewrite !append_assoc.
Qed.

Lemma toLowerCase_app (a b : string) :
  toLowerCase (a ++ b) = toLowerCase a ++ toLowerCase b.
Proof. induction a as [|c a IH]; simpl; [reflexivity | now rewrite IH]. Qed.

Lemma includes_toLowerCase (s needle : string) :
  includes s needle = true ->
  includes (toLowerCase s) (toLowerCase needle) = true.
Proof.
  rewrite !includes_split. intros (a & b & ->).
  exists (toLowerCase a), (toLowerCase b). now rewrite !toLowerCase_app.
Qed.

Lemma includes_join (parts : list string) (sep x needle : string) :
  In x parts -> includes x needle = true ->
  includes (join parts sep) needle = true.
Proof.
  intros Hin Hx. apply includes_trans with (m := x); [|exact Hx].
  clear Hx. apply includes_split.
  induction parts as [|y rest IH]; [contradiction|].
  destruct Hin as [->|Hin].
  - destruct rest as [|z rest'].
    + exists "", "". simpl. clear IH. induction x; simpl; congruence.
    + exists "", (sep ++ join (z :: rest') sep). reflexivity.
  - destruct rest as [|z rest']; [contradiction|].
    destruct (IH Hin) as (a & b & Hab).
    exists (y ++ sep ++ a), b.
    change (join (y :: z :: rest') sep)
      with (y ++ sep ++ join (z :: rest') sep).
    rewrite Hab, !append_assoc. reflexivity.
Qed.

End StringFacts.

(** ** Pattern checks on log lines *)

Section LogChecks.
Import JsString Detector Orchestrator.

Lemma hasMigrateLog_iff (logs : list string) :
  hasMigrateLog logs = true <->
  exists log, In log logs /\ includes log migrateMarker = true.
Proof. unfold hasMigrateLog. now rewrite existsb_exists. Qed.

(** C10: whenever some log line contains the migration instruction
    marker (the Detector's log check holds), the pre-filter
    [hasMigrationIndicators] holds too, and the stream callback queues
    the signature of such an event. *)
Theorem prefilter_covers_migrate_log (logs : list string) :
  hasMigrateLog logs = true ->
  hasMigrationIndicators (Some logs) = true /\
  forall (msg : WsMessage) (s : string) (st : Orchestrator.State),
    readMessage msg = (Some s, logs) -> truthyStr (Some s) = true ->
    onMessage msg st = push (mkFetch s (clock st)) st.
Proof.
  intros H. apply hasMigrateLog_iff in H. destruct H as (log & Hin & Hlog).
  assert (Hpre : hasMigrationIndicators (Some logs) = true).
  { unfold hasMigrationIndicators.
    assert (Hm : includes (toLowerCase (join logs " ")) "migrate" = true).
    { apply includes_trans with (m := toLowerCase migrateMarker).
      - apply includes_toLowerCase. now apply includes_join with (x := log).
      - reflexivity. }
    now rewrite Hm. }
  split; [exact Hpre|].
  intros msg s st Hread Hs. unfold onMessage. rewrite Hread, Hs, Hpre.
  cbn [negb]. now rewrite andb_false_r.
Qed.

Lemma prefilter_covers_migrate_log_witness :
  hasMigrationIndicators (Some Examples.migrateLogs) = true /\
  forall (msg : WsMessage) (s : string) (st : Orchestrator.State),
    readMessage msg = (Some s, Examples.migrateLogs) ->
    truthyStr (Some s) = true ->
    onMessage msg st = push (mkFetch s (clock st)) st.
Proof.
  apply (prefilter_covers_migrate_log Examples.migrateLogs). reflexivity.
Defined.

(** C7, as stated, fails: a log line that carries the marker in lower
    case satisfies the case-insensitive test, and
    [hasMigrateInstruction] is false on it. *)
Lemma marker_case_counterexample :
  (exists log, In log Examples.lowerCaseLogs /\
               includes (toLowerCase log) (toLowerCase migrateMarker) = true)
  /\ hasMigrateInstruction Examples.cfg [] Examples.lowerCaseLogs = false.
Proof.
  split; [|reflexivity].
  exists "Program log: instruction: migrate". split; [now left | reflexivity].
Qed.

(** C7, amended: [hasMigrateInstruction] holds exactly when some log line
    contains the marker [Instruction: Migrate] in this very letter case,
    or some instruction is a [migrate] instruction of the watched
    program; without instructions a line that has the marker only in
    another letter case does not satisfy it. *)
Theorem hasMigrateInstruction_exact_marker
        (cfg : Config) (ixs : list Instruction) (logs : list string) :
  (hasMigrateInstruction cfg ixs logs = true <->
   (exists log a b, In log logs /\
                    log = (a ++ "Instruction: Migrate" ++ b)%string) \/
   (exists ix, In ix ixs /\ isMigrateIx cfg ix = true))
  /\ (hasMigrateInstruction cfg [] logs = true <->
      exists log a b, In log logs /\
                      log = (a ++ "Instruction: Migrate" ++ b)%string).
Proof.
  assert (Hlog : hasMigrateLog logs = true <->
                 exists log a b, In log logs /\
                   log = (a ++ "Instruction: Migrate" ++ b)%string).
  { rewrite hasMigrateLog_iff. split.
    - intros (log & Hin & Hinc). apply includes_split in Hinc.
      destruct Hinc as (a & b & Hab). now exists log, a, b.
    - intros (log & a & b & Hin & Hab). exists log. split; [exact Hin|].
      apply includes_split. now exists a, b. }
  unfold hasMigrateInstruction. split.
  - destruct (hasMigrateLog logs) eqn:E.
    + split; [intros _; left; now apply Hlog | reflexivity].
    + rewrite existsb_exists. split.
      * intros H; now right.
      * intros [H | H]; [apply Hlog in H; discriminate | exact H].
  - destruct (hasMigrateLog logs) eqn:E.
    + split; [intros _; now apply Hlog | reflexivity].
    + split; [discriminate | intros H; apply Hlog in H; discriminate].
Qed.

End LogChecks.

(** ** Classification *)

Section Classification.
Import JsString Detector Spec.

Lemma hasCollectFee_iff (logs : list string) :
  hasCollectFee logs = true <-> containsExclusion logs.
Proof.
  unfold hasCollectFee, containsExclusion. rewrite existsb_exists.
  split; intros (log & Hin & H); exists log; (split; [exact Hin|]).
  - apply orb_true_iff in H. destruct H as [H|H]; [|now right; right].
    apply orb_true_iff in H. destruct H as [H|H]; [now left | now right; left].
  - destruct H as [H|[H|H]]; rewrite H; now rewrite ?orb_true_r.
Qed.

Lemma isMigrateIx_object (cfg : Config) (ix : Instruction) :
  programId ix = Some RefObj -> isMigrateIx cfg ix = false.
Proof. intros H. unfold isMigrateIx. now rewrite H. Qed.

Lemma existsb_all_false {A : Type} (f : A -> bool) (l : list A) :
  (forall x, In x l -> f x = false) -> existsb f l = false.
Proof.
  induction l as [|x l IH]; intros H; [reflexivity|]. simpl.
  rewrite (H x (or_introl eq_refl)), IH; [reflexivity|].
  intros y Hy. apply H. now right.
Qed.

Lemma detect_shape (cfg : Config) (t : TxRecord) (m : Meta)
      (tr : Transaction) (msg : Message) (sig : string) :
  meta t = Some m -> truthyRef (err m) = false ->
  transaction t = Some tr -> message tr = Some msg ->
  detectMigrationFromTransaction cfg (Some t) sig =
  if hasMigrateInstruction cfg (listOf (instructions msg))
                           (listOf (logMessages m)) &&
     negb (hasCollectFee (listOf (logMessages m)))
  then Normal (mkResult true
                 (extractTokenMint cfg (Some tr) (listOf (instructions msg)))
                 (Some sig))
  else Normal notMigration.
Proof.
  intros Hm He Ht Hmsg. unfold detectMigrationFromTransaction.
  rewrite Hm, He, Ht, Hmsg. unfold listOf.
  destruct (hasMigrateInstruction _ _ _ && negb _); reflexivity.
Qed.

(** Why the instruction check plays no part on fetched records: it
    needs a program id that is a string.  With one, a record without any
    log line is classified as a migration; the records the RPC client
    returns name the program of every instruction by a [PublicKey]
    object. *)
Remark instruction_check_needs_string_programId :
  detectMigrationFromTransaction
    Examples.cfg (Some Examples.instructionOnlyTx) "SIG1"
  = Normal (mkResult true None (Some "SIG1"))
  /\ ~ containsMarker [].
Proof.
  split; [reflexivity|]. intros (log & Hin & _). contradiction.
Qed.

(** C1: for a record that has [meta] without an execution error and
    carries its transaction message, the Detector answers.  On a record
    as the RPC client returns it, where every instruction names its
    program by a [PublicKey] object, it classifies the record as a
    migration if and only if some log line contains the migration marker
    and no log line contains an exclusion marker (last part); an
    exclusion marker forces [isMigration = false] even when the migration
    marker is there too (third part).  The second part gives the rule for
    any record of the model: next to the marker it counts a [migrate]
    instruction of the watched program, which needs a program id that is
    a string. *)
Theorem detect_classification
        (cfg : Config) (t : TxRecord) (m : Meta) (tr : Transaction)
        (msg : Message) (sig : string) :
  meta t = Some m -> truthyRef (err m) = false ->
  transaction t = Some tr -> message tr = Some msg ->
  let ixs := listOf (instructions msg) in
  let logs := listOf (logMessages m) in
  exists r,
    detectMigrationFromTransaction cfg (Some t) sig = Normal r /\
    (isMigration r = true <->
     (containsMarker logs \/ containsMigrateIx cfg ixs) /\
     ~ containsExclusion logs) /\
    (containsExclusion logs -> isMigration r = false) /\
    ((forall ix, In ix ixs -> programId ix = Some RefObj) ->
     (isMigration r = true <->
      containsMarker logs /\ ~ containsExclusion logs)).
Proof.
  intros Hm He Ht Hmsg ixs logs.
  rewrite (detect_shape cfg t m tr msg sig Hm He Ht Hmsg).
  fold ixs logs.
  assert (Hhas : hasMigrateInstruction cfg ixs logs = true <->
                 containsMarker logs \/ containsMigrateIx cfg ixs).
  { unfold hasMigrateInstruction, containsMarker, containsMigrateIx.
    destruct (hasMigrateLog logs) eqn:E.
    - split; [intros _; left; now apply hasMigrateLog_iff | reflexivity].
    - rewrite existsb_exists. split; [now right|].
      intros [H|H]; [|exact H].
      apply hasMigrateLog_iff in H. congruence. }
  assert (Hobj : (forall ix, In ix ixs -> programId ix = Some RefObj) ->
                 hasMigrateInstruction cfg ixs logs = hasMigrateLog logs).
  { intros Hall. unfold hasMigrateInstruction.
    destruct (hasMigrateLog logs); [reflexivity|].
    apply existsb_all_false. intros ix Hin.
    apply isMigrateIx_object. now apply Hall. }
  pose proof (hasCollectFee_iff logs) as Hfee.
  pose proof (hasMigrateLog_iff logs) as Hlog.
  fold (containsMarker logs) in Hlog.
  assert (Hbool : forall b : bool,
             b = hasMigrateInstruction cfg ixs logs &&
                 negb (hasCollectFee logs) ->
             (b = true <->
              (containsMarker logs \/ containsMigrateIx cfg ixs) /\
              ~ containsExclusion logs) /\
             (containsExclusion logs -> b = false) /\
             ((forall ix, In ix ixs -> programId ix = Some RefObj) ->
              (b = true <->
               containsMarker logs /\ ~ containsExclusion logs))).
  { intros b ->. split; [|split].
    - rewrite andb_true_iff, negb_true_iff, Hhas, <- Hfee.
      now rewrite not_true_iff_false.
    - intros Hex. apply Hfee in Hex. rewrite Hex. apply andb_false_r.
    - intros Hall. rewrite (Hobj Hall).
      rewrite andb_true_iff, negb_true_iff, Hlog, <- Hfee.
      now rewrite not_true_iff_false. }
  destruct (hasMigrateInstruction cfg ixs logs &&
            negb (hasCollectFee logs)) eqn:E;
    eexists; (split; [reflexivity|]); apply Hbool; reflexivity.
Qed.

Lemma detect_classification_witness :
  exists r,
    detectMigrationFromTransaction
      Examples.cfg (Some Examples.twoMintsTx) "SIG1" = Normal r /\
    (isMigration r = true <->
     (containsMarker Examples.migrateLogs \/
      containsMigrateIx Examples.cfg
        [mkIx (Some RefObj) None None None (Some [Some 2%Z])]) /\
     ~ containsExclusion Examples.migrateLogs) /\
    (containsExclusion Examples.migrateLogs -> isMigration r = false) /\
    ((forall ix,
         In ix [mkIx (Some RefObj) None None None (Some [Some 2%Z])] ->
         programId ix = Some RefObj) ->
     (isMigration r = true <->
      containsMarker Examples.migrateLogs /\
      ~ containsExclusion Examples.migrateLogs)).
Proof.
  exact (detect_classification
           Examples.cfg Examples.twoMintsTx
           (mkMeta None (Some Examples.migrateLogs))
           (mkTransaction
              (Some (mkMessage
                       (Some [mkIx (Some RefObj) None None None
                                   (Some [Some 2%Z])])
                       (Some [KeyStr Examples.payer; KeyStr Examples.mintA;
                              KeyStr Examples.mintB]))))
           (mkMessage
              (Some [mkIx (Some RefObj) None None None (Some [Some 2%Z])])
              (Some [KeyStr Examples.payer; KeyStr Examples.mintA;
                     KeyStr Examples.mintB]))
           "SIG1" eq_refl eq_refl eq_refl eq_refl).
Defined.

End Classification.

(** ** Failure behaviour of the Detector *)

Section DetectorTotality.
Import JsString Detector Spec.

(** C6, as stated, fails: on a record that has [meta] (no error) and no
    [transaction], reading [tx.transaction.message] throws. *)
Lemma missing_transaction_counterexample :
  detectMigrationFromTransaction
    Examples.cfg (Some Examples.metaOnlyTx) "SIG1" = Throw typeError.
Proof. reflexivity. Qed.

Lemma extractTokenMint_nothing (cfg : Config) (tr : Transaction)
      (msg : Message) :
  message tr = Some msg -> accountKeys msg = None ->
  extractTokenMint cfg (Some tr) [] = None.
Proof.
  intros Hmsg Hk. unfold extractTokenMint, accountKeysArray.
  now rewrite Hmsg, Hk.
Qed.

(** C6, amended: on every record that is absent, lacks [meta], reports
    an execution error, or carries its transaction message, the Detector
    returns a result and does not throw.  An absent record, absent
    [meta] or an execution error give [isMigration = false]; so do
    absent log lines together with absent instructions; and when
    instructions and account keys are both absent the token mint is
    absent. *)
Theorem detector_total_on_readable_records
        (cfg : Config) (tx : option TxRecord) (sig : string) :
  carriesMessage tx ->
  exists r,
    detectMigrationFromTransaction cfg tx sig = Normal r /\
    (tx = None -> r = notMigration) /\
    (forall t, tx = Some t -> meta t = None -> r = notMigration) /\
    (forall t m, tx = Some t -> meta t = Some m ->
                 truthyRef (err m) = true -> r = notMigration) /\
    (forall t m tr msg,
        tx = Some t -> meta t = Some m ->
        transaction t = Some tr -> message tr = Some msg ->
        instructions msg = None ->
        (logMessages m = None -> r = notMigration) /\
        (accountKeys msg = None -> resultTokenMint r = None)).
Proof.
  intros Hshape. destruct tx as [t|]; cbn [carriesMessage] in Hshape.
  2:{ exists notMigration.
      repeat (split || intro); try discriminate; reflexivity. }
  destruct (meta t) as [m|] eqn:Hm.
  2:{ exists notMigration. cbn [detectMigrationFromTransaction].
      rewrite Hm. repeat (split || intro); reflexivity. }
  destruct (truthyRef (err m)) eqn:He.
  { exists notMigration. cbn [detectMigrationFromTransaction].
    rewrite Hm, He. repeat (split || intro); reflexivity. }
  destruct Hshape as [Habs | (tr & msg & Htr & Hmsg)]; [discriminate|].
  rewrite (detect_shape cfg t m tr msg sig Hm He Htr Hmsg).
  destruct (hasMigrateInstruction cfg (listOf (instructions msg))
                                  (listOf (logMessages m)) &&
            negb (hasCollectFee (listOf (logMessages m)))) eqn:E;
    eexists; (split; [reflexivity|]);
    (split; [discriminate|]);
    (split; [intros; congruence|]);
    (split; [intros t' m' Ht Hm' He'; congruence|]);
    intros t' m' tr' msg' Ht Hm' Htr' Hmsg' Hix.
  - assert (t' = t) by congruence. subst t'.
    assert (m' = m) by congruence. subst m'.
    assert (tr' = tr) by congruence. subst tr'.
    assert (msg' = msg) by congruence. subst msg'.
    rewrite Hix in *. cbn [listOf] in *. split.
    + intros Hl. rewrite Hl in E. cbn in E. discriminate.
    + intros Hk. cbn [resultTokenMint].
      now apply extractTokenMint_nothing with (msg := msg).
  - split; reflexivity.
Qed.

Lemma detector_total_on_readable_records_witness :
  exists r,
    detectMigrationFromTransaction
      Examples.cfg (Some Examples.twoMintsTx) "SIG1" = Normal r /\
    (Some Examples.twoMintsTx = None -> r = notMigration) /\
    (forall t, Some Examples.twoMintsTx = Some t -> meta t = None ->
               r = notMigration) /\
    (forall t m, Some Examples.twoMintsTx = Some t -> meta t = Some m ->
                 truthyRef (err m) = true -> r = notMigration) /\
    (forall t m tr msg,
        Some Examples.twoMintsTx = Some t -> meta t = Some m ->
        transaction t = Some tr -> message tr = Some msg ->
        instructions msg = None ->
        (logMessages m = None -> r = notMigration) /\
        (accountKeys msg = None -> resultTokenMint r = None)).
Proof.
  apply (detector_total_on_readable_records
           Examples.cfg (Some Examples.twoMintsTx) "SIG1").
  simpl. right. eexists. eexists. split; reflexivity.
Defined.

End DetectorTotality.

(** ** Token mint extraction *)

Section Extraction.
Import JsString Detector Spec.

Lemma scanAccounts_none (keys : list string) (idxs : list (option Z)) :
  find looksLikeMintAddress keys = None -> scanAccounts keys idxs = None.
Proof.
  intros Hnone. induction idxs as [|[index|] rest IH]; cbn [scanAccounts].
  - reflexivity.
  - destruct ((0 <=? index)%Z && (index <? Z.of_nat (List.length keys))%Z);
      [|exact IH].
    destruct (nth_error keys (Z.to_nat index)) as [account|] eqn:Hnth;
      [|exact IH].
    apply nth_error_In in Hnth.
    now rewrite (find_none _ _ Hnone account Hnth).
  - exact IH.
Qed.

Lemma referenced_in_keys (keys : list string) (ix : Instruction)
      (a : string) :
  In a (referenced keys ix) -> In a keys.
Proof.
  unfold referenced. rewrite in_flat_map. intros ([z|] & _ & Ha).
  - cbn [addressAt] in Ha. destruct (0 <=? z)%Z; [|contradiction].
    destruct (nth_error keys (Z.to_nat z)) as [b|] eqn:Hnth;
      [|contradiction].
    destruct Ha as [<-|[]]. now apply nth_error_In in Hnth.
  - contradiction.
Qed.

Lemma tierB_none (keys : list string) (ixs : list Instruction) :
  tierA keys = None -> tierB keys ixs = None.
Proof.
  intros Hnone. unfold tierB.
  destruct (find looksLikeMintAddress (flat_map (referenced keys) ixs))
    as [a|] eqn:Hf; [|reflexivity].
  apply find_some in Hf. destruct Hf as [Hin Ha].
  apply in_flat_map in Hin. destruct Hin as (ix & _ & Hin).
  apply referenced_in_keys in Hin.
  rewrite (find_none _ _ Hnone a Hin) in Ha. discriminate.
Qed.

(** The two payload tests of the loop body return the mint field, or
    else the token-mint field of a transfer payload. *)
Lemma payloadMint_amended (ix : Instruction) :
  payloadMint ix = mintFieldOfTransfers ix.
Proof.
  unfold payloadMint, mintFieldOfTransfers, isTransferPayload, strictEq,
    orStr, nonEmpty.
  destruct (parsedType ix) as [t|];
    [destruct (String.eqb t "transfer"), (String.eqb t "transferChecked")|];
    cbn [orb firstSome];
    destruct (infoMint ix) as [a|]; destruct (infoTokenMint ix) as [b|];
    cbn [truthyStr];
    try destruct (String.eqb a "") eqn:Ea;
    try destruct (String.eqb b "") eqn:Eb;
    cbn [negb truthyStr firstSome]; rewrite ?Ea, ?Eb; cbn [negb];
    reflexivity.
Qed.

Lemma scanInstructions_payload (keys : list string)
      (ixs : list Instruction) :
  find looksLikeMintAddress keys = None ->
  scanInstructions keys ixs = tierCAmended ixs.
Proof.
  intros Hnone. unfold tierCAmended.
  induction ixs as [|ix rest IH]; [reflexivity|].
  cbn [scanInstructions map firstSome].
  rewrite <- payloadMint_amended.
  destruct (payloadMint ix) as [m|]; [reflexivity|].
  unfold ixAccounts. destruct (accounts ix) as [idxs|]; [|exact IH].
  now rewrite (scanAccounts_none keys idxs Hnone).
Qed.

Lemma find_ext {A : Type} (f g : A -> bool) (l : list A) :
  (forall x, f x = g x) -> find f l = find g l.
Proof.
  intros H. induction l as [|x l IH]; [reflexivity|].
  cbn [find]. now rewrite H, IH.
Qed.

Lemma fallback_tierD (cfg : Config) (keys : list string) :
  find (isFallback cfg) keys = tierD cfg keys.
Proof.
  apply find_ext. intros a.
  unfold isFallback, isSkipped, isKnownProgramOrSystemAddress.
  destruct (String.length a =? 44), (existsb (String.eqb a) knownPrograms),
    (String.eqb a (pumpFunProgramId cfg)),
    (String.eqb a (pumpFunAmmProgramId cfg)); reflexivity.
Qed.

(** What the payload tests return is the [mint] or the [tokenMint] field
    of the payload. *)
Lemma payloadMint_field (ix : Instruction) (m : string) :
  payloadMint ix = Some m ->
  infoMint ix = Some m \/ infoTokenMint ix = Some m.
Proof.
  unfold payloadMint, orStr.
  destruct (strictEq (parsedType ix) "transfer" ||
            strictEq (parsedType ix) "transferChecked");
    destruct (infoMint ix) as [a|]; destruct (infoTokenMint ix) as [b|];
    cbn [truthyStr];
    try destruct (String.eqb a "") eqn:Ea;
    try destruct (String.eqb b "") eqn:Eb;
    cbn [negb truthyStr]; rewrite ?Ea, ?Eb; cbn [negb];
    intros H; inversion H; auto.
Qed.

(** [extractTokenMint] computes the tiers in the amended priority. *)
Lemma extractTokenMint_tiers (cfg : Config) (tx : option Transaction)
      (ixs : list Instruction) :
  extractTokenMint cfg tx ixs =
  extractByPriorityAmended cfg (accountKeysArray tx) ixs.
Proof.
  unfold extractTokenMint, extractByPriorityAmended. cbn [firstSome].
  fold (tierA (accountKeysArray tx)).
  destruct (tierA (accountKeysArray tx)) as [a|] eqn:Ha; [reflexivity|].
  rewrite (tierB_none _ ixs Ha).
  rewrite (scanInstructions_payload _ ixs Ha).
  destruct (tierCAmended ixs); [reflexivity|]. rewrite fallback_tierD.
  now destruct (tierD cfg (accountKeysArray tx)).
Qed.

(** Where no payload relies on a token-mint field outside a transfer,
    the stated tier (c) and the amended one agree. *)
Lemma tierC_agree (ixs : list Instruction) :
  (forall ix, In ix ixs -> isTransferPayload ix = false ->
              nonEmpty (infoMint ix) = None ->
              nonEmpty (infoTokenMint ix) = None) ->
  tierCAmended ixs = tierC ixs.
Proof.
  unfold tierCAmended, tierC. induction ixs as [|ix rest IH]; intros H;
    [reflexivity|].
  cbn [map firstSome].
  assert (Hix : mintFieldOfTransfers ix = mintField ix).
  { unfold mintFieldOfTransfers, mintField. cbn [firstSome].
    destruct (nonEmpty (infoMint ix)) eqn:Em; [reflexivity|].
    destruct (isTransferPayload ix) eqn:Et; [reflexivity|].
    now rewrite (H ix (or_introl eq_refl) Et Em). }
  rewrite Hix, IH; [reflexivity|]. intros ix' Hin. apply H. now right.
Qed.

(** C2, as stated, fails: the record is classified as a migration, its
    account list holds no vanity-suffix address, and its one payload, of
    type [mintTo], has a token-mint field.  The stated order gives that
    field by tier (c); the Detector passes it over and returns the
    address of tier (d). *)
Lemma token_mint_field_counterexample :
  detectMigrationFromTransaction Examples.cfg (Some Examples.mintToTx) "SIG1"
  = Normal (mkResult true (Some Examples.payer) (Some "SIG1"))
  /\ extractByPriority Examples.cfg [Examples.payer] [Examples.mintToIx]
     = Some Examples.otherMint
  /\ tierC [Examples.mintToIx] = Some Examples.otherMint
  /\ tierD Examples.cfg [Examples.payer] = Some Examples.payer.
Proof. repeat split; reflexivity. Qed.

(** C2, amended: when the Detector classifies a record as a migration,
    the token mint of its result is the first match of the tiers in
    priority order: (a) the first vanity-suffix address of the account
    list, (b) a vanity-suffix address reached through an instruction's
    account indices, (c) a payload's mint field or else, in a transfer or
    transferChecked payload only, its token-mint field, (d) the first
    44-character address that is neither a known program nor the watched
    program.  In particular a vanity-suffix address of the top-level
    account list is returned whatever the instructions refer to.  Where
    no payload outside a transfer has a token-mint field without a mint
    field, this is the order as stated. *)
Theorem tokenMint_priority_order
        (cfg : Config) (t : TxRecord) (sig : string)
        (r : MigrationDetectionResult) :
  detectMigrationFromTransaction cfg (Some t) sig = Normal r ->
  isMigration r = true ->
  exists tr msg,
    transaction t = Some tr /\ message tr = Some msg /\
    let keys := accountKeysArray (Some tr) in
    let ixs := listOf (instructions msg) in
    resultTokenMint r = extractByPriorityAmended cfg keys ixs /\
    (forall a, tierA keys = Some a -> resultTokenMint r = Some a) /\
    ((forall ix, In ix ixs -> isTransferPayload ix = false ->
                 nonEmpty (infoMint ix) = None ->
                 nonEmpty (infoTokenMint ix) = None) ->
     resultTokenMint r = extractByPriority cfg keys ixs).
Proof.
  intros Hdet Hmig. unfold detectMigrationFromTransaction in Hdet.
  destruct (meta t) as [m|]; [|inversion Hdet; subst r; discriminate].
  destruct (truthyRef (err m));
    [inversion Hdet; subst r; discriminate|].
  destruct (transaction t) as [tr|]; [|discriminate].
  destruct (message tr) as [msg|] eqn:Hmsg; [|discriminate].
  exists tr, msg. split; [reflexivity|]. split; [exact Hmsg|].
  fold (listOf (instructions msg)) in Hdet.
  fold (listOf (logMessages m)) in Hdet.
  destruct (negb _) in Hdet; inversion Hdet; subst r; [discriminate|].
  cbn [resultTokenMint]. cbv zeta. split; [|split].
  - apply extractTokenMint_tiers.
  - intros a Ha. rewrite extractTokenMint_tiers.
    unfold extractByPriorityAmended. cbn [firstSome]. now rewrite Ha.
  - intros Hfields. rewrite extractTokenMint_tiers.
    unfold extractByPriorityAmended, extractByPriority.
    now rewrite (tierC_agree _ Hfields).
Qed.

Lemma tokenMint_priority_order_witness :
  exists tr msg,
    transaction Examples.twoMintsTx = Some tr /\ message tr = Some msg /\
    let keys := accountKeysArray (Some tr) in
    let ixs := listOf (instructions msg) in
    resultTokenMint (mkResult true (Some Examples.mintA) (Some "SIG1"))
    = extractByPriorityAmended Examples.cfg keys ixs /\
    (forall a, tierA keys = Some a ->
               resultTokenMint
                 (mkResult true (Some Examples.mintA) (Some "SIG1"))
               = Some a) /\
    ((forall ix, In ix ixs -> isTransferPayload ix = false ->
                 nonEmpty (infoMint ix) = None ->
                 nonEmpty (infoTokenMint ix) = None) ->
     resultTokenMint (mkResult true (Some Examples.mintA) (Some "SIG1"))
     = extractByPriority Examples.cfg keys ixs).
Proof.
  apply (tokenMint_priority_order
           Examples.cfg Examples.twoMintsTx "SIG1"
           (mkResult true (Some Examples.mintA) (Some "SIG1")));
    reflexivity.
Defined.

End Extraction.

(** ** The dedup ledger *)

Section Ledger.
Import JsString Detector Orchestrator Spec.
Local Open Scope list_scope.

Lemma has_In (sig : string) (set : list string) :
  has sig set = true <-> In sig set.
Proof.
  unfold has. rewrite existsb_exists. split.
  - intros (x & Hin & Heq). apply String.eqb_eq in Heq. now subst.
  - intros Hin. exists sig. split; [exact Hin | apply String.eqb_refl].
Qed.

Lemma has_false_not_In (sig : string) (set : list string) :
  has sig set = false <-> ~ In sig set.
Proof.
  rewrite <- has_In. destruct (has sig set); split; congruence.
Qed.

Lemma distinct_NoDup (sigs : list string) :
  distinct sigs = true -> NoDup sigs.
Proof.
  induction sigs as [|x rest IH]; intros H; [constructor|].
  cbn [distinct] in H. apply andb_true_iff in H. destruct H as [Hx Hr].
  apply negb_true_iff, has_false_not_In in Hx.
  constructor; [exact Hx | now apply IH].
Qed.

Lemma has_add (sig : string) (set : list string) :
  has sig (add sig set) = true.
Proof.
  unfold add. destruct (has sig set) eqn:E; [exact E|].
  apply has_In, in_or_app. right. now left.
Qed.

Lemma add_new (sig : string) (set : list string) :
  has sig set = false -> add sig set = set ++ [sig].
Proof. intros H. unfold add. now rewrite H. Qed.

(** Deleting a batch of signatures one by one keeps exactly the entries
    that are not in the batch, in their order. *)
Lemma delete_batch (toRemove set : list string) :
  fold_left (fun acc sig => delete sig acc) toRemove set =
  filter (fun s => negb (has s toRemove)) set.
Proof.
  revert set. induction toRemove as [|x rest IH]; intros set.
  - cbn. induction set as [|y set IHs]; [reflexivity|].
    cbn. now rewrite <- IHs.
  - cbn [fold_left]. rewrite IH. unfold delete.
    induction set as [|y set IHs]; [reflexivity|].
    cbn [filter has existsb]. rewrite (String.eqb_sym y x).
    destruct (String.eqb x y); cbn [negb orb].
    + exact IHs.
    + cbn [filter]. fold (has y rest).
      destruct (negb (has y rest)); [now rewrite IHs | exact IHs].
Qed.

Lemma filter_all {A : Type} (f : A -> bool) (l : list A) :
  (forall x, In x l -> f x = true) -> filter f l = l.
Proof.
  induction l as [|x l IH]; intros H; [reflexivity|]. cbn [filter].
  rewrite (H x (or_introl eq_refl)), IH; [reflexivity|].
  intros y Hy. apply H. now right.
Qed.

Lemma filter_none {A : Type} (f : A -> bool) (l : list A) :
  (forall x, In x l -> f x = false) -> filter f l = [].
Proof.
  induction l as [|x l IH]; intros H; [reflexivity|]. cbn [filter].
  rewrite (H x (or_introl eq_refl)). apply IH.
  intros y Hy. apply H. now right.
Qed.

Lemma NoDup_app_disjoint {A : Type} (a b : list A) (x : A) :
  NoDup (a ++ b) -> In x b -> ~ In x a.
Proof.
  induction a as [|y a IH]; intros Hnd Hb Ha; [contradiction|].
  cbn in Hnd. inversion Hnd as [|? ? Hy Hnd']; subst.
  destruct Ha as [->|Ha].
  - apply Hy, in_or_app. now right.
  - now apply (IH Hnd' Hb).
Qed.

Lemma filter_out_prefix (a b : list string) :
  NoDup (a ++ b) -> filter (fun s => negb (has s a)) (a ++ b) = b.
Proof.
  intros Hnd. rewrite filter_app, filter_none, filter_all; [reflexivity| |].
  - intros x Hx. apply negb_true_iff, has_false_not_In.
    now apply NoDup_app_disjoint with (b := b).
  - intros x Hx. apply negb_false_iff, has_In. exact Hx.
Qed.

(** On a ledger without repetitions, deleting the first [k] entries
    leaves the entries after them. *)
Lemma delete_oldest (k : nat) (set : list string) :
  NoDup set ->
  fold_left (fun acc sig => delete sig acc) (firstn k set) set =
  skipn k set.
Proof.
  intros Hnd. rewrite delete_batch.
  rewrite <- (firstn_skipn k set) in Hnd.
  pose proof (filter_out_prefix _ _ Hnd) as H.
  now rewrite (firstn_skipn k set) in H.
Qed.

Lemma cleanupProcessed_skipn (set : list string) :
  NoDup set ->
  cleanupProcessed set = skipn (List.length set - 1000) set.
Proof.
  intros Hnd. unfold cleanupProcessed.
  destruct (1000 <? List.length set) eqn:E.
  - now apply delete_oldest.
  - apply Nat.ltb_ge in E.
    replace (List.length set - 1000) with 0 by lia. reflexivity.
Qed.

Lemma cleanupProcessed_length (set : list string) :
  NoDup set -> List.length (cleanupProcessed set) <= 1000.
Proof.
  intros Hnd. rewrite (cleanupProcessed_skipn set Hnd), length_skipn. lia.
Qed.

Lemma In_firstn {A : Type} (k : nat) (l : list A) (x : A) :
  In x (firstn k l) -> In x l.
Proof.
  intros H. rewrite <- (firstn_skipn k l). apply in_or_app. now left.
Qed.

(** Maintenance never evicts the entry inserted last. *)
Lemma cleanupProcessed_keeps_newest (sig : string) (set : list string) :
  has sig set = false ->
  has sig (cleanupProcessed (set ++ [sig])) = true.
Proof.
  intros Hnew. unfold cleanupProcessed.
  destruct (1000 <? List.length (set ++ [sig])) eqn:E;
    [|apply has_In, in_or_app; right; now left].
  rewrite delete_batch. apply has_In, filter_In. split.
  - apply in_or_app. right. now left.
  - apply negb_true_iff, has_false_not_In. intros Hin.
    rewrite length_app in Hin. cbn [List.length] in Hin.
    rewrite firstn_app in Hin.
    replace (List.length set + 1 - 1000 - List.length set) with 0 in Hin
      by lia.
    cbn [firstn] in Hin. rewrite app_nil_r in Hin.
    apply In_firstn in Hin. apply has_false_not_In in Hnew. contradiction.
Qed.

End Ledger.

(** ** Processing one transaction *)

Section Processing.
Import JsString Detector Orchestrator Spec.
Local Open Scope list_scope.

Variable cfg : Config.

Lemma catchHandler_processed (e : JsError) (sig : string) (st : State) :
  processedSignatures (catchHandler e sig st) = processedSignatures st.
Proof. unfold catchHandler. now destruct (isRateLimit e). Qed.

Lemma catchHandler_pending (e : JsError) (sig : string) (st : State) :
  pendingFetches (catchHandler e sig st) = pendingFetches st.
Proof. unfold catchHandler. now destruct (isRateLimit e). Qed.

Lemma tryBlock_skip (w : World) (sig : string) (st : State) :
  has sig (processedSignatures st) = true ->
  tryBlock cfg w sig st = (st, [], None).
Proof. intros H. unfold tryBlock. now rewrite H. Qed.

Lemma tryBlock_throw (w : World) (sig : string) (st : State)
      (e : JsError) :
  has sig (processedSignatures st) = false ->
  getParsedTransaction w sig = Throw e ->
  tryBlock cfg w sig st = (st, [Fetched sig], Some e).
Proof. intros H Hf. unfold tryBlock. now rewrite H, Hf. Qed.

Lemma tryBlock_not_found (w : World) (sig : string) (st : State) :
  has sig (processedSignatures st) = false ->
  getParsedTransaction w sig = Normal None ->
  tryBlock cfg w sig st = (st, [Fetched sig], None).
Proof. intros H Hf. unfold tryBlock. now rewrite H, Hf. Qed.

Lemma tryBlock_detect_throw (w : World) (sig : string) (st : State)
      (tx : TxRecord) (e : JsError) :
  has sig (processedSignatures st) = false ->
  getParsedTransaction w sig = Normal (Some tx) ->
  detectMigrationFromTransaction cfg (Some tx) sig = Throw e ->
  tryBlock cfg w sig st = (st, [Fetched sig], Some e).
Proof. intros H Hf Hd. unfold tryBlock. now rewrite H, Hf, Hd. Qed.

Lemma tryBlock_negative (w : World) (sig : string) (st : State)
      (tx : TxRecord) (r : MigrationDetectionResult) :
  has sig (processedSignatures st) = false ->
  getParsedTransaction w sig = Normal (Some tx) ->
  detectMigrationFromTransaction cfg (Some tx) sig = Normal r ->
  isMigration r = false ->
  tryBlock cfg w sig st =
  (st, [Fetched sig; Classified sig false], None).
Proof. intros H Hf Hd Hm. unfold tryBlock. now rewrite H, Hf, Hd, Hm. Qed.

(** After a positive classification the signature is in the ledger,
    however the rest of the block ends; one fetch and one classification
    have been made. *)
Lemma tryBlock_positive (w : World) (sig : string) (st : State)
      (tx : TxRecord) (r : MigrationDetectionResult) :
  has sig (processedSignatures st) = false ->
  getParsedTransaction w sig = Normal (Some tx) ->
  detectMigrationFromTransaction cfg (Some tx) sig = Normal r ->
  isMigration r = true ->
  exists ledger eff thrown,
    tryBlock cfg w sig st = (setProcessed st ledger, eff, thrown) /\
    (ledger = processedSignatures st ++ [sig] \/
     ledger = cleanupProcessed (processedSignatures st ++ [sig])) /\
    (eff = [Fetched sig; Classified sig true] \/
     exists m td,
       eff = [Fetched sig; Classified sig true; AlertSent m td]).
Proof.
  intros H Hf Hd Hm. unfold tryBlock. rewrite H, Hf, Hd, Hm.
  cbn [negb]. rewrite (add_new sig _ H).
  repeat match goal with
         | |- context [match ?x with _ => _ end] => destruct x
         end;
    eexists; eexists; eexists;
    (split; [reflexivity|]); cbn [processedSignatures setProcessed];
    (split; [auto|]); cbn [app]; eauto.
Qed.

Lemma tryBlock_delivers (w : World) (sig : string) (st : State) :
  has sig (processedSignatures st) = false ->
  delivers cfg w sig ->
  exists eff,
    tryBlock cfg w sig st =
    (setProcessed st (cleanupProcessed (processedSignatures st ++ [sig])),
     eff, None).
Proof.
  intros H (tx & r & m & td & Hf & Hd & Hm & Hlen & Hp & Ht & Hd' & Hs).
  unfold tryBlock. rewrite H, Hf, Hd, Hm. cbn [negb].
  destruct (instructionsLength tx) as [n|]; [|congruence].
  rewrite Hp, Ht. cbn [negb]. rewrite Hd', Hs.
  rewrite (add_new sig _ H). eexists. reflexivity.
Qed.

Lemma fetchAndProcess_skip (w : World) (sig : string) (st : State) :
  has sig (processedSignatures st) = true ->
  fetchAndProcessTransaction cfg w sig st = (st, []).
Proof.
  intros H. unfold fetchAndProcessTransaction.
  now rewrite (tryBlock_skip w sig st H).
Qed.

Lemma tryBlock_pending (w : World) (sig : string) (st : State) :
  pendingFetches (fst (fst (tryBlock cfg w sig st))) = pendingFetches st.
Proof.
  unfold tryBlock.
  repeat match goal with
         | |- context [match ?x with _ => _ end] => destruct x
         end;
    reflexivity.
Qed.

Lemma fetchAndProcess_pending (w : World) (sig : string) (st : State) :
  pendingFetches (fst (fetchAndProcessTransaction cfg w sig st)) =
  pendingFetches st.
Proof.
  unfold fetchAndProcessTransaction.
  pose proof (tryBlock_pending w sig st) as H.
  destruct (tryBlock cfg w sig st) as [[st' eff] [e|]]; cbn [fst] in *;
    rewrite ?catchHandler_pending; exact H.
Qed.

End Processing.

(** ** What enters the ledger *)

Section LedgerEntry.
Import JsString Detector Orchestrator Spec.
Local Open Scope list_scope.

Lemma onMessage_processed (msg : WsMessage) (st : State) :
  processedSignatures (onMessage msg st) = processedSignatures st.
Proof.
  unfold onMessage. destruct (readMessage msg) as [sig logs].
  destruct (negb (truthyStr sig)); [reflexivity|].
  destruct sig as [s|]; [|reflexivity].
  now destruct ((0 <? List.length logs) &&
                negb (hasMigrationIndicators (Some logs))).
Qed.

(** C3, as stated, fails: the stream delivers [SIG1] with a migration
    marker and a fee-collection marker, the transaction is fetched and
    classified as not a migration, and [SIG1] is not in the ledger
    afterwards. *)
Lemma non_migration_ledger_counterexample :
  let out := run Examples.cfg
                 [Message (Examples.logsNotification "SIG1" Examples.feeLogs);
                  Dequeue (Examples.worldOf Examples.feeTx)]
                 (initialState 0) in
  snd out = [Fetched "SIG1"; Classified "SIG1" false] /\
  has "SIG1" (processedSignatures (fst out)) = false.
Proof. split; reflexivity. Qed.

(** C3, amended: a signature that is not yet in the ledger is in it after
    [fetchAndProcessTransaction] exactly when its transaction was fetched
    and classified as a migration; after a negative classification the
    Orchestrator stops with the state unchanged (one fetch, one
    classification); the stream callback, which enqueues, never touches
    the ledger. *)
Theorem ledger_entry_iff_migration
        (cfg : Config) (w : World) (sig : string) (st : State) :
  has sig (processedSignatures st) = false ->
  (has sig (processedSignatures
              (fst (fetchAndProcessTransaction cfg w sig st))) = true <->
   exists tx r,
     getParsedTransaction w sig = Normal (Some tx) /\
     detectMigrationFromTransaction cfg (Some tx) sig = Normal r /\
     isMigration r = true) /\
  (forall tx r,
      getParsedTransaction w sig = Normal (Some tx) ->
      detectMigrationFromTransaction cfg (Some tx) sig = Normal r ->
      isMigration r = false ->
      fetchAndProcessTransaction cfg w sig st =
      (st, [Fetched sig; Classified sig false])) /\
  (forall msg,
      processedSignatures (onMessage msg st) = processedSignatures st).
Proof.
  intros Hnew. split; [|split].
  - unfold fetchAndProcessTransaction.
    destruct (getParsedTransaction w sig) as [[tx|]|e] eqn:Hf.
    + destruct (detectMigrationFromTransaction cfg (Some tx) sig)
        as [r|e] eqn:Hd.
      * destruct (isMigration r) eqn:Hm.
        -- destruct (tryBlock_positive cfg w sig st tx r Hnew Hf Hd Hm)
             as (ledger & eff & thrown & -> & Hledger & _).
           split; [intros _; now exists tx, r|]. intros _.
           assert (Hin : has sig ledger = true).
           { destruct Hledger as [->| ->].
             - apply has_In, in_or_app. right. now left.
             - now apply cleanupProcessed_keeps_newest. }
           destruct thrown as [e|]; cbn [fst];
             rewrite ?catchHandler_processed; exact Hin.
        -- rewrite (tryBlock_negative cfg w sig st tx r Hnew Hf Hd Hm).
           cbn [fst]. rewrite Hnew. split; [discriminate|].
           intros (tx' & r' & Htx & Hr & Hm'). congruence.
      * rewrite (tryBlock_detect_throw cfg w sig st tx e Hnew Hf Hd).
        cbn [fst]. rewrite catchHandler_processed, Hnew.
        split; [discriminate|].
        intros (tx' & r' & Htx & Hr & Hm'). congruence.
    + rewrite (tryBlock_not_found cfg w sig st Hnew Hf). cbn [fst].
      rewrite Hnew. split; [discriminate|].
      intros (tx' & r' & Htx & _). congruence.
    + rewrite (tryBlock_throw cfg w sig st e Hnew Hf). cbn [fst].
      rewrite catchHandler_processed, Hnew. split; [discriminate|].
      intros (tx' & r' & Htx & _). congruence.
  - intros tx r Hf Hd Hm. unfold fetchAndProcessTransaction.
    now rewrite (tryBlock_negative cfg w sig st tx r Hnew Hf Hd Hm).
  - intros msg. apply onMessage_processed.
Qed.

Lemma ledger_entry_iff_migration_witness :
  (has "SIG1"
       (processedSignatures
          (fst (fetchAndProcessTransaction
                  Examples.cfg (Examples.worldOf Examples.feeTx) "SIG1"
                  (initialState 0)))) = true <->
   exists tx r,
     getParsedTransaction (Examples.worldOf Examples.feeTx) "SIG1"
     = Normal (Some tx) /\
     detectMigrationFromTransaction Examples.cfg (Some tx) "SIG1"
     = Normal r /\
     isMigration r = true) /\
  (forall tx r,
      getParsedTransaction (Examples.worldOf Examples.feeTx) "SIG1"
      = Normal (Some tx) ->
      detectMigrationFromTransaction Examples.cfg (Some tx) "SIG1"
      = Normal r ->
      isMigration r = false ->
      fetchAndProcessTransaction
        Examples.cfg (Examples.worldOf Examples.feeTx) "SIG1"
        (initialState 0) =
      (initialState 0, [Fetched "SIG1"; Classified "SIG1" false])) /\
  (forall msg,
      processedSignatures (onMessage msg (initialState 0)) =
      processedSignatures (initialState 0)).
Proof.
  apply (ledger_entry_iff_migration
           Examples.cfg (Examples.worldOf Examples.feeTx) "SIG1"
           (initialState 0)).
  reflexivity.
Defined.

End LedgerEntry.

(** ** Deduplication *)

Section Dedup.
Import JsString Detector Orchestrator Spec.
Local Open Scope list_scope.

Lemma run_cons (cfg : Config) (ev : Event) (evs : list Event)
      (st : State) :
  run cfg (ev :: evs) st =
  (fst (run cfg evs (fst (step cfg ev st))),
   snd (step cfg ev st) ++ snd (run cfg evs (fst (step cfg ev st)))).
Proof.
  cbn [run]. destruct (step cfg ev st) as [st1 eff1]. cbn [fst snd].
  now destruct (run cfg evs st1) as [st2 eff2].
Qed.

Lemma processQueueItem_fresh (cfg : Config) (w : World) (st : State)
      (item : QueuedFetch) (rest : list QueuedFetch) :
  pendingFetches st = item :: rest ->
  (clock st - timestamp item <= 30000)%Z ->
  processQueueItem cfg w st =
  fetchAndProcessTransaction
    cfg w (signature item)
    (mkState (processedSignatures st) rest (retryTimers st)
             (afterWait st) (afterWait st)).
Proof.
  intros Hq Hfresh. unfold processQueueItem. rewrite Hq.
  destruct (30000 <? clock st - timestamp item)%Z eqn:E; [|reflexivity].
  apply Z.ltb_lt in E. lia.
Qed.

(** A queued signature that is in the ledger leaves the queue without
    a fetch, stale or not. *)
Lemma processQueueItem_known (cfg : Config) (w : World) (st : State)
      (item : QueuedFetch) :
  pendingFetches st = [item] ->
  has (signature item) (processedSignatures st) = true ->
  snd (processQueueItem cfg w st) = [] /\
  pendingFetches (fst (processQueueItem cfg w st)) = [].
Proof.
  intros Hq Hin. unfold processQueueItem. rewrite Hq.
  destruct (30000 <? clock st - timestamp item)%Z; [now split|].
  rewrite fetchAndProcess_skip; [now split | exact Hin].
Qed.

Lemma fetchAndProcess_positive (cfg : Config) (w : World) (sig : string)
      (st : State) (tx : TxRecord) (r : MigrationDetectionResult) :
  has sig (processedSignatures st) = false ->
  getParsedTransaction w sig = Normal (Some tx) ->
  detectMigrationFromTransaction cfg (Some tx) sig = Normal r ->
  isMigration r = true ->
  exists st1 eff,
    fetchAndProcessTransaction cfg w sig st = (st1, eff) /\
    has sig (processedSignatures st1) = true /\
    pendingFetches st1 = pendingFetches st /\
    (eff = [Fetched sig; Classified sig true] \/
     exists m td,
       eff = [Fetched sig; Classified sig true; AlertSent m td]).
Proof.
  intros Hnew Hf Hd Hm.
  pose proof (fetchAndProcess_pending cfg w sig st) as Hpend.
  unfold fetchAndProcessTransaction in *.
  destruct (tryBlock_positive cfg w sig st tx r Hnew Hf Hd Hm)
    as (ledger & eff & thrown & Htry & Hledger & Heff).
  rewrite Htry in *.
  assert (Hin : has sig ledger = true).
  { destruct Hledger as [->| ->].
    - apply has_In, in_or_app. right. now left.
    - now apply cleanupProcessed_keeps_newest. }
  destruct thrown as [e|]; eexists; eexists;
    (split; [reflexivity|]); cbn [fst] in Hpend;
    rewrite ?catchHandler_processed; auto.
Qed.

(** C4, as stated, fails.  (1) The same signature is enqueued twice
    before it is processed and its transaction is not a migration: it is
    fetched twice and classified twice.  (2) A signature that is in the
    ledger arrives again on the stream: it is enqueued again. *)
Lemma duplicate_enqueue_counterexample :
  (let out :=
     run Examples.cfg
         [Message (Examples.logsNotification "SIG1" Examples.feeLogs);
          Message (Examples.logsNotification "SIG1" Examples.feeLogs);
          Dequeue (Examples.worldOf Examples.feeTx);
          Dequeue (Examples.worldOf Examples.feeTx)]
         (initialState 0) in
   fetchCount "SIG1" (snd out) = 2 /\ classifyCount "SIG1" (snd out) = 2)
  /\
  (let st := mkState ["SIG1"] [] [] 0 0 in
   has "SIG1" (processedSignatures st) = true /\
   pendingFetches
     (onMessage (Examples.logsNotification "SIG1" Examples.migrateLogs) st)
   = [mkFetch "SIG1" 0]).
Proof. repeat split; reflexivity. Qed.

(** C4, amended: the stream callback enqueues every signature whose
    event passes the pre-filter, whether or not it is in the ledger or
    already queued; the dedup is made at dequeue, where a signature that
    is in the ledger is skipped with no fetch and no classification.
    Hence two queued copies of a signature whose transaction is fetched
    and classified as a migration give exactly one fetch and one
    classification.  The rate-limit retry enqueues only a signature that
    is not in the ledger. *)
Theorem dedup_at_dequeue
        (cfg : Config) (w : World) (sig : string) (st : State) :
  (has sig (processedSignatures st) = true ->
   fetchAndProcessTransaction cfg w sig st = (st, []) /\
   retryCallback sig st = st) /\
  (forall (t1 t2 : Z) tx r,
      pendingFetches st = [mkFetch sig t1; mkFetch sig t2] ->
      has sig (processedSignatures st) = false ->
      (clock st - t1 <= 30000)%Z ->
      getParsedTransaction w sig = Normal (Some tx) ->
      detectMigrationFromTransaction cfg (Some tx) sig = Normal r ->
      isMigration r = true ->
      let out := run cfg [Dequeue w; Dequeue w] st in
      fetchCount sig (snd out) = 1 /\ classifyCount sig (snd out) = 1 /\
      pendingFetches (fst out) = []) /\
  (forall msg logs,
      readMessage msg = (Some sig, logs) ->
      truthyStr (Some sig) = true ->
      logs = [] \/ hasMigrationIndicators (Some logs) = true ->
      onMessage msg st = push (mkFetch sig (clock st)) st).
Proof.
  split; [|split].
  - intros Hin. split.
    + now apply fetchAndProcess_skip.
    + unfold retryCallback. now rewrite Hin.
  - intros t1 t2 tx r Hq Hnew Hfresh Hf Hd Hm out. subst out.
    rewrite run_cons, run_cons. cbn [step run fst snd].
    rewrite app_nil_r.
    (* first iteration: the transaction is fetched and classified *)
    rewrite (processQueueItem_fresh cfg w st _ _ Hq Hfresh).
    cbn [signature].
    set (st0 := mkState (processedSignatures st) [mkFetch sig t2]
                        (retryTimers st) (afterWait st) (afterWait st)).
    destruct (fetchAndProcess_positive cfg w sig st0 tx r Hnew Hf Hd Hm)
      as (st1 & eff & -> & Hin & Hpend & Heff).
    cbn [fst snd].
    (* second iteration: the copy is dropped or skipped *)
    destruct (processQueueItem_known cfg w st1 (mkFetch sig t2) Hpend Hin)
      as [-> Hempty].
    rewrite app_nil_r. split; [|split; [|exact Hempty]].
    + destruct Heff as [->|(m & td & ->)];
        unfold fetchCount; cbn [filter isFetch];
        now rewrite String.eqb_refl.
    + destruct Heff as [->|(m & td & ->)];
        unfold classifyCount; cbn [filter isClassify];
        now rewrite String.eqb_refl.
  - intros msg logs Hread Hsig Hlogs. unfold onMessage.
    rewrite Hread, Hsig. cbn [negb].
    destruct Hlogs as [->|Hind]; [reflexivity|].
    rewrite Hind. cbn [negb]. now rewrite andb_false_r.
Qed.

Lemma dedup_at_dequeue_witness :
  let st := mkState [] [mkFetch "SIG1" 0; mkFetch "SIG1" 5] [] 0 10 in
  let w := Examples.worldOf Examples.migrationTx in
  let out := run Examples.cfg [Dequeue w; Dequeue w] st in
  fetchCount "SIG1" (snd out) = 1 /\ classifyCount "SIG1" (snd out) = 1 /\
  pendingFetches (fst out) = [].
Proof.
  intros st w.
  apply (proj1 (proj2 (dedup_at_dequeue Examples.cfg w "SIG1" st))
               0%Z 5%Z Examples.migrationTx
               (mkResult true (Some Examples.mintA) (Some "SIG1")));
    try reflexivity.
  cbn. lia.
Defined.

End Dedup.

(** ** Ledger maintenance *)

Section Maintenance.
Import JsString Detector Orchestrator Spec.
Local Open Scope list_scope.

Lemma fetchAndProcess_delivers (cfg : Config) (w : World) (sig : string)
      (st : State) :
  has sig (processedSignatures st) = false ->
  delivers cfg w sig ->
  processedSignatures (fst (fetchAndProcessTransaction cfg w sig st)) =
  cleanupProcessed (processedSignatures st ++ [sig]).
Proof.
  intros Hnew Hdel. unfold fetchAndProcessTransaction.
  destruct (tryBlock_delivers cfg w sig st Hnew Hdel) as [eff ->].
  reflexivity.
Qed.

Lemma NoDup_skipn {A : Type} (k : nat) (l : list A) :
  NoDup l -> NoDup (skipn k l).
Proof.
  intros H. rewrite <- (firstn_skipn k l) in H.
  now apply NoDup_app_remove_l in H.
Qed.

(** After the transactions of [sigs] have been delivered one after the
    other, the ledger holds the last 1000 entries of the insertion
    order. *)
Lemma processAll_ledger (cfg : Config) (w : World) (sigs : list string) :
  forall st : State,
    NoDup (processedSignatures st ++ sigs) ->
    (forall sig, In sig sigs -> delivers cfg w sig) ->
    sigs <> [] ->
    processedSignatures (processAll cfg w sigs st) =
    skipn (List.length (processedSignatures st ++ sigs) - 1000)
          (processedSignatures st ++ sigs).
Proof.
  induction sigs as [|s rest IH]; intros st Hnd Hdel Hne; [congruence|].
  change (processAll cfg w (s :: rest) st)
    with (processAll cfg w rest
                     (fst (fetchAndProcessTransaction cfg w s st))).
  set (st1 := fst (fetchAndProcessTransaction cfg w s st)).
  assert (Hnew : has s (processedSignatures st) = false).
  { apply has_false_not_In. intros Hin.
    apply (NoDup_app_disjoint _ _ s Hnd); [now left | exact Hin]. }
  assert (Hnd1 : NoDup (processedSignatures st ++ [s])).
  { replace (processedSignatures st ++ s :: rest)
      with ((processedSignatures st ++ [s]) ++ rest) in Hnd
      by now rewrite <- app_assoc.
    now apply NoDup_app_remove_r in Hnd. }
  assert (Hst1 : processedSignatures st1 =
                 skipn (List.length (processedSignatures st ++ [s]) - 1000)
                       (processedSignatures st ++ [s])).
  { subst st1. rewrite fetchAndProcess_delivers;
      [|exact Hnew | apply Hdel; now left].
    now apply cleanupProcessed_skipn. }
  set (L := processedSignatures st) in *.
  set (k1 := List.length (L ++ [s]) - 1000) in *.
  assert (Hjoin : processedSignatures st1 ++ rest =
                  skipn k1 (L ++ s :: rest)).
  { rewrite Hst1.
    replace (L ++ s :: rest) with ((L ++ [s]) ++ rest)
      by now rewrite <- app_assoc.
    rewrite (skipn_app k1 (L ++ [s]) rest).
    replace (k1 - List.length (L ++ [s])) with 0 by (subst k1; lia).
    reflexivity. }
  destruct rest as [|s' rest'].
  - change (processAll cfg w [] st1) with st1. now rewrite Hst1.
  - rewrite IH.
    + rewrite Hjoin, length_skipn, skipn_skipn. f_equal.
      subst k1. rewrite !length_app. cbn [List.length]. lia.
    + rewrite Hjoin. now apply NoDup_skipn.
    + intros sig Hin. apply Hdel. now right.
    + discriminate.
Qed.

(** C5: once the transactions of distinct signatures have been delivered
    (so that ledger maintenance has run), the ledger holds at most 1000
    entries, and they are the most recently inserted ones: the entries
    evicted are the earliest of the insertion order.  Starting from an
    empty ledger, 1001 distinct signatures leave exactly 1000, all but
    the first. *)
Theorem ledger_cap_and_eviction
        (cfg : Config) (w : World) (sigs : list string) (st : State) :
  NoDup (processedSignatures st ++ sigs) ->
  (forall sig, In sig sigs -> delivers cfg w sig) ->
  sigs <> [] ->
  let inserted := processedSignatures st ++ sigs in
  let ledger := processedSignatures (processAll cfg w sigs st) in
  ledger = skipn (List.length inserted - 1000) inserted /\
  List.length ledger <= 1000 /\
  (processedSignatures st = [] -> List.length sigs = 1001 ->
   List.length ledger = 1000 /\ ledger = tl sigs).
Proof.
  intros Hnd Hdel Hne inserted ledger.
  assert (H : ledger = skipn (List.length inserted - 1000) inserted)
    by now apply processAll_ledger.
  split; [exact H|]. split.
  - rewrite H, length_skipn. lia.
  - intros Hempty Hlen. subst inserted. rewrite Hempty in H.
    cbn [app] in H. rewrite Hlen in H. rewrite H.
    change (1001 - 1000) with 1. split.
    + rewrite length_skipn. lia.
    + now destruct sigs.
Qed.

Lemma ledger_cap_and_eviction_witness :
  let sigs := Examples.manySigs 1001 in
  let st := initialState 0 in
  let inserted := processedSignatures st ++ sigs in
  let ledger :=
    processedSignatures
      (processAll Examples.cfg (Examples.worldOf Examples.migrationTx)
                  sigs st) in
  ledger = skipn (List.length inserted - 1000) inserted /\
  List.length ledger <= 1000 /\
  (processedSignatures st = [] -> List.length sigs = 1001 ->
   List.length ledger = 1000 /\ ledger = tl sigs).
Proof.
  apply (ledger_cap_and_eviction
           Examples.cfg (Examples.worldOf Examples.migrationTx)
           (Examples.manySigs 1001) (initialState 0)).
  - apply distinct_NoDup. vm_compute. reflexivity.
  - intros sig _. unfold delivers.
    exists Examples.migrationTx,
           (mkResult true (Some Examples.mintA) (Some sig)),
           (mkMigration sig Examples.mintA None None 0
                        "https://solscan.io/tx/"),
           (mkTokenData Examples.mintA "Token" "TKN" 6).
    repeat split; try reflexivity. discriminate.
  - discriminate.
Defined.

End Maintenance.

(** ** Fetch failures and the rate-limit retry *)

Section Retry.
Import JsString Detector Orchestrator Spec.
Local Open Scope list_scope.

Lemma retryCallback_clock (sig : string) (st : State) :
  clock (retryCallback sig st) = clock st.
Proof.
  unfold retryCallback.
  now destruct (negb (has sig (processedSignatures st))).
Qed.

Lemma runDue_clock (timers : list (Z * string)) (st : State) :
  clock (runDue timers st) = clock st.
Proof.
  revert st. induction timers as [|[due sig] rest IH]; intros st;
    [reflexivity|].
  cbn [runDue]. destruct (due <=? clock st)%Z; rewrite IH;
    [apply retryCallback_clock | reflexivity].
Qed.

Lemma runDue_app (a b : list (Z * string)) (st : State) :
  runDue (a ++ b) st = runDue b (runDue a st).
Proof.
  revert st. induction a as [|[due sig] rest IH]; intros st;
    [reflexivity|].
  cbn [runDue app]. now destruct (due <=? clock st)%Z; rewrite IH.
Qed.

Lemma retryCallback_addTimer (timer : Z * string) (sig : string)
      (st : State) :
  retryCallback sig (addTimer timer st) =
  addTimer timer (retryCallback sig st).
Proof.
  unfold retryCallback. cbn [addTimer processedSignatures].
  now destruct (negb (has sig (processedSignatures st))).
Qed.

(** A pending timer does not change what the due callbacks do. *)
Lemma runDue_addTimer (timer : Z * string) (timers : list (Z * string))
      (st : State) :
  runDue timers (addTimer timer st) = addTimer timer (runDue timers st).
Proof.
  revert st. induction timers as [|[due sig] rest IH]; intros st;
    [reflexivity|].
  cbn [runDue]. change (clock (addTimer timer st)) with (clock st).
  destruct (due <=? clock st)%Z; [|apply IH].
  now rewrite retryCallback_addTimer, IH.
Qed.

Lemma advance_retry_pending (sig : string) (dt : Z) (st : State) :
  (dt < 2000)%Z ->
  advance dt (setTimeout 2000 sig st) =
  addTimer ((clock st + 2000)%Z, sig) (advance dt st).
Proof.
  intros Hdt. unfold advance, setTimeout.
  cbn [addTimer retryTimers processedSignatures pendingFetches
       lastFetchTime clock].
  rewrite filter_app. cbn [filter fst].
  assert (E : (clock st + dt <? clock st + 2000)%Z = true)
    by (apply Z.ltb_lt; lia).
  rewrite E, runDue_app.
  set (st' := mkState (processedSignatures st) (pendingFetches st)
                      (filter (fun t => (clock st + dt <? fst t)%Z)
                              (retryTimers st))
                      (lastFetchTime st) (clock st + dt)%Z).
  change (mkState (processedSignatures st) (pendingFetches st)
                  (filter (fun t => (clock st + dt <? fst t)%Z)
                          (retryTimers st) ++ [((clock st + 2000)%Z, sig)])
                  (lastFetchTime st) (clock st + dt)%Z)
    with (addTimer ((clock st + 2000)%Z, sig) st').
  rewrite runDue_addTimer. cbn [runDue].
  change (clock (addTimer ((clock st + 2000)%Z, sig)
                          (runDue (retryTimers st) st')))
    with (clock (runDue (retryTimers st) st')).
  rewrite runDue_clock. cbn [clock st'].
  assert (E' : (clock st + 2000 <=? clock st + dt)%Z = false)
    by (apply Z.leb_gt; lia).
  now rewrite E'.
Qed.

Lemma advance_retry_due (sig : string) (dt : Z) (st : State) :
  (2000 <= dt)%Z ->
  advance dt (setTimeout 2000 sig st) =
  retryCallback sig (advance dt st).
Proof.
  intros Hdt. unfold advance, setTimeout.
  cbn [addTimer retryTimers processedSignatures pendingFetches
       lastFetchTime clock].
  rewrite filter_app. cbn [filter fst].
  assert (E : (clock st + dt <? clock st + 2000)%Z = false)
    by (apply Z.ltb_ge; lia).
  rewrite E, app_nil_r, runDue_app. cbn [runDue].
  rewrite runDue_clock. cbn [clock].
  assert (E' : (clock st + 2000 <=? clock st + dt)%Z = true)
    by (apply Z.leb_le; lia).
  now rewrite E'.
Qed.

(** C8: when the fetch of a signature fails, the failure is a rate-limit
    signal exactly when its message contains [429] or
    [Too Many Requests].  Then a retry is scheduled 2000 ms ahead: until
    that time the retry stays pending and the queue is as it would be
    without it; from then on the callback runs after the callbacks
    scheduled before it, and appends the signature at the back of the
    queue if it is not in the ledger and does nothing if it is.  Every
    other failure leaves the state unchanged: nothing is scheduled and
    nothing is queued. *)
Theorem rate_limit_retry
        (cfg : Config) (w : World) (sig : string) (st : State)
        (e : JsError) :
  has sig (processedSignatures st) = false ->
  getParsedTransaction w sig = Throw e ->
  (isRateLimit e = true ->
   fetchAndProcessTransaction cfg w sig st =
   (setTimeout 2000 sig st, [Fetched sig]) /\
   (forall dt, (dt < 2000)%Z ->
               advance dt (setTimeout 2000 sig st) =
               addTimer ((clock st + 2000)%Z, sig) (advance dt st)) /\
   (forall dt, (2000 <= dt)%Z ->
               advance dt (setTimeout 2000 sig st) =
               retryCallback sig (advance dt st))) /\
  (forall s, has sig (processedSignatures s) = false ->
             retryCallback sig s =
             mkState (processedSignatures s)
                     (pendingFetches s ++ [mkFetch sig (clock s)])
                     (retryTimers s) (lastFetchTime s) (clock s)) /\
  (forall s, has sig (processedSignatures s) = true ->
             retryCallback sig s = s) /\
  (isRateLimit e = false ->
   fetchAndProcessTransaction cfg w sig st = (st, [Fetched sig])).
Proof.
  intros Hnew Hf.
  assert (Hrun : fetchAndProcessTransaction cfg w sig st =
                 (catchHandler e sig st, [Fetched sig])).
  { unfold fetchAndProcessTransaction.
    now rewrite (tryBlock_throw cfg w sig st e Hnew Hf). }
  split; [|split; [|split]].
  - intros Hrate. split; [|split].
    + rewrite Hrun. unfold catchHandler. now rewrite Hrate.
    + intros dt Hdt. now apply advance_retry_pending.
    + intros dt Hdt. now apply advance_retry_due.
  - intros s Hs. unfold retryCallback. now rewrite Hs.
  - intros s Hs. unfold retryCallback. now rewrite Hs.
  - intros Hrate. rewrite Hrun. unfold catchHandler. now rewrite Hrate.
Qed.

Lemma rate_limit_retry_witness :
  let e := mkError (Some "429 Too Many Requests") in
  let w := Examples.failingWorld e in
  let st := initialState 0 in
  (isRateLimit e = true ->
   fetchAndProcessTransaction Examples.cfg w "SIG1" st =
   (setTimeout 2000 "SIG1" st, [Fetched "SIG1"]) /\
   (forall dt, (dt < 2000)%Z ->
               advance dt (setTimeout 2000 "SIG1" st) =
               addTimer ((clock st + 2000)%Z, "SIG1") (advance dt st)) /\
   (forall dt, (2000 <= dt)%Z ->
               advance dt (setTimeout 2000 "SIG1" st) =
               retryCallback "SIG1" (advance dt st))) /\
  (forall s, has "SIG1" (processedSignatures s) = false ->
             retryCallback "SIG1" s =
             mkState (processedSignatures s)
                     (pendingFetches s ++ [mkFetch "SIG1" (clock s)])
                     (retryTimers s) (lastFetchTime s) (clock s)) /\
  (forall s, has "SIG1" (processedSignatures s) = true ->
             retryCallback "SIG1" s = s) /\
  (isRateLimit e = false ->
   fetchAndProcessTransaction Examples.cfg w "SIG1" st =
   (st, [Fetched "SIG1"])).
Proof.
  intros e w st.
  apply (rate_limit_retry Examples.cfg w "SIG1" st e); reflexivity.
Defined.

End Retry.

(** ** Reconnect policy of the stream client *)

Section Reconnect.
Import Client.

Lemma isAuthClose_iff (code : Z) :
  isAuthClose code = true <-> code = 1008%Z \/ code = 1003%Z.
Proof.
  unfold isAuthClose. rewrite orb_true_iff, !Z.eqb_eq. reflexivity.
Qed.

(** A close that is not an authentication failure, followed by the
    expiry of the reconnect timer. *)
Lemma disconnect_cycle (code : Z) (st : State) :
  isAuthClose code = false -> idle st ->
  let st' := onReconnectTimer (onClose code st) in
  idle st' /\
  maxReconnectAttempts st' = maxReconnectAttempts st /\
  (reconnectAttempts st < maxReconnectAttempts st ->
   reconnectAttempts st' = S (reconnectAttempts st) /\
   connectCalls st' = S (connectCalls st)) /\
  (maxReconnectAttempts st <= reconnectAttempts st ->
   reconnectAttempts st' = reconnectAttempts st /\
   connectCalls st' = connectCalls st).
Proof.
  intros Hcode [Hrec Htimer]. unfold onClose, scheduleReconnect.
  rewrite Hcode. cbn [cleanup isReconnecting maxReconnectAttempts
                      reconnectAttempts].
  rewrite Hrec.
  destruct (maxReconnectAttempts st <=? reconnectAttempts st) eqn:E.
  - apply Nat.leb_le in E. cbn. repeat split; auto; lia.
  - apply Nat.leb_gt in E. cbn. repeat split; auto; lia.
Qed.

Lemma run_disconnects_cons (c : Z) (rest : list Z) (st : State) :
  run (disconnects (c :: rest)) st =
  run (disconnects rest) (onReconnectTimer (onClose c st)).
Proof. reflexivity. Qed.

Lemma disconnects_count (codes : list Z) :
  forall st : State,
    Forall (fun c => isAuthClose c = false) codes -> idle st ->
    reconnectAttempts st <= maxReconnectAttempts st ->
    idle (run (disconnects codes) st) /\
    maxReconnectAttempts (run (disconnects codes) st) =
    maxReconnectAttempts st /\
    reconnectAttempts (run (disconnects codes) st) =
    Nat.min (reconnectAttempts st + List.length codes)
            (maxReconnectAttempts st) /\
    connectCalls (run (disconnects codes) st) =
    connectCalls st +
    (reconnectAttempts (run (disconnects codes) st) - reconnectAttempts st).
Proof.
  induction codes as [|c rest IH]; intros st Hall Hidle Hle.
  - cbn. repeat split; try apply Hidle; lia.
  - inversion Hall as [|? ? Hc Hrest]; subst.
    rewrite run_disconnects_cons.
    destruct (disconnect_cycle c st Hc Hidle)
      as (Hidle1 & Hmax1 & Hlt & Hge).
    set (st1 := onReconnectTimer (onClose c st)) in *.
    assert (Hle1 : reconnectAttempts st1 <= maxReconnectAttempts st1).
    { destruct (Nat.lt_ge_cases (reconnectAttempts st)
                                (maxReconnectAttempts st)) as [H|H].
      - destruct (Hlt H) as [Ha1 _]. lia.
      - destruct (Hge H) as [Ha1 _]. lia. }
    destruct (IH st1 Hrest Hidle1 Hle1) as (Hi & Hm & Ha & Hcalls).
    split; [exact Hi|]. split; [congruence|].
    cbn [List.length].
    destruct (Nat.lt_ge_cases (reconnectAttempts st)
                              (maxReconnectAttempts st)) as [H|H].
    + destruct (Hlt H) as [Ha1 Hc1]. split; lia.
    + destruct (Hge H) as [Ha1 Hc1]. split; lia.
Qed.

(** C9: a close with code 1008 or 1003 changes nothing, so no reconnect
    is scheduled.  Any other close, while attempts remain, schedules one
    reconnect with the fixed delay of 1000 ms; once the attempts have
    reached the maximum it schedules none and no [connect()] follows.
    After the connection has closed [k] times in a row without opening
    (no close being an authentication failure), exactly [min k n]
    reconnect attempts have been made, where [n] is the maximum of the
    client: [n] attempts after [n] disconnects, and none beyond the
    [n]-th however many further disconnects follow. *)
Theorem reconnect_bound (n : nat) (codes : list Z) :
  Forall (fun c => c <> 1008%Z /\ c <> 1003%Z) codes ->
  let st := run (disconnects codes) (connect (newClientWithMax n)) in
  reconnectsMade st = Nat.min (List.length codes) n /\
  reconnectAttempts st = Nat.min (List.length codes) n /\
  (forall code s, code = 1008%Z \/ code = 1003%Z -> onClose code s = s) /\
  (forall code s,
      code <> 1008%Z /\ code <> 1003%Z -> isReconnecting s = false ->
      reconnectAttempts s < maxReconnectAttempts s ->
      reconnectInterval (onClose code s) = Some 1000%Z /\
      isReconnecting (onClose code s) = true /\
      reconnectAttempts (onClose code s) = S (reconnectAttempts s)) /\
  (forall code s,
      code <> 1008%Z /\ code <> 1003%Z -> isReconnecting s = false ->
      maxReconnectAttempts s <= reconnectAttempts s ->
      reconnectInterval (onClose code s) = None /\
      connectCalls (onReconnectTimer (onClose code s)) = connectCalls s).
Proof.
  intros Hcodes st.
  assert (Hnonauth : forall c, c <> 1008%Z /\ c <> 1003%Z ->
                               isAuthClose c = false).
  { intros c [H1 H2]. destruct (isAuthClose c) eqn:E; [|reflexivity].
    apply isAuthClose_iff in E. tauto. }
  assert (Hall : Forall (fun c => isAuthClose c = false) codes).
  { eapply Forall_impl; [|exact Hcodes]. exact Hnonauth. }
  destruct (disconnects_count codes (connect (newClientWithMax n)) Hall)
    as (_ & _ & Hatt & Hcalls);
    [split; reflexivity | cbn; lia |].
  fold st in Hatt, Hcalls.
  cbn [connect newClientWithMax reconnectAttempts maxReconnectAttempts
       connectCalls] in Hatt, Hcalls.
  cbn [Nat.add] in Hatt.
  split; [unfold reconnectsMade; lia|]. split; [exact Hatt|].
  split; [|split].
  - intros code s Hauth. apply isAuthClose_iff in Hauth.
    unfold onClose. now rewrite Hauth.
  - intros code s Hcode Hrec Hlt.
    unfold onClose, scheduleReconnect. rewrite (Hnonauth code Hcode).
    cbn [cleanup isReconnecting maxReconnectAttempts reconnectAttempts].
    rewrite Hrec.
    destruct (maxReconnectAttempts s <=? reconnectAttempts s) eqn:E;
      [apply Nat.leb_le in E; lia|].
    cbn. auto.
  - intros code s Hcode Hrec Hge.
    unfold onClose, scheduleReconnect. rewrite (Hnonauth code Hcode).
    cbn [cleanup isReconnecting maxReconnectAttempts reconnectAttempts].
    rewrite Hrec.
    destruct (maxReconnectAttempts s <=? reconnectAttempts s) eqn:E;
      [|apply Nat.leb_gt in E; lia].
    cbn. split; reflexivity.
Qed.

Lemma reconnect_bound_witness :
  let codes := repeat 1006%Z 10 in
  let st := run (disconnects codes) (connect newClient) in
  reconnectsMade st = Nat.min (List.length codes) 10 /\
  reconnectAttempts st = Nat.min (List.length codes) 10 /\
  (forall code s, code = 1008%Z \/ code = 1003%Z -> onClose code s = s) /\
  (forall code s,
      code <> 1008%Z /\ code <> 1003%Z -> isReconnecting s = false ->
      reconnectAttempts s < maxReconnectAttempts s ->
      reconnectInterval (onClose code s) = Some 1000%Z /\
      isReconnecting (onClose code s) = true /\
      reconnectAttempts (onClose code s) = S (reconnectAttempts s)) /\
  (forall code s,
      code <> 1008%Z /\ code <> 1003%Z -> isReconnecting s = false ->
      maxReconnectAttempts s <= reconnectAttempts s ->
      reconnectInterval (onClose code s) = None /\
      connectCalls (onReconnectTimer (onClose code s)) = connectCalls s).
Proof.
  apply (reconnect_bound 10 (repeat 1006%Z 10)).
  repeat constructor; discriminate.
Defined.

End Reconnect.

(** ** The pre-filter on log lines *)

Section Prefilter.
Import JsString Detector Orchestrator.
Local Open Scope list_scope.

Lemma toLowerCase_join (parts : list string) :
  toLowerCase (join parts " ") = join (map toLowerCase parts) " ".
Proof.
  induction parts as [|x rest IH]; [reflexivity|].
  destruct rest as [|y rest']; [reflexivity|].
  change (join (x :: y :: rest') " ")
    with (x ++ " " ++ join (y :: rest') " ")%string.
  rewrite !toLowerCase_app, IH. reflexivity.
Qed.

(** X1: the pre-filter does not depend on the letter case of the log
    lines: two lists of lines that agree after lower-casing get the same
    answer. *)
Theorem prefilter_ignores_case (logs logs' : list string) :
  map toLowerCase logs = map toLowerCase logs' ->
  hasMigrationIndicators (Some logs) = hasMigrationIndicators (Some logs').
Proof.
  intros H. unfold hasMigrationIndicators.
  now rewrite !toLowerCase_join, H.
Qed.

Lemma prefilter_ignores_case_witness :
  hasMigrationIndicators (Some ["Program log: MIGRATE"; "Burn LP"]) =
  hasMigrationIndicators (Some ["program LOG: migrate"; "burn lp"]).
Proof.
  apply (prefilter_ignores_case ["Program log: MIGRATE"; "Burn LP"]
                                ["program LOG: migrate"; "burn lp"]).
  reflexivity.
Defined.

Lemma append_nil_r (s : string) : (s ++ "")%string = s.
Proof. induction s as [|c s IH]; cbn; congruence. Qed.

Lemma join_app (l1 l2 : list string) (sep : string) :
  l1 <> [] -> l2 <> [] ->
  join (l1 ++ l2) sep = (join l1 sep ++ sep ++ join l2 sep)%string.
Proof.
  intros H1 H2. induction l1 as [|x l1 IH]; [congruence|].
  destruct l1 as [|x' r].
  - destruct l2 as [|y l2']; [congruence | reflexivity].
  - change (join ((x :: x' :: r) ++ l2) sep)
      with (x ++ sep ++ join ((x' :: r) ++ l2) sep)%string.
    rewrite IH by discriminate.
    change (join (x :: x' :: r) sep)
      with (x ++ sep ++ join (x' :: r) sep)%string.
    now rewrite !append_assoc.
Qed.

(** The text of a list of lines occurs in the text of every list that
    contains these lines in a row. *)
Lemma join_middle (before logs after : list string) (sep : string) :
  exists a b,
    join (before ++ logs ++ after) sep = (a ++ join logs sep ++ b)%string.
Proof.
  destruct logs as [|l logs'].
  - exists (join (before ++ after) sep), "". cbn [app join append].
    now rewrite append_nil_r.
  - destruct before as [|x before'], after as [|y after'].
    + exists "", "". cbn [app append]. now rewrite app_nil_r, append_nil_r.
    + exists "", (sep ++ join (y :: after') sep)%string. cbn [app append].
      change (l :: logs' ++ y :: after') with ((l :: logs') ++ y :: after').
      now rewrite join_app by discriminate.
    + exists (join (x :: before') sep ++ sep)%string, "".
      rewrite app_nil_r, join_app by discriminate.
      now rewrite append_nil_r, !append_assoc.
    + exists (join (x :: before') sep ++ sep)%string,
             (sep ++ join (y :: after') sep)%string.
      rewrite join_app by discriminate.
      rewrite (join_app (l :: logs') (y :: after')) by discriminate.
      now rewrite !append_assoc.
Qed.

Lemma includes_join_middle (before logs after : list string)
      (needle : string) :
  includes (join logs " ") needle = true ->
  includes (join (before ++ logs ++ after) " ") needle = true.
Proof.
  intros H. destruct (join_middle before logs after " ") as (a & b & ->).
  apply includes_split in H. destruct H as (a' & b' & ->).
  apply includes_split. exists (a ++ a')%string, (b' ++ b)%string.
  now rewrite !append_assoc.
Qed.

(** X2: further log lines never turn the pre-filter off: when it accepts a
    list of lines it accepts every list that contains these lines in a
    row, whatever comes before and after them. *)
Theorem prefilter_monotone (before logs after : list string) :
  hasMigrationIndicators (Some logs) = true ->
  hasMigrationIndicators (Some (before ++ logs ++ after)) = true.
Proof.
  unfold hasMigrationIndicators.
  rewrite !toLowerCase_join, !map_app.
  set (b := map toLowerCase before). set (l := map toLowerCase logs).
  set (a := map toLowerCase after).
  pose proof (includes_join_middle b l a) as Hmid.
  intros H. rewrite !orb_true_iff, andb_true_iff in H.
  destruct H as [[[H|H]|[H1 H2]]|H].
  - rewrite (Hmid _ H). reflexivity.
  - rewrite (Hmid _ H). now rewrite orb_true_r.
  - rewrite (Hmid _ H1), (Hmid _ H2). now rewrite !orb_true_r.
  - rewrite (Hmid _ H). now rewrite !orb_true_r.
Qed.

Lemma prefilter_monotone_witness :
  hasMigrationIndicators
    (Some (["Program log: Instruction: Buy"] ++
           ["Program log: Instruction: Migrate"] ++
           ["Program consumed 1 units"])) = true.
Proof.
  apply (prefilter_monotone ["Program log: Instruction: Buy"]
                            ["Program log: Instruction: Migrate"]
                            ["Program consumed 1 units"]).
  reflexivity.
Defined.

End Prefilter.

(** ** The earlier detector and the present one *)

Section Detectors.
Import JsString Detector Spec.
Local Open Scope list_scope.

Lemma filter_nonempty {A : Type} (f : A -> bool) (l : list A) :
  (0 <? List.length (filter f l)) = true <->
  exists x, In x l /\ f x = true.
Proof.
  rewrite Nat.ltb_lt. split.
  - destruct (filter f l) as [|x rest] eqn:E; [cbn; lia|]. intros _.
    exists x. apply filter_In. rewrite E. now left.
  - intros (x & Hin & Hx).
    assert (H : In x (filter f l)) by (apply filter_In; now split).
    destruct (filter f l); [contradiction | cbn; lia].
Qed.

(** The log test of the earlier detector. *)
Lemma old_log_test (cfg : Config) (ixs : list Instruction)
      (logs : list string) (log : string) :
  In log logs ->
  includes (toLowerCase log) "migrate" = true \/
  includes (toLowerCase log) "migration" = true ->
  OldDetector.hasMigrateInstruction cfg ixs logs = true.
Proof.
  intros Hin Hlog. unfold OldDetector.hasMigrateInstruction.
  assert (H : (0 <? List.length
                      (filter (fun log =>
                                 includes (toLowerCase log) "migrate" ||
                                 includes (toLowerCase log) "migration")
                              logs)) = true).
  { apply filter_nonempty. exists log. split; [exact Hin|].
    destruct Hlog as [-> | ->]; [reflexivity | apply orb_true_r]. }
  now rewrite H.
Qed.

Lemma transfer_implies_migrate (cfg : Config) (ixs : list Instruction)
      (logs : list string) :
  OldDetector.hasMigrationTransfer logs = true ->
  OldDetector.hasMigrateInstruction cfg ixs logs = true.
Proof.
  unfold OldDetector.hasMigrationTransfer. rewrite existsb_exists.
  intros (log & Hin & H). apply old_log_test with (log := log);
    [exact Hin|]. right.
  apply orb_true_iff in H. destruct H as [H|H]; [|exact H].
  now apply includes_trans with (m := "pump.fun: migration").
Qed.

Lemma old_detect_shape (cfg : Config) (t : TxRecord) (m : Meta)
      (tr : Transaction) (msg : Message) (sig : string) :
  meta t = Some m -> truthyRef (err m) = false ->
  transaction t = Some tr -> message tr = Some msg ->
  OldDetector.detectMigrationFromTransaction cfg (Some t) sig =
  if OldDetector.hasMigrateInstruction cfg (listOf (instructions msg))
                                       (listOf (logMessages m)) ||
     (OldDetector.hasPoolCreation cfg (listOf (instructions msg))
                                  (listOf (logMessages m)) &&
      OldDetector.hasLpTokenBurn (listOf (logMessages m)) &&
      OldDetector.hasMigrationTransfer (listOf (logMessages m)))
  then Normal (mkResult true
                 (OldDetector.extractTokenMint (listOf (instructions msg)))
                 (Some sig))
  else Normal notMigration.
Proof.
  intros Hm He Ht Hmsg. unfold OldDetector.detectMigrationFromTransaction.
  rewrite Hm, He, Ht, Hmsg. unfold listOf.
  destruct (OldDetector.hasMigrateInstruction _ _ _ || _); reflexivity.
Qed.

(** X3: in the earlier detector the combination of pool creation, LP burn
    and migration transfer never adds a detection: a record is classified
    as a migration exactly when [hasMigrateInstruction] holds, because a
    migration transfer log already satisfies the keyword test of
    [hasMigrateInstruction]. *)
Theorem old_combination_redundant
        (cfg : Config) (t : TxRecord) (m : Meta) (tr : Transaction)
        (msg : Message) (sig : string) :
  meta t = Some m -> truthyRef (err m) = false ->
  transaction t = Some tr -> message tr = Some msg ->
  exists r,
    OldDetector.detectMigrationFromTransaction cfg (Some t) sig = Normal r /\
    isMigration r =
    OldDetector.hasMigrateInstruction cfg (listOf (instructions msg))
                                      (listOf (logMessages m)) /\
    (OldDetector.hasMigrationTransfer (listOf (logMessages m)) = true ->
     isMigration r = true).
Proof.
  intros Hm He Ht Hmsg.
  rewrite (old_detect_shape cfg t m tr msg sig Hm He Ht Hmsg).
  set (ixs := listOf (instructions msg)).
  set (logs := listOf (logMessages m)).
  pose proof (transfer_implies_migrate cfg ixs logs) as Htr.
  destruct (OldDetector.hasMigrateInstruction cfg ixs logs) eqn:E.
  - cbn [orb]. eexists. split; [reflexivity|]. now split.
  - destruct (OldDetector.hasMigrationTransfer logs) eqn:Et;
      [now specialize (Htr eq_refl)|].
    rewrite andb_false_r. cbn [orb]. eexists. split; [reflexivity|].
    split; [reflexivity | discriminate].
Qed.

Lemma old_combination_redundant_witness :
  exists r,
    OldDetector.detectMigrationFromTransaction
      Examples.cfg (Some Examples.twoMintsTx) "SIG1" = Normal r /\
    isMigration r =
    OldDetector.hasMigrateInstruction
      Examples.cfg
      (listOf (Some [mkIx (Some RefObj) None None None (Some [Some 2%Z])]))
      (listOf (Some Examples.migrateLogs)) /\
    (OldDetector.hasMigrationTransfer (listOf (Some Examples.migrateLogs))
     = true -> isMigration r = true).
Proof.
  exact (old_combination_redundant
           Examples.cfg Examples.twoMintsTx
           (mkMeta None (Some Examples.migrateLogs))
           (mkTransaction
              (Some (mkMessage
                       (Some [mkIx (Some RefObj) None None None
                                   (Some [Some 2%Z])])
                       (Some [KeyStr Examples.payer; KeyStr Examples.mintA;
                              KeyStr Examples.mintB]))))
           (mkMessage
              (Some [mkIx (Some RefObj) None None None (Some [Some 2%Z])])
              (Some [KeyStr Examples.payer; KeyStr Examples.mintA;
                     KeyStr Examples.mintB]))
           "SIG1" eq_refl eq_refl eq_refl eq_refl).
Defined.

Lemma new_test_implies_old (cfg : Config) (ixs : list Instruction)
      (logs : list string) :
  hasMigrateInstruction cfg ixs logs = true ->
  OldDetector.hasMigrateInstruction cfg ixs logs = true.
Proof.
  unfold hasMigrateInstruction.
  destruct (hasMigrateLog logs) eqn:E.
  - intros _. apply hasMigrateLog_iff in E. destruct E as (log & Hin & Hl).
    apply old_log_test with (log := log); [exact Hin|]. left.
    apply includes_trans with (m := toLowerCase migrateMarker);
      [now apply includes_toLowerCase | reflexivity].
  - intros H. unfold OldDetector.hasMigrateInstruction. rewrite H.
    now destruct (0 <? _).
Qed.

Lemma old_extract_payload (ixs : list Instruction) :
  OldDetector.extractTokenMint ixs = tierCAmended ixs.
Proof.
  unfold tierCAmended. induction ixs as [|ix rest IH]; [reflexivity|].
  cbn [OldDetector.extractTokenMint map firstSome].
  rewrite <- payloadMint_amended. now destruct (payloadMint ix).
Qed.

(** X4: the present detector is the stricter one.  Whatever it classifies
    as a migration the earlier detector classifies as a migration too,
    with the same signature; and a token mint the earlier detector finds
    is the one the present detector returns, unless the present one
    returns a vanity-suffix address of the account list instead. *)
Theorem present_detection_implies_earlier
        (cfg : Config) (tx : option TxRecord) (sig : string)
        (r : MigrationDetectionResult) :
  detectMigrationFromTransaction cfg tx sig = Normal r ->
  isMigration r = true ->
  exists r',
    OldDetector.detectMigrationFromTransaction cfg tx sig = Normal r' /\
    isMigration r' = true /\
    resultSignature r' = resultSignature r /\
    (forall m, resultTokenMint r' = Some m ->
               resultTokenMint r = Some m \/
               exists a, resultTokenMint r = Some a /\
                         looksLikeMintAddress a = true).
Proof.
  intros Hdet Hmig. destruct tx as [t|];
    [|inversion Hdet; subst r; discriminate].
  unfold detectMigrationFromTransaction in Hdet.
  destruct (meta t) as [m|] eqn:Hm;
    [|inversion Hdet; subst r; discriminate].
  destruct (truthyRef (err m)) eqn:He;
    [inversion Hdet; subst r; discriminate|].
  destruct (transaction t) as [tr|] eqn:Ht; [|discriminate].
  destruct (message tr) as [msg|] eqn:Hmsg; [|discriminate].
  fold (listOf (instructions msg)) in Hdet.
  fold (listOf (logMessages m)) in Hdet.
  rewrite (old_detect_shape cfg t m tr msg sig Hm He Ht Hmsg).
  set (ixs := listOf (instructions msg)) in *.
  set (logs := listOf (logMessages m)) in *.
  destruct (hasMigrateInstruction cfg ixs logs) eqn:Enew;
    [|inversion Hdet; subst r; discriminate].
  rewrite (new_test_implies_old cfg ixs logs Enew). cbn [orb].
  destruct (negb _) in Hdet; inversion Hdet; subst r; [discriminate|].
  eexists. split; [reflexivity|]. split; [reflexivity|].
  split; [reflexivity|].
  cbn [resultTokenMint]. intros mint Hold.
  rewrite old_extract_payload in Hold.
  rewrite extractTokenMint_tiers. unfold extractByPriorityAmended.
  cbn [firstSome].
  destruct (tierA (accountKeysArray (Some tr))) as [a|] eqn:Ha.
  - right. exists a. split; [reflexivity|].
    unfold tierA in Ha. now apply find_some in Ha.
  - rewrite (tierB_none _ ixs Ha), Hold. now left.
Qed.

Lemma present_detection_implies_earlier_witness :
  exists r',
    OldDetector.detectMigrationFromTransaction
      Examples.cfg (Some Examples.twoMintsTx) "SIG1" = Normal r' /\
    isMigration r' = true /\
    resultSignature r' =
    resultSignature (mkResult true (Some Examples.mintA) (Some "SIG1")) /\
    (forall m, resultTokenMint r' = Some m ->
               resultTokenMint
                 (mkResult true (Some Examples.mintA) (Some "SIG1"))
               = Some m \/
               exists a,
                 resultTokenMint
                   (mkResult true (Some Examples.mintA) (Some "SIG1"))
                 = Some a /\ looksLikeMintAddress a = true).
Proof.
  apply (present_detection_implies_earlier
           Examples.cfg (Some Examples.twoMintsTx) "SIG1"
           (mkResult true (Some Examples.mintA) (Some "SIG1")));
    reflexivity.
Defined.

(** X5: the pre-filter of the entry point lets through every event the
    earlier detector would accept on its log lines alone: log lines that
    satisfy its keyword test, or its migration-transfer test, satisfy
    [hasMigrationIndicators]. *)
Theorem prefilter_covers_earlier_detector
        (cfg : Config) (logs : list string) :
  OldDetector.hasMigrateInstruction cfg [] logs = true \/
  OldDetector.hasMigrationTransfer logs = true ->
  Orchestrator.hasMigrationIndicators (Some logs) = true.
Proof.
  intros H.
  assert (Hold : OldDetector.hasMigrateInstruction cfg [] logs = true).
  { destruct H as [H|H]; [exact H | now apply transfer_implies_migrate]. }
  unfold OldDetector.hasMigrateInstruction in Hold.
  destruct (0 <? _) eqn:E in Hold; [|discriminate].
  apply filter_nonempty in E. destruct E as (log & Hin & Hlog).
  unfold Orchestrator.hasMigrationIndicators.
  apply orb_true_iff in Hlog.
  assert (Hjoin : forall needle,
             includes (toLowerCase log) needle = true ->
             includes (toLowerCase (join logs " ")) needle = true).
  { intros needle Hn. rewrite toLowerCase_join.
    apply includes_join with (x := toLowerCase log); [|exact Hn].
    now apply in_map. }
  destruct Hlog as [Hl|Hl]; rewrite (Hjoin _ Hl);
    [reflexivity | now rewrite orb_true_r].
Qed.

Lemma prefilter_covers_earlier_detector_witness :
  Orchestrator.hasMigrationIndicators
    (Some ["Transfer to Pump.fun: Migration"]) = true.
Proof.
  apply (prefilter_covers_earlier_detector
           Examples.cfg ["Transfer to Pump.fun: Migration"]).
  right. reflexivity.
Defined.

End Detectors.

(** ** Where an extracted token mint comes from *)

Section Provenance.
Import JsString Detector Spec.
Local Open Scope list_scope.

Lemma scanAccounts_some (keys : list string) (idxs : list (option Z))
      (a : string) :
  scanAccounts keys idxs = Some a ->
  In a keys /\ looksLikeMintAddress a = true.
Proof.
  induction idxs as [|[index|] rest IH]; cbn [scanAccounts];
    [discriminate| |exact IH].
  destruct ((0 <=? index)%Z && (index <? Z.of_nat (List.length keys))%Z);
    [|exact IH].
  destruct (nth_error keys (Z.to_nat index)) as [account|] eqn:Hnth;
    [|exact IH].
  destruct (looksLikeMintAddress account) eqn:Hl; [|exact IH].
  intros H. inversion H; subst a. split; [|exact Hl].
  now apply nth_error_In in Hnth.
Qed.

Lemma scanInstructions_some (keys : list string) (ixs : list Instruction)
      (a : string) :
  scanInstructions keys ixs = Some a ->
  (exists ix, In ix ixs /\ payloadMint ix = Some a) \/
  (In a keys /\ looksLikeMintAddress a = true).
Proof.
  induction ixs as [|ix rest IH]; cbn [scanInstructions]; [discriminate|].
  destruct (payloadMint ix) as [m|] eqn:Hp.
  - intros H. inversion H; subst a. left. exists ix. split; [now left|].
    exact Hp.
  - unfold ixAccounts. destruct (accounts ix) as [idxs|].
    + destruct (scanAccounts keys idxs) as [b|] eqn:Hs.
      * intros H. inversion H; subst a. right.
        now apply scanAccounts_some with (idxs := idxs).
      * intros H. destruct (IH H) as [(ix' & Hin & Hx)|Hk]; [|now right].
        left. exists ix'. split; [now right | exact Hx].
    + intros H. destruct (IH H) as [(ix' & Hin & Hx)|Hk]; [|now right].
      left. exists ix'. split; [now right | exact Hx].
Qed.

Lemma payloadMint_nonempty (ix : Instruction) (a : string) :
  payloadMint ix = Some a -> a <> "".
Proof.
  unfold payloadMint, orStr.
  destruct (strictEq (parsedType ix) "transfer" ||
            strictEq (parsedType ix) "transferChecked");
    destruct (infoMint ix) as [x|]; destruct (infoTokenMint ix) as [y|];
    cbn [truthyStr];
    try destruct (String.eqb x "") eqn:Ex;
    try destruct (String.eqb y "") eqn:Ey;
    cbn [negb truthyStr]; rewrite ?Ex, ?Ey; cbn [negb];
    intros H; inversion H; subst;
    intros Hempty; subst; discriminate.
Qed.

Lemma length44_nonempty (a : string) :
  (String.length a =? 44) = true -> a <> "".
Proof. intros H ->. discriminate. Qed.

(** X6: [extractTokenMint] never makes an address up.  What it returns is
    not empty, and it is either one of the account keys of the
    transaction, 44 characters long, that ends in [pump] or is none of the
    skipped program addresses, or the [mint] / [tokenMint] member of the
    payload of one of the instructions. *)
Theorem tokenMint_provenance
        (cfg : Config) (tx : option Transaction) (ixs : list Instruction)
        (a : string) :
  extractTokenMint cfg tx ixs = Some a ->
  a <> "" /\
  ((In a (accountKeysArray tx) /\ String.length a = 44 /\
    (endsWith a "pump" = true \/ isSkipped cfg a = false)) \/
   (exists ix, In ix ixs /\
               (infoMint ix = Some a \/ infoTokenMint ix = Some a))).
Proof.
  unfold extractTokenMint. set (keys := accountKeysArray tx).
  assert (Hmint : forall b, In b keys -> looksLikeMintAddress b = true ->
                            b <> "" /\ In b keys /\ String.length b = 44 /\
                            (endsWith b "pump" = true \/
                             isSkipped cfg b = false)).
  { intros b Hin Hl. unfold looksLikeMintAddress in Hl.
    apply andb_true_iff in Hl. destruct Hl as [Hp Hlen].
    split; [now apply length44_nonempty|]. split; [exact Hin|].
    split; [now apply Nat.eqb_eq | now left]. }
  destruct (find looksLikeMintAddress keys) as [b|] eqn:Hfind.
  - intros H. inversion H; subst b. apply find_some in Hfind.
    destruct (Hmint a (proj1 Hfind) (proj2 Hfind)) as (Hne & Hrest).
    split; [exact Hne | now left].
  - destruct (scanInstructions keys ixs) as [m|] eqn:Hscan.
    + intros H. inversion H; subst m.
      destruct (scanInstructions_some keys ixs a Hscan)
        as [(ix & Hin & Hp)|[Hin Hl]].
      * split; [now apply payloadMint_nonempty with (ix := ix)|].
        right. exists ix. split; [exact Hin|].
        now apply payloadMint_field.
      * destruct (Hmint a Hin Hl) as (Hne & Hrest).
        split; [exact Hne | now left].
    + intros H. apply find_some in H. destruct H as [Hin Hf].
      unfold isFallback in Hf. apply andb_true_iff in Hf.
      destruct Hf as [Hlen Hskip]. apply negb_true_iff in Hskip.
      split; [now apply length44_nonempty|]. left.
      split; [exact Hin|]. split; [now apply Nat.eqb_eq | now right].
Qed.

Lemma tokenMint_provenance_witness :
  Examples.mintA <> "" /\
  ((In Examples.mintA
       (accountKeysArray
          (Some (mkTransaction
                   (Some (mkMessage
                            None
                            (Some [KeyStr Examples.payer;
                                   KeyStr Examples.mintA])))))) /\
    String.length Examples.mintA = 44 /\
    (endsWith Examples.mintA "pump" = true \/
     isSkipped Examples.cfg Examples.mintA = false)) \/
   (exists ix, In ix [] /\
               (infoMint ix = Some Examples.mintA \/
                infoTokenMint ix = Some Examples.mintA))).
Proof.
  apply (tokenMint_provenance
           Examples.cfg
           (Some (mkTransaction
                    (Some (mkMessage
                             None
                             (Some [KeyStr Examples.payer;
                                    KeyStr Examples.mintA])))))
           [] Examples.mintA).
  reflexivity.
Defined.

End Provenance.

(** ** Invariants of a run of the entry point *)

Section RunInvariants.
Import JsString Detector Orchestrator Spec Queue.
Local Open Scope list_scope.

Lemma setProcessed_same (st : State) :
  setProcessed st (processedSignatures st) = st.
Proof. now destruct st. Qed.

(** How the [try] block can end. *)
Lemma tryBlock_cases (cfg : Config) (w : World) (sig : string)
      (st : State) :
  exists ledger eff thrown,
    tryBlock cfg w sig st = (setProcessed st ledger, eff, thrown) /\
    ((ledger = processedSignatures st /\
      (eff = [] \/ eff = [Fetched sig] \/
       eff = [Fetched sig; Classified sig false])) \/
     (has sig (processedSignatures st) = false /\
      (ledger = processedSignatures st ++ [sig] \/
       ledger = cleanupProcessed (processedSignatures st ++ [sig])) /\
      (eff = [Fetched sig; Classified sig true] \/
       exists m td,
         eff = [Fetched sig; Classified sig true; AlertSent m td]))).
Proof.
  unfold tryBlock.
  destruct (has sig (processedSignatures st)) eqn:Hhas.
  { exists (processedSignatures st), [], None.
    rewrite setProcessed_same. split; [reflexivity|]. left. auto. }
  destruct (getParsedTransaction w sig) as [[tx|]|e].
  2:{ exists (processedSignatures st), [Fetched sig], None.
      rewrite setProcessed_same. split; [reflexivity|]. left. auto. }
  2:{ exists (processedSignatures st), [Fetched sig], (Some e).
      rewrite setProcessed_same. split; [reflexivity|]. left. auto. }
  destruct (detectMigrationFromTransaction cfg (Some tx) sig) as [r|e].
  2:{ exists (processedSignatures st), [Fetched sig], (Some e).
      rewrite setProcessed_same. split; [reflexivity|]. left. auto. }
  destruct (isMigration r); cbn [negb].
  2:{ exists (processedSignatures st),
             [Fetched sig; Classified sig false], None.
      rewrite setProcessed_same. split; [reflexivity|]. left. auto. }
  rewrite (add_new sig _ Hhas).
  repeat match goal with
         | |- context [match ?x with _ => _ end] => destruct x
         end;
    eexists; eexists; eexists;
    (split; [reflexivity|]); right;
    cbn [processedSignatures setProcessed];
    (split; [reflexivity|]); (split; [auto|]); cbn [app]; eauto.
Qed.

(** How [fetchAndProcessTransaction] can end: the ledger and the effects
    are those of the [try] block, and nothing else of the state changes
    but the retry timers. *)
Lemma fetchAndProcess_cases (cfg : Config) (w : World) (sig : string)
      (st : State) :
  exists st' eff,
    fetchAndProcessTransaction cfg w sig st = (st', eff) /\
    pendingFetches st' = pendingFetches st /\
    lastFetchTime st' = lastFetchTime st /\
    clock st' = clock st /\
    ((processedSignatures st' = processedSignatures st /\
      (eff = [] \/ eff = [Fetched sig] \/
       eff = [Fetched sig; Classified sig false])) \/
     (has sig (processedSignatures st) = false /\
      (processedSignatures st' = processedSignatures st ++ [sig] \/
       processedSignatures st' =
       cleanupProcessed (processedSignatures st ++ [sig])) /\
      (eff = [Fetched sig; Classified sig true] \/
       exists m td,
         eff = [Fetched sig; Classified sig true; AlertSent m td]))).
Proof.
  unfold fetchAndProcessTransaction.
  destruct (tryBlock_cases cfg w sig st)
    as (ledger & eff & thrown & -> & H).
  destruct thrown as [e|]; eexists; eexists; (split; [reflexivity|]).
  - unfold catchHandler. destruct (isRateLimit e);
      cbn [setTimeout addTimer setProcessed pendingFetches lastFetchTime
           clock processedSignatures]; repeat split; try reflexivity;
      exact H.
  - cbn [setProcessed pendingFetches lastFetchTime clock
         processedSignatures]. repeat split; try reflexivity; exact H.
Qed.

Lemma fetchAndProcess_outcome (cfg : Config) (w : World) (sig : string)
      (st : State) :
  exists st' eff,
    fetchAndProcessTransaction cfg w sig st = (st', eff) /\
    pendingFetches st' = pendingFetches st /\
    lastFetchTime st' = lastFetchTime st /\
    clock st' = clock st /\
    outcome sig (processedSignatures st) (processedSignatures st') eff.
Proof.
  destruct (fetchAndProcess_cases cfg w sig st)
    as (st' & eff & H & Hp & Hl & Hc & Hout).
  exists st', eff. repeat split; assumption.
Qed.

Lemma outcome_counts (sig : string) (before after : list string)
      (eff : list Effect) :
  outcome sig before after eff ->
  alerts eff <= positives eff /\ positives eff <= fetches eff /\
  fetches eff <= 1 /\
  (forall s, fetchCount s eff <= if String.eqb sig s then 1 else 0) /\
  (forall s, classifyCount s eff <= fetchCount s eff).
Proof.
  assert (Hsym : forall s, String.eqb s sig = String.eqb sig s)
    by (intros s; apply String.eqb_sym).
  intros [[_ [->|[->| ->]]]|(_ & _ & [->|(m & td & ->)])];
    unfold alerts, positives, fetches, fetchCount, classifyCount;
    cbn [filter isAlert isPositive isAnyFetch isFetch isClassify
         List.length];
    repeat split; try lia; intros s; rewrite ?Hsym;
    destruct (String.eqb sig s); cbn [List.length]; lia.
Qed.

Lemma outcome_NoDup (sig : string) (before after : list string)
      (eff : list Effect) :
  outcome sig before after eff -> NoDup before -> NoDup after.
Proof.
  intros [[-> _]|(Hnew & Hafter & _)] Hnd; [exact Hnd|].
  assert (Hnd' : NoDup (before ++ [sig])).
  { apply NoDup_app; [exact Hnd | repeat constructor; intros [] |].
    intros x Hx [<-|[]]. apply has_false_not_In in Hnew. contradiction. }
  destruct Hafter as [-> | ->]; [exact Hnd'|].
  rewrite (cleanupProcessed_skipn _ Hnd'). now apply NoDup_skipn.
Qed.

Lemma In_skipn {A : Type} (k : nat) (l : list A) (x : A) :
  In x (skipn k l) -> In x l.
Proof.
  intros H. rewrite <- (firstn_skipn k l). apply in_or_app. now right.
Qed.

Lemma In_cleanupProcessed (set : list string) (x : string) :
  In x (cleanupProcessed set) -> In x set.
Proof.
  unfold cleanupProcessed. destruct (1000 <? List.length set); [|auto].
  rewrite delete_batch. intros H. now apply filter_In in H.
Qed.

Lemma outcome_provenance (sig : string) (before after : list string)
      (eff : list Effect) (s : string) :
  outcome sig before after eff -> In s after ->
  In s before \/ In (Classified s true) eff.
Proof.
  intros [[-> _]|(_ & Hafter & Heff)] Hin; [now left|].
  assert (Hs : In s (before ++ [sig])).
  { destruct Hafter as [-> | ->]; [exact Hin|].
    now apply In_cleanupProcessed. }
  apply in_app_or in Hs. destruct Hs as [Hs|[<-|[]]]; [now left|].
  right. destruct Heff as [->|(m & td & ->)]; cbn; auto.
Qed.

Lemma afterWait_bound (st : State) :
  (lastFetchTime st + 100 <= afterWait st)%Z /\ (clock st <= afterWait st)%Z.
Proof.
  unfold afterWait, minFetchInterval.
  destruct (clock st - lastFetchTime st <? 100)%Z eqn:E.
  - apply Z.ltb_lt in E. lia.
  - apply Z.ltb_ge in E. lia.
Qed.

(** One iteration of the queue loop. *)
Lemma processQueueItem_outcome (cfg : Config) (w : World) (st : State) :
  exists st' eff,
    processQueueItem cfg w st = (st', eff) /\
    pendingFetches st' = tl (pendingFetches st) /\
    (lastFetchTime st + 100 * Z.of_nat (fetches eff)
     <= lastFetchTime st')%Z /\
    (exists sig,
        outcome sig (processedSignatures st) (processedSignatures st') eff /\
        (eff <> [] ->
         exists item rest, pendingFetches st = item :: rest /\
                           signature item = sig)).
Proof.
  unfold processQueueItem.
  destruct (pendingFetches st) as [|item rest] eqn:Hq.
  - exists st, []. split; [reflexivity|]. split; [exact Hq|].
    split; [cbn; lia|].
    exists "". split; [left; auto | congruence].
  - destruct (30000 <? clock st - timestamp item)%Z.
    + eexists; eexists. split; [reflexivity|].
      cbn [pendingFetches lastFetchTime processedSignatures tl].
      split; [reflexivity|]. split; [cbn; lia|].
      exists "". split; [left; auto | congruence].
    + set (st0 := mkState (processedSignatures st) rest (retryTimers st)
                          (afterWait st) (afterWait st)).
      destruct (fetchAndProcess_outcome cfg w (signature item) st0)
        as (st' & eff & -> & Hp & Hl & _ & Hout).
      exists st', eff. split; [reflexivity|]. split; [exact Hp|].
      split.
      * rewrite Hl. cbn [st0 lastFetchTime].
        destruct (outcome_counts _ _ _ _ Hout) as (_ & _ & Hf & _).
        pose proof (afterWait_bound st). nia.
      * exists (signature item). split; [exact Hout|].
        intros _. now exists item, rest.
Qed.

Lemma runDue_fields (timers : list (Z * string)) (st : State) :
  processedSignatures (runDue timers st) = processedSignatures st /\
  lastFetchTime (runDue timers st) = lastFetchTime st.
Proof.
  revert st. induction timers as [|[due sig] rest IH]; intros st;
    [now split|].
  cbn [runDue]. destruct (due <=? clock st)%Z; [|apply IH].
  destruct (IH (retryCallback sig st)) as [-> ->].
  unfold retryCallback.
  now destruct (negb (has sig (processedSignatures st))).
Qed.

(** One event of the event loop. *)
Lemma step_outcome (cfg : Config) (ev : Event) (st : State) :
  exists st' eff,
    step cfg ev st = (st', eff) /\
    (lastFetchTime st + 100 * Z.of_nat (fetches eff)
     <= lastFetchTime st')%Z /\
    exists sig,
      outcome sig (processedSignatures st) (processedSignatures st') eff.
Proof.
  destruct ev as [msg|w|dt]; cbn [step].
  - eexists; eexists. split; [reflexivity|].
    split; [unfold onMessage; destruct (readMessage msg) as [[s|] logs];
            repeat match goal with
                   | |- context [if ?b then _ else _] => destruct b
                   end; cbn; lia|].
    exists "". left. split; [apply onMessage_processed | auto].
  - destruct (processQueueItem_outcome cfg w st)
      as (st' & eff & -> & _ & Hl & sig & Hout & _).
    exists st', eff. split; [reflexivity|]. split; [exact Hl|].
    now exists sig.
  - eexists; eexists. split; [reflexivity|]. unfold advance.
    match goal with
    | |- context [runDue ?t ?s] => destruct (runDue_fields t s) as [Hp Hl]
    end.
    rewrite Hl, Hp. cbn [lastFetchTime processedSignatures].
    split; [cbn; lia|]. exists "". left. auto.
Qed.

Lemma fetches_app (a b : list Effect) :
  fetches (a ++ b) = fetches a + fetches b.
Proof. unfold fetches. now rewrite filter_app, length_app. Qed.

Lemma positives_app (a b : list Effect) :
  positives (a ++ b) = positives a + positives b.
Proof. unfold positives. now rewrite filter_app, length_app. Qed.

Lemma alerts_app (a b : list Effect) :
  alerts (a ++ b) = alerts a + alerts b.
Proof. unfold alerts. now rewrite filter_app, length_app. Qed.

(** X7: the rate limit.  Over any sequence of stream messages, queue
    iterations and timer expiries, [lastFetchTime] moves forward by at
    least [minFetchInterval] (100 ms) for every transaction fetched: [n]
    fetches are spread over at least [100 * n] ms of dispatch time. *)
Theorem fetch_rate_limited (cfg : Config) (evs : list Event) (st : State) :
  (lastFetchTime st + 100 * Z.of_nat (fetches (snd (run cfg evs st)))
   <= lastFetchTime (fst (run cfg evs st)))%Z.
Proof.
  revert st. induction evs as [|ev rest IH]; intros st; [cbn; lia|].
  rewrite run_cons. cbn [fst snd].
  destruct (step_outcome cfg ev st) as (st1 & eff1 & -> & Hl & _).
  cbn [fst snd]. specialize (IH st1). rewrite fetches_app. lia.
Qed.

(** X8: over any sequence of events, no alert is sent without a positive
    classification and no transaction is classified without having been
    fetched: the alerts are at most as many as the positive
    classifications, and these at most as many as the fetches. *)
Theorem alerts_need_detection (cfg : Config) (evs : list Event)
        (st : State) :
  alerts (snd (run cfg evs st)) <= positives (snd (run cfg evs st)) /\
  positives (snd (run cfg evs st)) <= fetches (snd (run cfg evs st)).
Proof.
  revert st. induction evs as [|ev rest IH]; intros st; [cbn; lia|].
  rewrite run_cons. cbn [fst snd].
  destruct (step_outcome cfg ev st) as (st1 & eff1 & -> & _ & sig & Hout).
  cbn [fst snd]. specialize (IH st1).
  destruct (outcome_counts _ _ _ _ Hout) as (Ha & Hp & _).
  rewrite alerts_app, positives_app, fetches_app. lia.
Qed.

(** X9: the ledger over any sequence of events.  It never holds a
    signature twice, and every signature in it was there at the start or
    belongs to a transaction that was classified as a migration during
    the run. *)
Theorem ledger_invariant (cfg : Config) (evs : list Event) (st : State) :
  NoDup (processedSignatures st) ->
  NoDup (processedSignatures (fst (run cfg evs st))) /\
  forall s, In s (processedSignatures (fst (run cfg evs st))) ->
            In s (processedSignatures st) \/
            In (Classified s true) (snd (run cfg evs st)).
Proof.
  revert st. induction evs as [|ev rest IH]; intros st Hnd.
  - cbn. split; [exact Hnd | auto].
  - rewrite run_cons. cbn [fst snd].
    destruct (step_outcome cfg ev st) as (st1 & eff1 & -> & _ & sig & Hout).
    cbn [fst snd].
    destruct (IH st1 (outcome_NoDup _ _ _ _ Hout Hnd)) as [Hnd2 Hprov].
    split; [exact Hnd2|]. intros s Hs.
    destruct (Hprov s Hs) as [H1|H2].
    + destruct (outcome_provenance _ _ _ _ s Hout H1) as [H|H];
        [now left | right; apply in_or_app; now left].
    + right. apply in_or_app. now right.
Qed.

Lemma ledger_invariant_witness :
  NoDup (processedSignatures
           (fst (run Examples.cfg
                     [Message (Examples.logsNotification
                                 "SIG1" Examples.migrateLogs);
                      Dequeue (Examples.worldOf Examples.migrationTx)]
                     (initialState 0)))) /\
  forall s,
    In s (processedSignatures
            (fst (run Examples.cfg
                      [Message (Examples.logsNotification
                                  "SIG1" Examples.migrateLogs);
                       Dequeue (Examples.worldOf Examples.migrationTx)]
                      (initialState 0)))) ->
    In s (processedSignatures (initialState 0)) \/
    In (Classified s true)
       (snd (run Examples.cfg
                 [Message (Examples.logsNotification
                             "SIG1" Examples.migrateLogs);
                  Dequeue (Examples.worldOf Examples.migrationTx)]
                 (initialState 0))).
Proof.
  apply (ledger_invariant
           Examples.cfg
           [Message (Examples.logsNotification "SIG1" Examples.migrateLogs);
            Dequeue (Examples.worldOf Examples.migrationTx)]
           (initialState 0)).
  constructor.
Defined.

End RunInvariants.

(** ** The queue loop *)

Section QueueLoop.
Import JsString Detector Orchestrator Spec Queue.
Local Open Scope list_scope.

Lemma fetchAndProcess_unknown (cfg : Config) (w : World) (sig : string)
      (st : State) :
  has sig (processedSignatures st) = false ->
  unknownTokenPath cfg w sig ->
  processedSignatures (fst (fetchAndProcessTransaction cfg w sig st)) =
  processedSignatures st ++ [sig].
Proof.
  intros Hnew (tx & r & m & Hf & Hd & Hm & Hlen & Hp & Ht & Hd').
  unfold fetchAndProcessTransaction, tryBlock.
  rewrite Hnew, Hf, Hd, Hm. cbn [negb].
  destruct (instructionsLength tx) as [n|]; [|congruence].
  rewrite Hp, Ht. cbn [negb]. rewrite Hd'. rewrite (add_new sig _ Hnew).
  destruct (sendMigrationAlert w m (unknownToken (mTokenMint m)));
    cbn [fst]; rewrite ?catchHandler_processed; reflexivity.
Qed.

(** X11: ledger maintenance belongs to the path on which token data was
    found.  When no token data is found for the transactions of distinct
    signatures, each alert goes out with the placeholder data and every
    signature stays in the ledger: the ledger grows by all of them, beyond
    1000 entries too. *)
Theorem ledger_grows_without_token_data
        (cfg : Config) (w : World) (sigs : list string) (st : State) :
  NoDup (processedSignatures st ++ sigs) ->
  (forall sig, In sig sigs -> unknownTokenPath cfg w sig) ->
  processedSignatures (processAll cfg w sigs st) =
  processedSignatures st ++ sigs.
Proof.
  revert st. induction sigs as [|s rest IH]; intros st Hnd Hpath.
  - cbn. now rewrite app_nil_r.
  - change (processAll cfg w (s :: rest) st)
      with (processAll cfg w rest
                       (fst (fetchAndProcessTransaction cfg w s st))).
    set (st1 := fst (fetchAndProcessTransaction cfg w s st)).
    assert (Hnew : has s (processedSignatures st) = false).
    { apply has_false_not_In. intros Hin.
      apply (NoDup_app_disjoint _ _ s Hnd); [now left | exact Hin]. }
    assert (Hst1 : processedSignatures st1 = processedSignatures st ++ [s]).
    { subst st1. apply fetchAndProcess_unknown; [exact Hnew|].
      apply Hpath. now left. }
    rewrite IH.
    + rewrite Hst1, <- app_assoc. reflexivity.
    + rewrite Hst1, <- app_assoc. exact Hnd.
    + intros sig Hin. apply Hpath. now right.
Qed.

Lemma ledger_grows_without_token_data_witness :
  processedSignatures
    (processAll Examples.cfg
                (MoreExamples.worldWithoutTokenData Examples.migrationTx)
                (Examples.manySigs 1001) (initialState 0)) =
  processedSignatures (initialState 0) ++ Examples.manySigs 1001.
Proof.
  apply (ledger_grows_without_token_data
           Examples.cfg
           (MoreExamples.worldWithoutTokenData Examples.migrationTx)
           (Examples.manySigs 1001) (initialState 0)).
  - apply distinct_NoDup. vm_compute. reflexivity.
  - intros sig _. unfold unknownTokenPath.
    exists Examples.migrationTx,
           (mkResult true (Some Examples.mintA) (Some sig)),
           (mkMigration sig Examples.mintA None None 0
                        "https://solscan.io/tx/").
    repeat split; try reflexivity. discriminate.
Defined.

Lemma onMessage_shape (msg : WsMessage) (st : State) :
  exists added,
    onMessage msg st =
    mkState (processedSignatures st) (pendingFetches st ++ added)
            (retryTimers st) (lastFetchTime st) (clock st) /\
    (added = [] \/
     exists s, added = [mkFetch s (clock st)] /\
               fst (readMessage msg) = Some s /\ s <> "").
Proof.
  unfold onMessage. destruct (readMessage msg) as [sig logs]. cbn [fst].
  assert (Hsame : st = mkState (processedSignatures st)
                               (pendingFetches st ++ [])
                               (retryTimers st) (lastFetchTime st)
                               (clock st))
    by (rewrite app_nil_r; now destruct st).
  destruct sig as [s|]; cbn [truthyStr negb].
  - destruct (String.eqb s "") eqn:Es; cbn [negb].
    + exists []. split; [exact Hsame | now left].
    + destruct ((0 <? List.length logs) &&
                negb (hasMigrationIndicators (Some logs))).
      * exists []. split; [exact Hsame | now left].
      * exists [mkFetch s (clock st)]. split; [reflexivity|]. right.
        exists s. repeat split. intros ->. discriminate.
  - exists []. split; [exact Hsame | now left].
Qed.

End QueueLoop.

(** ** The queue loop among the other callbacks *)

Section EventLoopFacts.
Import JsString Detector Orchestrator Spec Queue EventLoop.
Local Open Scope list_scope.

Lemma loopBody_result (now : Z) (item : QueuedFetch)
      (continue : State -> Runtime * list Effect) (st : State) :
  (forall st', processedSignatures st' = processedSignatures st ->
               retryTimers st' = retryTimers st -> clock st' = clock st ->
               loopResult st' (continue st')) ->
  loopResult st (loopBody now item continue st).
Proof.
  intros Hc. unfold loopBody.
  destruct (30000 <? now - timestamp item)%Z.
  - now apply Hc.
  - cbn [setLastFetchTime processedSignatures].
    destruct (has (signature item) (processedSignatures st)) eqn:Hhas.
    + specialize (Hc (setLastFetchTime (clock st) st) eq_refl eq_refl
                     eq_refl).
      exact Hc.
    + unfold loopResult, settled. cbn. repeat split; try discriminate.
      right. exists (signature item). auto.
Qed.

Lemma whileLoop_result (queue : list QueuedFetch) :
  forall st, loopResult st (whileLoop queue st).
Proof.
  induction queue as [|item rest IH]; intros st; cbn [whileLoop].
  - unfold loopResult, settled. cbn. repeat split. now left.
  - destruct (clock st - lastFetchTime st <? minFetchInterval)%Z.
    + unfold loopResult, settled. cbn. repeat split; try discriminate.
      now left.
    + assert (H := loopBody_result (clock st) item (whileLoop rest)
                                   (setQueue rest st)).
      cbn [setQueue processedSignatures retryTimers clock] in H.
      apply H. intros st' _ _ _. apply IH.
Qed.

Lemma continueLoop_result (st : State) : loopResult st (continueLoop st).
Proof. apply whileLoop_result. Qed.

Lemma processFetchQueue_result (rt : Runtime) :
  loopResult (vars rt) (processFetchQueue rt).
Proof.
  unfold processFetchQueue.
  destruct (isProcessingQueue rt) eqn:Hflag; cbn [orb].
  - unfold loopResult, settled. cbn [fst snd]. rewrite Hflag.
    repeat split; try discriminate. now left.
  - destruct (List.length (pendingFetches (vars rt)) =? 0) eqn:Hlen.
    + unfold loopResult, settled. cbn [fst snd]. repeat split; [|now left].
      intros _. apply Nat.eqb_eq in Hlen.
      now destruct (pendingFetches (vars rt)).
    + apply continueLoop_result.
Qed.

Lemma processFetchQueue_settled (rt : Runtime) :
  settled (fst (processFetchQueue rt)).
Proof. apply processFetchQueue_result. Qed.

Lemma finish_result (st : State) (eff : list Effect) :
  processedSignatures (vars (fst (finish st eff))) = processedSignatures st /\
  retryTimers (vars (fst (finish st eff))) = retryTimers st /\
  clock (vars (fst (finish st eff))) = clock st /\
  settled (fst (finish st eff)).
Proof.
  unfold finish. pose proof (continueLoop_result st) as H.
  destruct (continueLoop st) as [rt eff']. unfold loopResult in H.
  cbn [fst snd] in *. tauto.
Qed.

Lemma answer_settled (cfg : Config) (w : World) (rt : Runtime) :
  settled rt -> settled (fst (answer cfg w rt)).
Proof.
  intros Hs. unfold answer.
  assert (Hfin : forall st eff, settled (fst (finish st eff)))
    by (intros; apply finish_result).
  assert (Hbusy : forall st ph eff,
             ph <> Idle -> settled (fst (mkRuntime st ph, eff : list Effect))).
  { intros st ph eff Hph. unfold settled, isProcessingQueue. cbn.
    destruct ph; congruence. }
  destruct (phase rt) as [|now due|sig|sig m|sig m td c]; try exact Hs.
  - destruct (getParsedTransaction w sig) as [[tx|]|e]; try apply Hfin.
    destruct (detectMigrationFromTransaction cfg (Some tx) sig) as [d|e];
      try apply Hfin.
    destruct (negb (isMigration d)); try apply Hfin.
    destruct (instructionsLength tx); try apply Hfin.
    destruct (parseMigrationTransactionFromParsed w tx _ sig)
      as [[migration|]|e]; try apply Hfin.
    destruct (negb (truthyStr _)); try apply Hfin.
    apply Hbusy. discriminate.
  - destruct (fetchTokenData w (mTokenMint m)) as [[td|]|e];
      try apply Hfin; apply Hbusy; discriminate.
  - destruct (sendMigrationAlert w m td); apply Hfin.
Qed.

Lemma waitOver_settled (rt : Runtime) :
  settled rt -> settled (fst (waitOver rt)).
Proof.
  intros Hs. unfold waitOver.
  destruct (phase rt) as [|now due|sig|sig m|sig m td c]; try exact Hs.
  destruct (due <=? clock (vars rt))%Z; [|exact Hs].
  destruct (pendingFetches (vars rt)) as [|item rest] eqn:Hq.
  - unfold settled. cbn. intros _. exact Hq.
  - apply (loopBody_result now item continueLoop (setQueue rest (vars rt))).
    intros st' _ _ _. apply continueLoop_result.
Qed.

Lemma enqueue_flag (s : string) (rt : Runtime) :
  isProcessingQueue (enqueue s rt) = isProcessingQueue rt.
Proof. reflexivity. Qed.

Lemma streamCallback_settled (msg : WsMessage) (rt : Runtime) :
  settled rt -> settled (fst (streamCallback msg rt)).
Proof.
  intros Hs. unfold streamCallback.
  destruct (accepted msg); [apply processFetchQueue_settled | exact Hs].
Qed.

Lemma retryTimerCallback_settled (sig : string) (rt : Runtime) :
  settled rt -> settled (fst (retryTimerCallback sig rt)).
Proof.
  intros Hs. unfold retryTimerCallback.
  destruct (negb _); [apply processFetchQueue_settled | exact Hs].
Qed.

Lemma runDueTimers_settled (timers : list (Z * string)) :
  forall rt, settled rt -> settled (fst (runDueTimers timers rt)).
Proof.
  induction timers as [|[due sig] rest IH]; intros rt Hs; [exact Hs|].
  cbn [runDueTimers]. destruct (due <=? clock (vars rt))%Z; [|now apply IH].
  pose proof (retryTimerCallback_settled sig rt Hs) as H1.
  destruct (retryTimerCallback sig rt) as [rt1 eff1]. cbn [fst] in H1.
  specialize (IH rt1 H1). destruct (runDueTimers rest rt1) as [rt2 eff2].
  exact IH.
Qed.

Lemma passTime_settled (dt : Z) (rt : Runtime) :
  settled rt -> settled (fst (passTime dt rt)).
Proof.
  intros Hs. unfold passTime. apply runDueTimers_settled. exact Hs.
Qed.

Lemma runTask_settled (cfg : Config) (task : Task) (rt : Runtime) :
  settled rt -> settled (fst (runTask cfg task rt)).
Proof.
  intros Hs. destruct task as [msg|w| |dt]; cbn [runTask].
  - now apply streamCallback_settled.
  - now apply answer_settled.
  - now apply waitOver_settled.
  - now apply passTime_settled.
Qed.

Lemma runTasks_settled (cfg : Config) (tasks : list Task) :
  forall rt, settled rt -> settled (fst (runTasks cfg tasks rt)).
Proof.
  induction tasks as [|task rest IH]; intros rt Hs; [exact Hs|].
  cbn [runTasks]. pose proof (runTask_settled cfg task rt Hs) as H1.
  destruct (runTask cfg task rt) as [rt1 eff1]. cbn [fst] in H1.
  specialize (IH rt1 H1). destruct (runTasks cfg rest rt1) as [rt2 eff2].
  exact IH.
Qed.

Lemma processFetchQueue_running (rt : Runtime) :
  isProcessingQueue rt = true -> processFetchQueue rt = (rt, []).
Proof. intros H. unfold processFetchQueue. now rewrite H. Qed.

(** X10: [processFetchQueue] among the other callbacks.  A call made
    while another call is running returns at once and changes nothing.
    Any call dispatches at most one fetch before it is suspended and comes
    back with the queue empty or with the loop still running.  Over any
    sequence of stream messages, collaborator answers and timers, started
    in a state where the queue is empty unless a call is running, the
    queue is empty whenever no call is running: no enqueued signature is
    left behind without a loop that will take it. *)
Theorem no_entry_left_behind (cfg : Config) (tasks : list Task)
        (rt : Runtime) :
  settled rt ->
  settled (fst (runTasks cfg tasks rt)) /\
  (forall rt1 : Runtime,
      settled (fst (processFetchQueue rt1)) /\
      fetches (snd (processFetchQueue rt1)) <= 1 /\
      (isProcessingQueue rt1 = true -> processFetchQueue rt1 = (rt1, []))).
Proof.
  intros Hs. split; [now apply runTasks_settled|]. intros rt1.
  split; [apply processFetchQueue_settled|].
  split; [|apply processFetchQueue_running].
  destruct (processFetchQueue_result rt1) as (_ & _ & _ & _ & [->|H]).
  - cbn. lia.
  - destruct H as (s & -> & _). cbn. lia.
Qed.

Lemma no_entry_left_behind_witness :
  settled (start 1000) /\
  fst (runTasks Examples.cfg MoreExamples.twoArrivals (start 1000))
  = mkRuntime (mkState ["SIG1"; "SIG2"] [] [] 1100 1100) Idle /\
  settled (fst (runTasks Examples.cfg MoreExamples.twoArrivals
                         (start 1000))).
Proof.
  split; [intros _; reflexivity|]. split; [reflexivity|].
  apply (no_entry_left_behind Examples.cfg MoreExamples.twoArrivals
                              (start 1000)).
  intros _. reflexivity.
Defined.

Lemma finish_empty (st : State) (eff : list Effect) :
  pendingFetches st = [] -> finish st eff = (mkRuntime st Idle, eff).
Proof.
  intros Hq. unfold finish, continueLoop. rewrite Hq. cbn [whileLoop].
  rewrite app_nil_r. unfold setQueue. rewrite <- Hq. now destruct st.
Qed.

Lemma catchHandler_queue (e : JsError) (sig : string) (st : State) :
  pendingFetches (catchHandler e sig st) = pendingFetches st.
Proof. unfold catchHandler. now destruct (isRateLimit e). Qed.

Lemma runTasks_cons (cfg : Config) (task : Task) (rest : list Task)
      (rt : Runtime) :
  runTasks cfg (task :: rest) rt =
  let '(rt1, eff1) := runTask cfg task rt in
  let '(rt2, eff2) := runTasks cfg rest rt1 in
  (rt2, eff1 ++ eff2).
Proof. reflexivity. Qed.

Lemma answers_when_idle (cfg : Config) (w : World) (st : State)
      (n : nat) :
  runTasks cfg (repeat (CollaboratorAnswer w) n) (mkRuntime st Idle) =
  (mkRuntime st Idle, []).
Proof.
  induction n as [|n IH]; [reflexivity|].
  cbn [repeat]. rewrite runTasks_cons. cbn [runTask].
  unfold answer. cbn [phase]. now rewrite IH.
Qed.

(** Without another callback in between, the answers to the three calls
    of one [fetchAndProcessTransaction] do what the function does as a
    whole. *)
Lemma answers_in_a_row (cfg : Config) (w : World) (sig : string)
      (st : State) :
  pendingFetches st = [] -> has sig (processedSignatures st) = false ->
  let res := runTasks cfg (repeat (CollaboratorAnswer w) 3)
                      (mkRuntime st (AwaitTransaction sig)) in
  fst res = mkRuntime (fst (fetchAndProcessTransaction cfg w sig st)) Idle /\
  Fetched sig :: snd res = snd (fetchAndProcessTransaction cfg w sig st).
Proof.
  intros Hq Hnew. cbv zeta.
  assert (Hc : forall e st', pendingFetches st' = [] ->
                             pendingFetches (catchHandler e sig st') = [])
    by (intros; now rewrite catchHandler_queue).
  assert (Hend : forall st' eff n,
             pendingFetches st' = [] ->
             (let '(rt1, eff1) := finish st' eff in
              let '(rt2, eff2) :=
                runTasks cfg (repeat (CollaboratorAnswer w) n) rt1 in
              (rt2, eff1 ++ eff2)) = (mkRuntime st' Idle, eff)).
  { intros st' eff n H. rewrite (finish_empty st' eff H).
    rewrite answers_when_idle. now rewrite app_nil_r. }
  unfold fetchAndProcessTransaction, tryBlock. rewrite Hnew.
  cbn [repeat]. rewrite runTasks_cons. cbn [runTask].
  unfold answer. cbn [phase vars].
  change [CollaboratorAnswer w; CollaboratorAnswer w]
    with (repeat (CollaboratorAnswer w) 2).
  destruct (getParsedTransaction w sig) as [[tx|]|e];
    [|rewrite Hend by auto; split; reflexivity..].
  destruct (detectMigrationFromTransaction cfg (Some tx) sig) as [d|e];
    [|rewrite Hend by auto; split; reflexivity].
  destruct (negb (isMigration d));
    [rewrite Hend by auto; split; reflexivity|].
  set (st1 := setProcessed st (add sig (processedSignatures st))).
  assert (Hq1 : pendingFetches st1 = []) by exact Hq.
  destruct (instructionsLength tx);
    [|rewrite Hend by auto; split; reflexivity].
  destruct (parseMigrationTransactionFromParsed w tx _ sig)
    as [[m|]|e]; [|rewrite Hend by auto; split; reflexivity..].
  destruct (negb (truthyStr (Some (mTokenMint m))));
    [rewrite Hend by auto; split; reflexivity|].
  cbn [repeat]. rewrite runTasks_cons. cbn [runTask].
  unfold answer. cbn [phase vars].
  change [CollaboratorAnswer w] with (repeat (CollaboratorAnswer w) 1).
  destruct (fetchTokenData w (mTokenMint m)) as [[td|]|e];
    [| |rewrite Hend by auto; split; reflexivity];
    cbn [repeat]; rewrite runTasks_cons; cbn [runTask];
    unfold answer; cbn [phase vars];
    change (@nil Task) with (repeat (CollaboratorAnswer w) 0);
    (destruct (sendMigrationAlert w _ _);
     rewrite Hend by auto; split; reflexivity).
Qed.

Lemma accepted_read (msg : WsMessage) (s : string) :
  accepted msg = Some s -> fst (readMessage msg) = Some s /\ s <> "".
Proof.
  unfold accepted. destruct (readMessage msg) as [sig logs]. cbn [fst].
  destruct sig as [s'|]; cbn [truthyStr negb]; [|discriminate].
  destruct (String.eqb s' "") eqn:Es; cbn [negb]; [discriminate|].
  destruct (_ && _); [discriminate|]. intros [= <-].
  split; [reflexivity|]. intros ->. discriminate.
Qed.

(** X12: the stream callback with its call of [processFetchQueue].  It
    never changes the ledger or the retry timers and dispatches at most
    one fetch, for a signature that is not in the ledger.  While a call of
    [processFetchQueue] is running it does nothing but append at most one
    entry to the queue: the signature read off the message, which is not
    empty, with the current time.  When no call is running and the queue
    is empty, a signature it enqueues is taken off the queue again before
    the callback returns, [lastFetchTime] is set, and the fetch is
    dispatched unless the signature is in the ledger; only when the last
    fetch is less than the minimum interval ago the entry stays queued
    and the call waits for the timer. *)
Theorem stream_callback_effect (msg : WsMessage) (rt : Runtime) :
  let rt' := fst (streamCallback msg rt) in
  let eff := snd (streamCallback msg rt) in
  let now := clock (vars rt) in
  processedSignatures (vars rt') = processedSignatures (vars rt) /\
  retryTimers (vars rt') = retryTimers (vars rt) /\
  (eff = [] \/
   exists s, eff = [Fetched s] /\ phase rt' = AwaitTransaction s /\
             has s (processedSignatures (vars rt)) = false) /\
  (isProcessingQueue rt = true ->
   phase rt' = phase rt /\
   lastFetchTime (vars rt') = lastFetchTime (vars rt) /\
   eff = [] /\
   exists added,
     pendingFetches (vars rt') = pendingFetches (vars rt) ++ added /\
     (added = [] \/
      exists s, added = [mkFetch s now] /\
                fst (readMessage msg) = Some s /\ s <> "")) /\
  (isProcessingQueue rt = false -> pendingFetches (vars rt) = [] ->
   forall s, accepted msg = Some s ->
     if (now - lastFetchTime (vars rt) <? minFetchInterval)%Z then
       phase rt' = Waiting now (now + (minFetchInterval -
                                       (now - lastFetchTime (vars rt)))) /\
       pendingFetches (vars rt') = [mkFetch s now] /\
       lastFetchTime (vars rt') = lastFetchTime (vars rt) /\
       eff = []
     else
       pendingFetches (vars rt') = [] /\
       lastFetchTime (vars rt') = now /\
       if has s (processedSignatures (vars rt))
       then phase rt' = Idle /\ eff = []
       else phase rt' = AwaitTransaction s /\ eff = [Fetched s]).
Proof.
  cbv zeta. unfold streamCallback.
  destruct (accepted msg) as [s|] eqn:Hacc.
  - pose proof (processFetchQueue_result (enqueue s rt)) as Hres.
    destruct Hres as (Hl & Ht & _ & _ & Heff).
    split; [exact Hl|]. split; [exact Ht|]. split; [exact Heff|]. split.
    + intros Hflag.
      rewrite (processFetchQueue_running (enqueue s rt) Hflag).
      cbn [fst snd enqueue vars phase push pendingFetches lastFetchTime].
      repeat split. exists [mkFetch s (clock (vars rt))].
      split; [reflexivity|]. right. exists s.
      split; [reflexivity|]. now apply accepted_read.
    + intros Hflag Hq s' [= <-]. clear Hl Ht Heff Hacc.
      destruct rt as [[L Q T lf c] ph]. cbn [vars pendingFetches] in Hq.
      subst Q. destruct ph; try discriminate Hflag.
      cbn [vars clock lastFetchTime processedSignatures].
      unfold processFetchQueue, continueLoop, enqueue, push.
      cbn [vars phase isProcessingQueue pendingFetches app List.length
           Nat.eqb orb whileLoop clock lastFetchTime processedSignatures
           retryTimers].
      destruct (c - lf <? minFetchInterval)%Z.
      * cbn [fst snd phase vars pendingFetches lastFetchTime setQueue].
        repeat split.
      * unfold loopBody. cbn [timestamp setQueue clock]. rewrite Z.sub_diag.
        change (30000 <? 0)%Z with false.
        cbn [setLastFetchTime setQueue processedSignatures signature clock
             pendingFetches retryTimers lastFetchTime].
        destruct (has s L);
          cbn [whileLoop fst snd phase vars pendingFetches lastFetchTime
               setQueue];
          repeat split.
  - cbn [fst snd]. split; [reflexivity|]. split; [reflexivity|].
    split; [now left|]. split.
    + intros _. repeat split. exists []. rewrite app_nil_r. auto.
    + intros _ _ s [=].
Qed.

End EventLoopFacts.

(** ** Dispatch of stream messages and reconnects after an open *)

Section StreamClient.
Import JsString Client Dispatch.
Local Open Scope list_scope.

(** X13: what a stream message can do.  The client forwards it or not
    and changes at most its subscription id; the reconnect state is never
    touched.  A message with an [error] member and a subscription
    confirmation are not forwarded, so they enqueue nothing; any other
    message enqueues at most one signature. *)
Theorem deliver_effect (env : Envelope) (cst : Client.State)
        (ost : Orchestrator.State) :
  (fst (deliver env (cst, ost)) = cst \/
   exists n, hasError env = false /\ confirmation env = Some n /\
             fst (deliver env (cst, ost)) = setSubscriptionId n cst /\
             snd (deliver env (cst, ost)) = ost) /\
  (snd (deliver env (cst, ost)) = ost \/
   hasError env = false /\ confirmation env = None /\
   exists s, s <> "" /\
             snd (deliver env (cst, ost)) =
             Orchestrator.push
               (Orchestrator.mkFetch s (Orchestrator.clock ost)) ost) /\
  reconnectAttempts (fst (deliver env (cst, ost))) = reconnectAttempts cst /\
  isReconnecting (fst (deliver env (cst, ost))) = isReconnecting cst /\
  reconnectInterval (fst (deliver env (cst, ost))) = reconnectInterval cst /\
  connectCalls (fst (deliver env (cst, ost))) = connectCalls cst.
Proof.
  unfold deliver, handleMessage. cbn [fst snd].
  destruct (hasError env); [cbn; auto 10|].
  destruct (confirmation env) as [n|].
  { cbn [fst snd setSubscriptionId reconnectAttempts isReconnecting
         reconnectInterval connectCalls].
    split; [right; exists n; auto|]. auto 10. }
  assert (Hfwd : forall msg,
             Orchestrator.onMessage msg ost = ost \/
             exists s, s <> "" /\
                       Orchestrator.onMessage msg ost =
                       Orchestrator.push
                         (Orchestrator.mkFetch s (Orchestrator.clock ost))
                         ost).
  { intros msg.
    destruct (onMessage_shape msg ost) as (added & -> & Hadd).
    destruct Hadd as [->|(s & -> & _ & Hs)].
    - left. rewrite app_nil_r. now destruct ost.
    - right. exists s. split; [exact Hs | reflexivity]. }
  destruct (strictEq (method env) "logsNotification").
  - cbn [fst snd]. split; [now left|]. split; [|auto].
    destruct (Hfwd (forwarded env)) as [->|H]; [now left | right; auto].
  - destruct (hasTransaction env); cbn [fst snd].
    + split; [now left|]. split; [|auto].
      destruct (Hfwd (forwarded env)) as [->|H]; [now left | right; auto].
    + auto 10.
Qed.

Lemma flap_cycle (code : Z) (st : State) :
  isAuthClose code = false -> idle st -> 0 < maxReconnectAttempts st ->
  idle (run [Open; Close code; TimerExpired] st) /\
  maxReconnectAttempts (run [Open; Close code; TimerExpired] st) =
  maxReconnectAttempts st /\
  connectCalls (run [Open; Close code; TimerExpired] st) =
  S (connectCalls st).
Proof.
  intros Hcode [Hrec Htimer] Hmax.
  cbn [run fold_left step]. unfold onClose, scheduleReconnect.
  rewrite Hcode.
  cbn [onOpen cleanup isReconnecting maxReconnectAttempts
       reconnectAttempts].
  rewrite Hrec.
  destruct (maxReconnectAttempts st <=? 0) eqn:E;
    [apply Nat.leb_le in E; lia|].
  cbn. repeat split.
Qed.

Lemma run_flaps_cons (c : Z) (rest : list Z) (st : State) :
  run (flaps (c :: rest)) st =
  run (flaps rest) (run [Open; Close c; TimerExpired] st).
Proof. reflexivity. Qed.

Lemma flaps_count (codes : list Z) :
  forall st : State,
    Forall (fun c => isAuthClose c = false) codes -> idle st ->
    0 < maxReconnectAttempts st ->
    connectCalls (run (flaps codes) st) =
    connectCalls st + List.length codes.
Proof.
  induction codes as [|c rest IH]; intros st Hall Hidle Hmax.
  - cbn. lia.
  - inversion Hall as [|? ? Hc Hrest]; subst. rewrite run_flaps_cons.
    destruct (flap_cycle c st Hc Hidle Hmax) as (Hi & Hm & Hcalls).
    rewrite IH; [|exact Hrest | exact Hi | lia].
    rewrite Hcalls. cbn [List.length]. lia.
Qed.

(** X14: the bound on reconnects counts failed attempts in a row only.
    The [open] handler resets the counter, so when every connection opens
    before it closes (no close being an authentication failure) the client
    reconnects after every close, however many there are: [k] closes give
    [k] reconnects even when [k] exceeds the maximum. *)
Theorem reconnects_unbounded_with_opens (n : nat) (codes : list Z) :
  0 < n ->
  Forall (fun c => c <> 1008%Z /\ c <> 1003%Z) codes ->
  reconnectsMade (run (flaps codes) (connect (newClientWithMax n))) =
  List.length codes.
Proof.
  intros Hn Hcodes.
  assert (Hall : Forall (fun c => isAuthClose c = false) codes).
  { eapply Forall_impl; [|exact Hcodes]. intros c [H1 H2].
    destruct (isAuthClose c) eqn:E; [|reflexivity].
    apply isAuthClose_iff in E. tauto. }
  unfold reconnectsMade.
  rewrite (flaps_count codes (connect (newClientWithMax n)) Hall);
    [cbn; lia | split; reflexivity | exact Hn].
Qed.

Lemma reconnects_unbounded_with_opens_witness :
  reconnectsMade
    (run (flaps (repeat 1006%Z 25)) (connect newClient)) = 25.
Proof.
  apply (reconnects_unbounded_with_opens 10 (repeat 1006%Z 25)).
  - lia.
  - repeat constructor; discriminate.
Defined.

End StreamClient.

(** ** The transaction parser *)

Section ParserFacts.
Import JsString Detector Parser.
Local Open Scope list_scope.

Variable isPublicKey : string -> bool.
Variable SolAmount : Type.
Variable extractSolAmount : Meta -> option SolAmount.

Lemma base58Run_prefix (n : nat) (s : string) :
  exists rest, s = (base58Run n s ++ rest)%string.
Proof.
  revert s. induction n as [|k IH]; intros s; [now exists s|].
  destruct s as [|c s']; [now exists ""|]. cbn [base58Run].
  destruct (isBase58 c); [|now exists (String c s')].
  destruct (IH s') as [rest Hr]. exists rest. cbn. now rewrite <- Hr.
Qed.

Lemma base58Run_bound (n : nat) (s : string) :
  String.length (base58Run n s) <= n /\ allBase58 (base58Run n s) = true.
Proof.
  revert s. induction n as [|k IH]; intros s; [cbn; split; [lia|reflexivity]|].
  destruct s as [|c s']; [cbn; split; [lia|reflexivity]|]. cbn [base58Run].
  destruct (isBase58 c) eqn:E; [|cbn; split; [lia|reflexivity]].
  destruct (IH s') as [Hl Ha]. cbn [String.length allBase58].
  rewrite E, Ha. split; [lia | reflexivity].
Qed.

(** What the regular expression matches. *)
Lemma firstMatch_shape (log m : string) :
  firstMatch log = Some m ->
  32 <= String.length m <= 44 /\ allBase58 m = true /\
  includes log m = true.
Proof.
  induction log as [|c rest IH].
  - cbn. discriminate.
  - cbn [firstMatch]. unfold matchHere.
    destruct (base58Run_bound 44 (String c rest)) as [Hl Ha].
    destruct (base58Run_prefix 44 (String c rest)) as [tail Ht].
    remember (base58Run 44 (String c rest)) as run eqn:Hrun.
    destruct (32 <=? String.length run) eqn:E.
    + intros [= <-]. apply Nat.leb_le in E.
      split; [lia|]. split; [exact Ha|].
      apply includes_split. exists "", tail. exact Ht.
    + intros H. destruct (IH H) as (Hlen & Hall & Hinc).
      split; [exact Hlen|]. split; [exact Hall|].
      apply includes_split in Hinc. destruct Hinc as (a & b & ->).
      apply includes_split. now exists (String c a), b.
Qed.

Lemma poolInLogs_shape (logs : list string) (pool : string) :
  poolInLogs isPublicKey logs = Some pool ->
  isPublicKey pool = true /\
  32 <= String.length pool <= 44 /\ allBase58 pool = true /\
  exists log, In log logs /\ includes log pool = true.
Proof.
  induction logs as [|log rest IH]; cbn [poolInLogs]; [discriminate|].
  assert (Hrest : poolInLogs isPublicKey rest = Some pool ->
                  isPublicKey pool = true /\
                  32 <= String.length pool <= 44 /\
                  allBase58 pool = true /\
                  exists l, In l (log :: rest) /\ includes l pool = true).
  { intros H. destruct (IH H) as (Hk & Hl & Ha & l & Hin & Hinc).
    repeat split; try assumption; try lia. exists l. split; [now right|].
    exact Hinc. }
  destruct (firstMatch log) as [address|] eqn:Hm; [|exact Hrest].
  destruct (isPublicKey address) eqn:Hk; [|exact Hrest].
  intros H. inversion H; subst address.
  destruct (firstMatch_shape log pool Hm) as (Hl & Ha & Hinc).
  repeat split; try assumption; try lia. exists log. split; [now left|].
  exact Hinc.
Qed.

(** X15: what the parser hands on.  A migration it returns carries the
    signature it was given, the explorer link made of that signature, and
    a token mint that is not empty; a mint supplied by the caller is
    kept as it is.  A liquidity pool, when present, is a run of 32 to 44
    base-58 characters taken from one of the log lines that makes a valid
    public key. *)
Theorem parser_result_shape
        (tx : option ParserTx) (mintFound : option string)
        (sig : string) (now : Z) (r : ParsedMigration SolAmount) :
  parseMigrationTransactionFromParsed
    isPublicKey SolAmount extractSolAmount tx mintFound sig now
  = Normal (Some r) ->
  signature r = sig /\
  transactionUrl r = ("https://solscan.io/tx/" ++ sig)%string /\
  timestamp r = now /\
  tokenMint r <> "" /\
  (truthyStr mintFound = true -> mintFound = Some (tokenMint r)) /\
  (forall pool,
      liquidityPool r = Some pool ->
      isPublicKey pool = true /\
      32 <= String.length pool <= 44 /\ allBase58 pool = true /\
      exists t m log,
        tx = Some t /\ pMeta t = Some m /\
        In log (Spec.listOf (logMessages m)) /\ includes log pool = true).
Proof.
  unfold parseMigrationTransactionFromParsed.
  destruct tx as [t|]; [|discriminate].
  destruct (pMeta t) as [m|] eqn:Hmeta; [|discriminate].
  set (found := if truthyStr mintFound then Normal mintFound
                else extractTokenMintFromTransaction isPublicKey t).
  assert (Hkeep : forall mint, found = Normal mint ->
                               truthyStr mintFound = true ->
                               mintFound = mint).
  { subst found. intros mint H Ht. rewrite Ht in H. now inversion H. }
  destruct found as [mint|e]; [|discriminate].
  destruct (truthyStr mint) eqn:Htruthy; cbn [negb]; [|discriminate].
  destruct mint as [mintAddress|]; [|discriminate].
  unfold extractLiquidityPool. rewrite Hmeta.
  fold (Spec.listOf (logMessages m)).
  destruct (poolInLogs isPublicKey (Spec.listOf (logMessages m)))
    as [address|] eqn:Hpool.
  - intros H. inversion H; subst r.
    cbn [signature transactionUrl timestamp tokenMint liquidityPool].
    split; [reflexivity|]. split; [reflexivity|]. split; [reflexivity|].
    split; [intros ->; discriminate|]. split; [intros Ht; now apply Hkeep|].
    intros pool Hp. inversion Hp; subst address.
    destruct (poolInLogs_shape _ _ Hpool) as (Hk & Hl & Ha & log & Hin & Hi).
    split; [exact Hk|]. split; [exact Hl|]. split; [exact Ha|].
    now exists t, m, log.
  - destruct (accountKeyStrings t); [|discriminate].
    intros H. inversion H; subst r.
    cbn [signature transactionUrl timestamp tokenMint liquidityPool].
    split; [reflexivity|]. split; [reflexivity|]. split; [reflexivity|].
    split; [intros ->; discriminate|]. split; [intros Ht; now apply Hkeep|].
    discriminate.
Qed.

(** X16: the parser needs the account keys even when it does not use
    them.  On a record whose message has no account keys, and whose log
    lines give no pool address, it throws, with or without a mint supplied
    by the caller; the Detector answers on the same record. *)
Theorem parser_needs_account_keys
        (cfg : Config) (tx : ParserTx) (m : Meta) (tr : ParserTransaction)
        (msg : ParserMessage) (mintFound : option string)
        (sig : string) (now : Z) :
  pMeta tx = Some m -> pTransaction tx = Some tr ->
  pMessage tr = Some msg -> pAccountKeys msg = None ->
  poolInLogs isPublicKey (Spec.listOf (logMessages m)) = None ->
  parseMigrationTransactionFromParsed
    isPublicKey SolAmount extractSolAmount (Some tx) mintFound sig now
  = Throw typeError /\
  exists r, detectMigrationFromTransaction cfg (Some (forget tx)) sig
            = Normal r.
Proof.
  intros Hmeta Htr Hmsg Hkeys Hpool. split.
  - unfold parseMigrationTransactionFromParsed. rewrite Hmeta.
    assert (Hthrow : accountKeyStrings tx = Throw typeError)
      by (unfold accountKeyStrings; now rewrite Htr, Hmsg, Hkeys).
    destruct (truthyStr mintFound) eqn:Ht.
    + rewrite Ht. cbn [negb]. destruct mintFound as [a|]; [|discriminate].
      unfold extractLiquidityPool. rewrite Hmeta.
      fold (Spec.listOf (logMessages m)). now rewrite Hpool, Hthrow.
    + unfold extractTokenMintFromTransaction, instructionList.
      now rewrite Htr, Hmsg, Hthrow.
  - destruct (truthyRef (err m)) eqn:He.
    + exists notMigration. unfold detectMigrationFromTransaction, forget.
      cbn [meta]. now rewrite Hmeta, He.
    + erewrite detect_shape; [| | exact He | |];
        [|unfold forget; cbn [meta]; exact Hmeta
         |unfold forget; cbn [transaction]; rewrite Htr; reflexivity
         |cbn [message]; rewrite Hmsg; reflexivity].
      destruct (_ && _); eexists; reflexivity.
Qed.

Lemma mapKeys_In (keys : list AccountKey) (strings : list string)
      (a : string) :
  mapKeys keys = Normal strings -> In a strings -> a <> "" ->
  In a (map keyToString keys).
Proof.
  revert strings. induction keys as [|key rest IH]; intros strings.
  - cbn. intros [= <-] [].
  - cbn [mapKeys]. destruct (keyString key) as [s|e] eqn:Hk;
      [|discriminate].
    destruct (mapKeys rest) as [l|e]; [|discriminate].
    intros [= <-] [<-|Hin] Hne.
    + left. destruct key as [s'|[p|] str]; cbn in Hk; inversion Hk; subst.
      * reflexivity.
      * cbn [keyToString truthyStr].
        destruct (String.eqb s "") eqn:E;
          [apply String.eqb_eq in E; contradiction | reflexivity].
    + right. now apply (IH l).
Qed.

Lemma scanInstructions_none (keys : list string) (ixs : list Instruction)
      (ix : Instruction) :
  scanInstructions keys ixs = None -> In ix ixs -> payloadMint ix = None.
Proof.
  induction ixs as [|x rest IH]; [contradiction|].
  cbn [scanInstructions]. destruct (payloadMint x) eqn:Hp; [discriminate|].
  destruct (ixAccounts keys x); [discriminate|].
  intros H [<-|Hin]; [exact Hp | now apply IH].
Qed.

Lemma payloadMint_none_mint (ix : Instruction) :
  payloadMint ix = None -> truthyStr (infoMint ix) = false.
Proof.
  unfold payloadMint, orStr.
  destruct (truthyStr (infoMint ix)) eqn:Em; [|reflexivity].
  destruct (strictEq (parsedType ix) "transfer" ||
            strictEq (parsedType ix) "transferChecked");
    cbn [truthyStr]; rewrite ?Em;
    destruct (infoMint ix); discriminate.
Qed.

Lemma scanIndices_some (keys : list string) (idxs : list (option Z))
      (a : string) :
  scanIndices isPublicKey keys idxs = Some a ->
  In a keys /\ looksLikeMintAddress a = true.
Proof.
  induction idxs as [|[index|] rest IH]; cbn [scanIndices];
    [discriminate| |exact IH].
  destruct ((0 <=? index)%Z && (index <? Z.of_nat (List.length keys))%Z);
    [|exact IH].
  destruct (nth_error keys (Z.to_nat index)) as [account|] eqn:Hnth;
    [|exact IH].
  destruct (negb (String.eqb account "") &&
            isValidMint isPublicKey account) eqn:Hv; [|exact IH].
  intros [= <-]. apply andb_true_iff in Hv. destruct Hv as [_ Hv].
  unfold isValidMint in Hv. apply andb_true_iff in Hv.
  split; [now apply nth_error_In in Hnth | apply Hv].
Qed.

Lemma scanPayloads_some (keys : list string)
      (ixs : list PayloadInstruction) (a : string) :
  scanPayloads isPublicKey keys ixs = Some a ->
  (exists ix, In ix ixs /\ payloadField ix = Some a) \/
  (In a keys /\ looksLikeMintAddress a = true).
Proof.
  induction ixs as [|ix rest IH]; cbn [scanPayloads]; [discriminate|].
  destruct (payloadField ix) as [m|] eqn:Hp.
  - intros [= <-]. left. exists ix. split; [now left | exact Hp].
  - destruct (match accounts (instruction ix) with
              | Some idxs => scanIndices isPublicKey keys idxs
              | None => None
              end) as [b|] eqn:Hs.
    + intros [= <-]. right. destruct (accounts (instruction ix));
        [|discriminate]. now apply scanIndices_some in Hs.
    + intros H. destruct (IH H) as [(ix' & Hin & Hx)|Hk]; [|now right].
      left. exists ix'. split; [now right | exact Hx].
Qed.

(** X17: what the parser can find after the Detector found nothing.
    When [extractTokenMint] returns nothing for a record and the parser's
    own extraction returns an address for it, the address is the
    [tokenMint] or [account] member of an instruction payload, or it is
    the watched program's or the AMM program's own address, taken from the
    account keys: the parser's fallback does not skip these two. *)
Theorem parser_after_detector_miss
        (cfg : Config) (tx : ParserTx) (tr : ParserTransaction)
        (msg : ParserMessage) (a : string) :
  pTransaction tx = Some tr -> pMessage tr = Some msg ->
  extractTokenMint
    cfg (transaction (forget tx))
    (map instruction (Spec.listOf (pInstructions msg))) = None ->
  extractTokenMintFromTransaction isPublicKey tx = Normal (Some a) ->
  (exists ix, In ix (Spec.listOf (pInstructions msg)) /\
              (infoTokenMint (instruction ix) = Some a \/
               infoAccount ix = Some a)) \/
  ((a = pumpFunProgramId cfg \/ a = pumpFunAmmProgramId cfg) /\
   String.length a = 44 /\ isPublicKey a = true).
Proof.
  intros Htr Hmsg Hdet Hpar.
  unfold extractTokenMintFromTransaction, instructionList,
    accountKeyStrings in Hpar.
  rewrite Htr, Hmsg in Hpar.
  destruct (pAccountKeys msg) as [keys|] eqn:Hkeys; [|discriminate].
  destruct (mapKeys keys) as [strings|e] eqn:Hmap; [|discriminate].
  fold (Spec.listOf (pInstructions msg)) in Hpar.
  set (ixs := Spec.listOf (pInstructions msg)) in *.
  (* what the Detector saw *)
  unfold extractTokenMint, accountKeysArray, forget in Hdet.
  rewrite Htr in Hdet. cbn [transaction message] in Hdet.
  rewrite Hmsg in Hdet. cbn [accountKeys] in Hdet. rewrite Hkeys in Hdet.
  set (keysD := map keyToString keys) in *.
  destruct (find looksLikeMintAddress keysD) eqn:HfindD; [discriminate|].
  destruct (scanInstructions keysD (map instruction ixs)) eqn:HscanD;
    [discriminate|].
  assert (Hseen : forall b, In b strings -> b <> "" -> In b keysD)
    by (intros b Hb Hne; now apply (mapKeys_In keys strings)).
  assert (Hnomint : forall b, In b strings ->
                              looksLikeMintAddress b = true -> False).
  { intros b Hb Hl.
    assert (Hne : b <> "").
    { unfold looksLikeMintAddress in Hl. apply andb_true_iff in Hl.
      now apply length44_nonempty. }
    rewrite (find_none _ _ HfindD b (Hseen b Hb Hne)) in Hl.
    discriminate. }
  destruct (find (isValidMint isPublicKey) strings) as [b|] eqn:HfindP.
  { exfalso. apply find_some in HfindP. destruct HfindP as [Hb Hv].
    unfold isValidMint in Hv. apply andb_true_iff in Hv.
    exact (Hnomint b Hb (proj1 Hv)). }
  destruct (scanPayloads isPublicKey strings ixs) as [b|] eqn:HscanP.
  - inversion Hpar; subst b.
    destruct (scanPayloads_some _ _ _ HscanP)
      as [(ix & Hin & Hfield)|[Hk Hl]]; [|exfalso; exact (Hnomint a Hk Hl)].
    left. exists ix. split; [exact Hin|].
    assert (Hmint : truthyStr (infoMint (instruction ix)) = false).
    { apply payloadMint_none_mint.
      apply (scanInstructions_none keysD (map instruction ixs));
        [exact HscanD | now apply in_map]. }
    unfold payloadField in Hfield.
    destruct (parsed (instruction ix)); [|discriminate].
    unfold orStr in Hfield. rewrite Hmint in Hfield.
    destruct (truthyStr (infoTokenMint (instruction ix))) eqn:Et.
    + rewrite Et in Hfield. left. exact Hfield.
    + destruct (truthyStr (infoAccount ix)) eqn:Ea; [|discriminate].
      right. exact Hfield.
  - inversion Hpar as [Hfb]. apply find_some in Hfb.
    destruct Hfb as [Hin Hfb]. unfold isParserFallback in Hfb.
    apply andb_true_iff in Hfb. destruct Hfb as [Hfb Hpk].
    apply andb_true_iff in Hfb. destruct Hfb as [Hlen Hknown].
    apply negb_true_iff in Hknown.
    assert (Hne : a <> "") by now apply length44_nonempty.
    pose proof (find_none _ _ Hdet a (Hseen a Hin Hne)) as Hskip.
    unfold isFallback in Hskip. rewrite Hlen in Hskip. cbn [andb] in Hskip.
    apply negb_false_iff in Hskip. unfold isSkipped in Hskip.
    rewrite Hknown in Hskip. cbn [orb] in Hskip.
    apply orb_true_iff in Hskip. right.
    split; [|split; [now apply Nat.eqb_eq | exact Hpk]].
    destruct Hskip as [H|H]; apply String.eqb_eq in H; auto.
Qed.

End ParserFacts.

Lemma parser_result_shape_witness :
  let r := Parser.mkParsedMigration
             "SIG1" Examples.mintA 7%Z
             (Some "6EF8rrecthR5Dkzon8Nwu78hRvfCKubJ14M5uBEwF6P")
             (None : option unit) "https://solscan.io/tx/SIG1" in
  Parser.signature r = "SIG1" /\
  Parser.transactionUrl r = ("https://solscan.io/tx/" ++ "SIG1")%string /\
  Parser.timestamp r = 7%Z /\
  Parser.tokenMint r <> "" /\
  (JsString.truthyStr (Some Examples.mintA) = true ->
   Some Examples.mintA = Some (Parser.tokenMint r)) /\
  (forall pool,
      Parser.liquidityPool r = Some pool ->
      (fun _ : string => true) pool = true /\
      32 <= String.length pool <= 44 /\ Parser.allBase58 pool = true /\
      exists t m log,
        Some MoreExamples.invokeTx = Some t /\ Parser.pMeta t = Some m /\
        In log (Spec.listOf (Detector.logMessages m)) /\
        JsString.includes log pool = true).
Proof.
  intros r.
  apply (parser_result_shape
           (fun _ => true) unit (fun _ => None)
           (Some MoreExamples.invokeTx) (Some Examples.mintA) "SIG1" 7%Z r).
  reflexivity.
Defined.

Lemma parser_needs_account_keys_witness :
  Parser.parseMigrationTransactionFromParsed
    (fun _ => true) unit (fun _ => None)
    (Some MoreExamples.keylessTx) (Some Examples.mintA) "SIG1" 7%Z
  = Throw typeError /\
  exists r,
    Detector.detectMigrationFromTransaction
      Examples.cfg (Some (Parser.forget MoreExamples.keylessTx)) "SIG1"
    = Normal r.
Proof.
  apply (parser_needs_account_keys
           (fun _ => true) unit (fun _ => None)
           Examples.cfg MoreExamples.keylessTx
           (Detector.mkMeta None (Some Examples.migrateLogs))
           (Parser.mkParserTransaction
              (Some (Parser.mkParserMessage (Some []) None)))
           (Parser.mkParserMessage (Some []) None)
           (Some Examples.mintA) "SIG1" 7%Z);
    reflexivity.
Defined.

Lemma parser_after_detector_miss_witness :
  (exists ix,
      In ix (Spec.listOf (Some [])) /\
      (Detector.infoTokenMint (Parser.instruction ix)
       = Some "675kPX9MHTjS2zt1qfr1NYHuzeLXfQM9H24wFSUt1Mp8" \/
       Parser.infoAccount ix
       = Some "675kPX9MHTjS2zt1qfr1NYHuzeLXfQM9H24wFSUt1Mp8")) \/
  (("675kPX9MHTjS2zt1qfr1NYHuzeLXfQM9H24wFSUt1Mp8"
    = Detector.pumpFunProgramId Examples.cfg \/
    "675kPX9MHTjS2zt1qfr1NYHuzeLXfQM9H24wFSUt1Mp8"
    = Detector.pumpFunAmmProgramId Examples.cfg) /\
   String.length "675kPX9MHTjS2zt1qfr1NYHuzeLXfQM9H24wFSUt1Mp8" = 44 /\
   (fun _ : string => true)
     "675kPX9MHTjS2zt1qfr1NYHuzeLXfQM9H24wFSUt1Mp8" = true).
Proof.
  apply (parser_after_detector_miss
           (fun _ => true) Examples.cfg MoreExamples.ammOnlyTx
           (Parser.mkParserTransaction
              (Some (Parser.mkParserMessage
                       (Some [])
                       (Some [Detector.KeyStr
                                "675kPX9MHTjS2zt1qfr1NYHuzeLXfQM9H24wFSUt1Mp8"]))))
           (Parser.mkParserMessage
              (Some [])
              (Some [Detector.KeyStr
                       "675kPX9MHTjS2zt1qfr1NYHuzeLXfQM9H24wFSUt1Mp8"])));
    reflexivity.
Defined.

(** ** The configuration loader *)

Section ConfigFacts.
Import JsString ConfigLoader.
Local Open Scope list_scope.

Lemma isPlaceholder_usable (key : option string) :
  isPlaceholder key = false <-> usable key.
Proof.
  unfold isPlaceholder, usable. destruct key as [k|]; cbn [truthyStr].
  - rewrite orb_false_iff, negb_false_iff, negb_true_iff, orb_false_iff.
    split.
    + intros [Hne [H1 H2]]. exists k. repeat split; try assumption.
      intros ->. discriminate.
    + intros (k' & [= <-] & Hne & H1 & H2). repeat split; try assumption.
      destruct (String.eqb k "") eqn:E; [|reflexivity].
      apply String.eqb_eq in E. contradiction.
  - cbn. split; [discriminate | intros (k & H & _); discriminate].
Qed.

Lemma orDefault_nonempty (value : option string) (fallback : string) :
  fallback <> "" -> orDefault value fallback <> "".
Proof.
  intros Hf. unfold orDefault. destruct value as [v|]; [|exact Hf].
  destruct (String.eqb v "") eqn:E; [exact Hf|].
  intros ->. discriminate.
Qed.

(** X18: the loader accepts an environment exactly when the three API
    keys are set, not empty, and contain neither [your_] nor [here];
    otherwise it throws.  What it returns carries the three keys as they
    are, and program ids that are never empty: the value of the
    environment when one is set and not empty, the built-in address
    otherwise. *)
Theorem loadConfig_validation (env : Env) :
  ((exists c, loadConfig env = Normal c) <->
   usable (HELIUS_API_KEY env) /\ usable (TELEGRAM_BOT_TOKEN env) /\
   usable (JUPITER_API_KEY env)) /\
  (forall c,
      loadConfig env = Normal c ->
      HELIUS_API_KEY env = Some (heliusApiKey c) /\
      TELEGRAM_BOT_TOKEN env = Some (telegramBotToken c) /\
      JUPITER_API_KEY env = Some (jupiterApiKey c) /\
      pumpFunProgramId c <> "" /\ pumpFunAmmProgramId c <> "" /\
      (forall v, PUMP_FUN_PROGRAM_ID env = Some v -> v <> "" ->
                 pumpFunProgramId c = v) /\
      (forall v, PUMP_FUN_AMM_PROGRAM_ID env = Some v -> v <> "" ->
                 pumpFunAmmProgramId c = v) /\
      (PUMP_FUN_PROGRAM_ID env = None ->
       pumpFunProgramId c = "6EF8rrecthR5Dkzon8Nwu78hRvfCKubJ14M5uBEwF6P")
      /\
      (PUMP_FUN_AMM_PROGRAM_ID env = None ->
       pumpFunAmmProgramId c
       = "675kPX9MHTjS2zt1qfr1NYHuzeLXfQM9H24wFSUt1Mp8")).
Proof.
  unfold loadConfig. rewrite <- !isPlaceholder_usable.
  destruct (isPlaceholder (HELIUS_API_KEY env)) eqn:Eh.
  { split; [split; [intros [c H]; discriminate | intros (H & _); discriminate]
           | discriminate]. }
  destruct (isPlaceholder (TELEGRAM_BOT_TOKEN env)) eqn:Et.
  { split; [split; [intros [c H]; discriminate
                   | intros (_ & H & _); discriminate]
           | discriminate]. }
  destruct (isPlaceholder (JUPITER_API_KEY env)) eqn:Ej.
  { split; [split; [intros [c H]; discriminate
                   | intros (_ & _ & H); discriminate]
           | discriminate]. }
  destruct (HELIUS_API_KEY env) as [h|]; [|discriminate].
  destruct (TELEGRAM_BOT_TOKEN env) as [t|]; [|discriminate].
  destruct (JUPITER_API_KEY env) as [j|]; [|discriminate].
  split; [split; [auto | intros _; eexists; reflexivity]|].
  intros c [= <-].
  cbn [heliusApiKey telegramBotToken jupiterApiKey pumpFunProgramId
       pumpFunAmmProgramId].
  split; [reflexivity|]. split; [reflexivity|]. split; [reflexivity|].
  split; [apply orDefault_nonempty; discriminate|].
  split; [apply orDefault_nonempty; discriminate|].
  split; [|split; [|split]].
  - intros v -> Hv. cbn [orDefault].
    destruct (String.eqb v "") eqn:E; [|reflexivity].
    apply String.eqb_eq in E. contradiction.
  - intros v -> Hv. cbn [orDefault].
    destruct (String.eqb v "") eqn:E; [|reflexivity].
    apply String.eqb_eq in E. contradiction.
  - intros ->. reflexivity.
  - intros ->. reflexivity.
Qed.

Lemma split_nonempty (s : string) : split s <> [].
Proof.
  destruct s as [|c rest]; cbn [split]; [discriminate|].
  destruct (Ascii.eqb c comma); [discriminate|].
  destruct (split rest); discriminate.
Qed.

Lemma split_commaFree (s : string) :
  Forall (fun part => commaFree part = true) (split s).
Proof.
  induction s as [|c rest IH]; cbn [split].
  - repeat constructor.
  - destruct (Ascii.eqb c comma) eqn:E.
    + constructor; [reflexivity | exact IH].
    + destruct (split rest) as [|first others].
      * repeat constructor. cbn [commaFree]. now rewrite E.
      * inversion IH as [|? ? Hf Ho]; subst. constructor; [|exact Ho].
        cbn [commaFree]. now rewrite E, Hf.
Qed.

Lemma commaFree_trimStart (s : string) :
  commaFree s = true -> commaFree (trimStart s) = true.
Proof.
  induction s as [|c rest IH]; [auto|]. cbn [commaFree trimStart].
  intros H. apply andb_true_iff in H. destruct H as [Hc Hr].
  destruct (isSpace c); [now apply IH|]. cbn [commaFree].
  now rewrite Hc, Hr.
Qed.

Lemma commaFree_trimEnd (s : string) :
  commaFree s = true -> commaFree (trimEnd s) = true.
Proof.
  induction s as [|c rest IH]; [auto|]. cbn [commaFree trimEnd].
  intros H. apply andb_true_iff in H. destruct H as [Hc Hr].
  specialize (IH Hr). destruct (trimEnd rest) as [|d kept].
  - destruct (isSpace c); [reflexivity|]. cbn [commaFree]. now rewrite Hc.
  - cbn [commaFree] in *. now rewrite Hc, IH.
Qed.

Lemma trimStart_head (s : string) :
  trimStart s = "" \/
  exists c rest, trimStart s = String c rest /\ isSpace c = false.
Proof.
  induction s as [|c rest IH]; [now left|]. cbn [trimStart].
  destruct (isSpace c) eqn:E; [exact IH|]. right. now exists c, rest.
Qed.

Lemma trimEnd_idempotent (s : string) : trimEnd (trimEnd s) = trimEnd s.
Proof.
  induction s as [|c rest IH]; [reflexivity|]. cbn [trimEnd].
  destruct (trimEnd rest) as [|d kept] eqn:E.
  - destruct (isSpace c) eqn:Ec; [reflexivity|]. cbn [trimEnd].
    now rewrite Ec.
  - cbn [trimEnd] in IH |- *. now rewrite IH.
Qed.

Lemma trimStart_trim (s : string) : trimStart (trim s) = trim s.
Proof.
  unfold trim. destruct (trimStart_head s) as [->|(c & rest & -> & Hc)];
    [reflexivity|].
  cbn [trimEnd]. destruct (trimEnd rest) as [|d kept].
  - rewrite Hc. cbn [trimStart]. now rewrite Hc.
  - cbn [trimStart]. now rewrite Hc.
Qed.

Lemma trim_idempotent (s : string) : trim (trim s) = trim s.
Proof.
  unfold trim at 1. rewrite trimStart_trim. unfold trim.
  apply trimEnd_idempotent.
Qed.

Lemma parseChatIds_clean (s id : string) :
  In id (parseChatIds s) -> clean id.
Proof.
  unfold parseChatIds. rewrite filter_In, in_map_iff.
  intros [(part & <- & Hin) Hlen]. unfold clean.
  split; [|split].
  - intros E. rewrite E in Hlen. discriminate.
  - apply commaFree_trimEnd, commaFree_trimStart.
    pose proof (split_commaFree s) as Hall.
    rewrite Forall_forall in Hall. now apply Hall.
  - apply trim_idempotent.
Qed.

Lemma split_single (x : string) :
  commaFree x = true -> split x = [x].
Proof.
  induction x as [|c rest IH]; [reflexivity|]. cbn [commaFree split].
  intros H. apply andb_true_iff in H. destruct H as [Hc Hr].
  apply negb_true_iff in Hc. rewrite Hc, (IH Hr). reflexivity.
Qed.

Lemma split_cons (x rest : string) :
  commaFree x = true ->
  split (x ++ "," ++ rest)%string = x :: split rest.
Proof.
  induction x as [|c x' IH]; [reflexivity|]. cbn [commaFree].
  intros H. apply andb_true_iff in H. destruct H as [Hc Hr].
  apply negb_true_iff in Hc.
  change (String c x' ++ "," ++ rest)%string
    with (String c (x' ++ "," ++ rest))%string.
  cbn [split]. rewrite Hc, (IH Hr). reflexivity.
Qed.

Lemma split_join (ids : list string) :
  ids <> [] -> Forall (fun id => commaFree id = true) ids ->
  split (join ids ",") = ids.
Proof.
  induction ids as [|x rest IH]; [congruence|]. intros _ Hall.
  inversion Hall as [|? ? Hx Hrest]; subst.
  destruct rest as [|y rest'].
  - now apply split_single.
  - change (join (x :: y :: rest') ",")
      with (x ++ "," ++ join (y :: rest') ",")%string.
    rewrite (split_cons _ _ Hx), IH; [reflexivity | discriminate | exact Hrest].
Qed.

Lemma parseChatIds_join (ids : list string) :
  Forall clean ids -> parseChatIds (join ids ",") = ids.
Proof.
  intros Hall. unfold parseChatIds.
  destruct ids as [|x rest]; [reflexivity|].
  rewrite split_join; [|discriminate|].
  - assert (Hmap : map trim (x :: rest) = x :: rest).
    { clear -Hall. induction Hall as [|y l Hy _ IH]; [reflexivity|].
      cbn [map]. destruct Hy as (_ & _ & ->). now rewrite IH. }
    rewrite Hmap. apply filter_all. intros y Hy.
    rewrite Forall_forall in Hall. destruct (Hall y Hy) as (Hne & _).
    destruct y; [congruence | reflexivity].
  - eapply Forall_impl; [|exact Hall]. intros y (_ & Hc & _). exact Hc.
Qed.

(** X19: a round trip through [USER_CHAT_IDS].  A list of chat ids, each
    of them not empty, without a comma and without white space around it,
    written to the variable with commas between them, is read back by the
    loader as the same list, in the same order. *)
Theorem chat_ids_round_trip (env : Env) (c : Config) (ids : list string) :
  loadConfig env = Normal c ->
  Forall clean ids ->
  USER_CHAT_IDS env = Some (join ids ",") ->
  userChatIds c = ids.
Proof.
  intros Hload Hall Henv.
  { unfold loadConfig in Hload.
    repeat match goal with
           | H : context [if ?b then _ else _] |- _ =>
               destruct b; [discriminate|]
           end.
    destruct (HELIUS_API_KEY env); [|discriminate].
    destruct (TELEGRAM_BOT_TOKEN env); [|discriminate].
    destruct (JUPITER_API_KEY env); [|discriminate].
    inversion Hload; subst c. cbn [userChatIds]. rewrite Henv.
    cbn [orDefault]. destruct (String.eqb (join ids ",") "") eqn:E.
    - apply String.eqb_eq in E.
      rewrite <- (parseChatIds_join ids Hall), E. reflexivity.
    - now apply parseChatIds_join. }
Qed.

(** X20: whatever [USER_CHAT_IDS] holds, the chat ids of a loaded
    configuration are not empty, contain no comma and carry no white
    space around them. *)
Theorem chat_ids_clean (env : Env) (c : Config) :
  loadConfig env = Normal c -> Forall clean (userChatIds c).
Proof.
  intros Hload. unfold loadConfig in Hload.
  repeat match goal with
         | H : context [if ?b then _ else _] |- _ =>
             destruct b; [discriminate|]
         end.
  destruct (HELIUS_API_KEY env); [|discriminate].
  destruct (TELEGRAM_BOT_TOKEN env); [|discriminate].
  destruct (JUPITER_API_KEY env); [|discriminate].
  inversion Hload; subst c. cbn [userChatIds].
  apply Forall_forall. intros id. apply parseChatIds_clean.
Qed.

End ConfigFacts.

Lemma chat_ids_round_trip_witness :
  ConfigLoader.userChatIds MoreExamples.loaded
  = ["123456789"; "-1001234567890"].
Proof.
  apply (chat_ids_round_trip MoreExamples.env MoreExamples.loaded
                             ["123456789"; "-1001234567890"]).
  - reflexivity.
  - repeat constructor; discriminate.
  - reflexivity.
Defined.

Lemma chat_ids_clean_witness :
  Forall ConfigLoader.clean (ConfigLoader.userChatIds MoreExamples.loaded).
Proof.
  apply (chat_ids_clean MoreExamples.env MoreExamples.loaded). reflexivity.
Defined.

(** ** Subscriptions of the Telegram bot *)

Section TelegramFacts.
Import Telegram.
Local Open Scope list_scope.

Lemma tg_has_In (c : Z) (set : Subscribers) :
  has c set = true <-> In c set.
Proof.
  unfold has. rewrite existsb_exists. split.
  - intros (x & Hin & Heq). apply Z.eqb_eq in Heq. now subst.
  - intros Hin. exists c. split; [exact Hin | apply Z.eqb_refl].
Qed.

Lemma tg_has_add (c c' : Z) (set : Subscribers) :
  has c (add c' set) = Z.eqb c c' || has c set.
Proof.
  unfold add. destruct (has c' set) eqn:E.
  - destruct (Z.eqb c c') eqn:Ec; [|reflexivity].
    apply Z.eqb_eq in Ec. subst. now rewrite E.
  - unfold has. rewrite existsb_app. cbn [existsb].
    rewrite orb_false_r. apply orb_comm.
Qed.

Lemma tg_has_delete (c c' : Z) (set : Subscribers) :
  has c (delete c' set) = negb (Z.eqb c c') && has c set.
Proof.
  unfold delete, has. induction set as [|x rest IH];
    [now rewrite andb_false_r|].
  cbn [filter existsb]. destruct (Z.eqb c' x) eqn:Ex; cbn [negb].
  - rewrite IH. apply Z.eqb_eq in Ex. subst x. rewrite (Z.eqb_sym c c').
    destruct (Z.eqb c' c); reflexivity.
  - cbn [existsb]. rewrite IH.
    destruct (Z.eqb c x) eqn:Ec; [|reflexivity].
    apply Z.eqb_eq in Ec. subst x. rewrite (Z.eqb_sym c c'), Ex.
    reflexivity.
Qed.

Lemma tg_add_NoDup (c : Z) (set : Subscribers) :
  NoDup set -> NoDup (add c set).
Proof.
  intros Hnd. unfold add. destruct (has c set) eqn:E; [exact Hnd|].
  apply NoDup_app; [exact Hnd | repeat constructor; intros [] |].
  intros x Hx [<-|[]]. apply tg_has_In in Hx. congruence.
Qed.

Lemma tg_delete_NoDup (c : Z) (set : Subscribers) :
  NoDup set -> NoDup (delete c set).
Proof. intros Hnd. unfold delete. now apply NoDup_filter. Qed.

Lemma handleAll_app (a b : list Command) (set : Subscribers) :
  handleAll (a ++ b) set = handleAll b (handleAll a set).
Proof. unfold handleAll. apply fold_left_app. Qed.

Lemma handleAll_has (c : Z) (cmds : list Command) :
  forall set,
    has c (handleAll cmds set) =
    match lastWord c cmds with
    | Some b => b
    | None => has c set
    end.
Proof.
  induction cmds as [|cmd rest IH]; intros set; [reflexivity|].
  change (handleAll (cmd :: rest) set)
    with (handleAll rest (handle cmd set)).
  rewrite IH. cbn [lastWord].
  destruct (lastWord c rest) as [b|]; [reflexivity|].
  destruct cmd as [c'|c'|c']; cbn [handle].
  - rewrite tg_has_add. destruct (Z.eqb c c'); reflexivity.
  - rewrite tg_has_delete. destruct (Z.eqb c c'); reflexivity.
  - reflexivity.
Qed.

Lemma handleAll_NoDup (cmds : list Command) :
  forall set, NoDup set -> NoDup (handleAll cmds set).
Proof.
  induction cmds as [|cmd rest IH]; intros set Hnd; [exact Hnd|].
  change (handleAll (cmd :: rest) set)
    with (handleAll rest (handle cmd set)).
  apply IH. destruct cmd; cbn [handle];
    [now apply tg_add_NoDup | now apply tg_delete_NoDup | exact Hnd].
Qed.

(** X21: who receives an alert.  After any sequence of [/start], [/stop]
    and [/status] commands, an alert is sent to a chat exactly when the
    last [/start] or [/stop] of that chat was a [/start], or when the chat
    sent neither and was subscribed before; no chat is sent the alert
    twice, and a send that fails for one chat does not take the others
    off the list. *)
Theorem alert_recipients
        (sendMessage : Z -> completion unit) (cmds : list Command)
        (set : Subscribers) (c : Z) :
  NoDup set ->
  let sent := sendMigrationAlert sendMessage (handleAll cmds set) in
  (In c (map fst sent) <->
   match lastWord c cmds with
   | Some b => b = true
   | None => In c set
   end) /\
  NoDup (map fst sent) /\
  List.length sent = List.length (handleAll cmds set).
Proof.
  intros Hnd sent. subst sent. unfold sendMigrationAlert.
  rewrite map_map. cbn [fst]. rewrite map_id, length_map.
  split; [|split; [now apply handleAll_NoDup | reflexivity]].
  rewrite <- tg_has_In, handleAll_has.
  destruct (lastWord c cmds) as [b|]; [reflexivity | apply tg_has_In].
Qed.

Lemma alert_recipients_witness :
  let sent := sendMigrationAlert
                (fun chat => if Z.eqb chat 7%Z then Throw typeError
                             else Normal tt)
                (handleAll [Start 7; Start 9; Stop 7; Status 7; Start 7]%Z [5%Z])
  in
  (In 7%Z (map fst sent) <->
   match lastWord 7%Z [Start 7; Start 9; Stop 7; Status 7; Start 7]%Z with
   | Some b => b = true
   | None => In 7%Z [5%Z]
   end) /\
  NoDup (map fst sent) /\
  List.length sent =
  List.length (handleAll [Start 7; Start 9; Stop 7; Status 7; Start 7]%Z [5%Z]).
Proof.
  apply (alert_recipients
           (fun chat => if Z.eqb chat 7%Z then Throw typeError else Normal tt)
           [Start 7; Start 9; Stop 7; Status 7; Start 7]%Z [5%Z] 7%Z).
  repeat constructor. intros [].
Defined.

Lemma initialSubscribers_acc (parseInt : string -> option Z)
      (ids : list string) :
  forall acc c,
    NoDup acc ->
    NoDup (fold_left (fun set id =>
                        match parseInt id with
                        | Some chatId => add chatId set
                        | None => set
                        end) ids acc) /\
    (In c (fold_left (fun set id =>
                        match parseInt id with
                        | Some chatId => add chatId set
                        | None => set
                        end) ids acc) <->
     In c acc \/ exists id, In id ids /\ parseInt id = Some c).
Proof.
  induction ids as [|id rest IH]; intros acc c Hnd.
  - cbn. split; [exact Hnd|]. split; [auto|].
    intros [H|(id & [] & _)]. exact H.
  - cbn [fold_left]. destruct (parseInt id) as [chatId|] eqn:Hp.
    + destruct (IH (add chatId acc) c (tg_add_NoDup chatId acc Hnd))
        as [Hnd' Hin].
      split; [exact Hnd'|]. rewrite Hin, <- !tg_has_In, tg_has_add.
      rewrite orb_true_iff, Z.eqb_eq, !tg_has_In. split.
      * intros [[->|H]|(i & Hi & Hpi)]; auto.
        -- right. exists id. split; [now left | exact Hp].
        -- right. exists i. split; [now right | exact Hpi].
      * intros [H|(i & [<-|Hi] & Hpi)]; auto.
        -- left. left. congruence.
        -- right. now exists i.
    + destruct (IH acc c Hnd) as [Hnd' Hin].
      split; [exact Hnd'|]. rewrite Hin. split.
      * intros [H|(i & Hi & Hpi)]; auto.
        right. exists i. split; [now right | exact Hpi].
      * intros [H|(i & [<-|Hi] & Hpi)]; auto; [congruence|].
        right. now exists i.
Qed.

(** X22: the subscribers the bot starts with are exactly the chat ids of
    the configuration that [parseInt] reads as a number, each of them
    once; an id that is not a number is passed over. *)
Theorem initial_subscribers
        (parseInt : string -> option Z) (ids : list string) (c : Z) :
  NoDup (initialSubscribers parseInt ids) /\
  (In c (initialSubscribers parseInt ids) <->
   exists id, In id ids /\ parseInt id = Some c).
Proof.
  unfold initialSubscribers.
  destruct (initialSubscribers_acc parseInt ids [] c (NoDup_nil Z))
    as [Hnd Hin].
  split; [exact Hnd|]. rewrite Hin. split; [|auto].
  intros [[]|H]. exact H.
Qed.

End TelegramFacts.
